(** * Community Notes scoring rules: a shallow embedding of
      [sourcecode/scoring/scoring_rules.py] and the properties of its
      rule engine.

    Tables (pandas DataFrames) are lists of rows keyed by [noteId]; a cell is
    a [value] whose [NaN] constructor is the pandas missing marker.  Floating
    point columns are read as rationals.  A Python exception is a [Raise]
    result.  The [noteStats] table is a shared mutable object in the source:
    every rule returns the table as it is after the call. *)

From Stdlib Require Import List String Ascii ZArith QArith Qabs Bool Lia.
From Stdlib Require Import ListSet Permutation Orders Mergesort.
Import ListNotations.
Local Open Scope string_scope.
Local Open Scope Z_scope.

(** ** Cells *)

Inductive value : Type :=
| NaN
| Str (s : string)
| Num (q : Q)
| Bool (b : bool).

(** [series == v] on one cell: a missing cell never compares equal. *)
Definition value_eqb (a b : value) : bool :=
  match a, b with
  | Str s, Str t => String.eqb s t
  | Num p, Num q => Qeq_bool p q
  | Bool x, Bool y => Bool.eqb x y
  | _, _ => false
  end.

Definition isna (v : value) : bool :=
  match v with NaN => true | _ => false end.

(** [series == "token"] and [series != "token"]. *)
Definition eq_str (v : value) (s : string) : bool := value_eqb v (Str s).
Definition ne_str (v : value) (s : string) : bool := negb (eq_str v s).

(** [series.isin({...})]. *)
Definition isin (v : value) (l : list string) : bool :=
  existsb (eq_str v) l.

Definition Qlt_bool (a b : Q) : bool := negb (Qle_bool b a).

(** Numeric comparisons of a cell with a threshold; a comparison with a
    missing cell is [False]. *)
Definition num_gt (v : value) (t : Q) : bool :=
  match v with Num q => Qlt_bool t q | _ => false end.
Definition num_ge (v : value) (t : Q) : bool :=
  match v with Num q => Qle_bool t q | _ => false end.
Definition num_lt (v : value) (t : Q) : bool :=
  match v with Num q => Qlt_bool q t | _ => false end.
Definition num_le (v : value) (t : Q) : bool :=
  match v with Num q => Qle_bool q t | _ => false end.

(** [series.abs()]. *)
Definition vabs (v : value) : value :=
  match v with Num q => Num (Qabs q) | _ => v end.

(** The truth value of a cell used as a row of a boolean mask. *)
Definition truthy (v : value) : bool :=
  match v with Bool b => b | _ => false end.

(** ** Exceptions *)

Inductive Exn : Type := AssertionError | IndexingError | KeyError.

Inductive result (A : Type) : Type :=
| Ok (a : A)
| Raise (e : Exn).
Arguments Ok {A} a.
Arguments Raise {A} e.

Definition bind {A B} (m : result A) (k : A -> result B) : result B :=
  match m with Ok a => k a | Raise e => Raise e end.

Notation "x <- m ;; k" := (bind m (fun x => k))
  (at level 61, m at next level, right associativity).
Notation "'assert!' b ;; k" := (if b then k else Raise AssertionError)
  (at level 61, b at next level, right associativity).

(** ** Constants *)

(** Modelled from the spec: the module [constants.py] is not among the
    sources at hand.  The four status tokens of the specification (CRH,
    CRNH, NMR, FIRM_REJECT) and the classification token are given the
    spelling below; the rules only compare them, so all that matters is that
    they are distinct. *)
Definition currentlyRatedHelpful : string := "CURRENTLY_RATED_HELPFUL".
Definition currentlyRatedNotHelpful : string := "CURRENTLY_RATED_NOT_HELPFUL".
Definition needsMoreRatings : string := "NEEDS_MORE_RATINGS".
Definition firmReject : string := "FIRM_REJECT".
Definition noteSaysTweetIsNotMisleadingKey : string := "NOT_MISLEADING".

(** Modelled from the spec: the column names of [constants.py], as the data
    model of the specification (section 3) lists them. *)
Definition internalNoteInterceptKey : string := "internalNoteIntercept".
Definition internalNoteFactor1Key : string := "internalNoteFactor1".
Definition coreNoteInterceptKey : string := "coreNoteIntercept".
Definition coreRatingStatusKey : string := "coreRatingStatus".
Definition expansionNoteInterceptKey : string := "expansionNoteIntercept".
Definition expansionRatingStatusKey : string := "expansionRatingStatus".
Definition groupRatingStatusKey : string := "groupRatingStatus".
Definition modelingGroupKey : string := "modelingGroup".
Definition topicNoteInterceptKey : string := "topicNoteIntercept".
Definition topicNoteFactor1Key : string := "topicNoteFactor1".
Definition topicNoteConfidentKey : string := "topicNoteConfident".
Definition noteTopicKey : string := "noteTopic".
Definition lowDiligenceNoteInterceptKey : string := "lowDiligenceNoteIntercept".
Definition classificationKey : string := "classification".
Definition numRatingsKey : string := "numRatings".
Definition currentLabelKey : string := "currentLabel".
Definition timestampMillisOfNmrDueToMinStableCrhTimeKey : string :=
  "timestampMillisOfNmrDueToMinStableCrhTime".
Definition updatedTimestampMillisOfNmrDueToMinStableCrhTimeKey : string :=
  "updatedTimestampMillisOfNmrDueToMinStableCrhTime".
Definition activeFilterTagsKey : string := "activeFilterTags".
Definition firstTagKey : string := "firstTag".
Definition secondTagKey : string := "secondTag".
Definition unlockedRatingStatusKey : string := "unlockedRatingStatus".
Definition adjustedSuffix : string := "_adjusted".
Definition ratioSuffix : string := "_ratio".
Definition notHelpfulHardToUnderstandKey : string :=
  "notHelpfulHardToUnderstand".

(** ** Rule identity *)

Record RuleAndVersion : Type := mkRuleAndVersion {
  ruleName : string;
  ruleVersion : string;
  lockingEnabled : bool
}.

Inductive RuleID : Type :=
| INITIAL_NMR | GENERAL_CRH | GENERAL_CRNH | UCB_CRNH | TAG_OUTLIER
| ELEVATED_CRH | NM_CRNH | GENERAL_CRH_INERTIA | ELEVATED_CRH_INERTIA
| INCORRECT_OUTLIER | LOW_DILIGENCE | LARGE_FACTOR | LOW_INTERCEPT
| META_INITIAL_NMR | EXPANSION_MODEL | EXPANSION_PLUS_MODEL | CORE_MODEL
| COVERAGE_MODEL
| GROUP_MODEL_1 | GROUP_MODEL_2 | GROUP_MODEL_3 | GROUP_MODEL_4
| GROUP_MODEL_5 | GROUP_MODEL_6 | GROUP_MODEL_7 | GROUP_MODEL_8
| GROUP_MODEL_9 | GROUP_MODEL_10 | GROUP_MODEL_11 | GROUP_MODEL_12
| GROUP_MODEL_13 | GROUP_MODEL_14
| TOPIC_MODEL_1 | TOPIC_MODEL_2 | TOPIC_MODEL_3
| MULTI_GROUP_MODEL_1 | INSUFFICIENT_EXPLANATION | SCORING_DRIFT_GUARD
| NMR_DUE_TO_MIN_STABLE_CRH_TIME.

Definition RuleID_value (r : RuleID) : RuleAndVersion :=
  match r with
  | INITIAL_NMR => mkRuleAndVersion "InitialNMR" "1.0" false
  | GENERAL_CRH => mkRuleAndVersion "GeneralCRH" "1.0" false
  | GENERAL_CRNH => mkRuleAndVersion "GeneralCRNH" "1.0" false
  | UCB_CRNH => mkRuleAndVersion "UcbCRNH" "1.0" false
  | TAG_OUTLIER => mkRuleAndVersion "TagFilter" "1.0" false
  | ELEVATED_CRH => mkRuleAndVersion "CRHSuperThreshold" "1.0" false
  | NM_CRNH => mkRuleAndVersion "NmCRNH" "1.0" false
  | GENERAL_CRH_INERTIA => mkRuleAndVersion "GeneralCRHInertia" "1.0" false
  | ELEVATED_CRH_INERTIA => mkRuleAndVersion "ElevatedCRHInertia" "1.0" false
  | INCORRECT_OUTLIER => mkRuleAndVersion "FilterIncorrect" "1.0" false
  | LOW_DILIGENCE => mkRuleAndVersion "FilterLowDiligence" "1.0" false
  | LARGE_FACTOR => mkRuleAndVersion "FilterLargeFactor" "1.0" false
  | LOW_INTERCEPT => mkRuleAndVersion "RejectLowIntercept" "1.0" false
  | META_INITIAL_NMR => mkRuleAndVersion "MetaInitialNMR" "1.0" false
  | EXPANSION_MODEL => mkRuleAndVersion "ExpansionModel" "1.1" false
  | EXPANSION_PLUS_MODEL => mkRuleAndVersion "ExpansionPlusModel" "1.1" false
  | CORE_MODEL => mkRuleAndVersion "CoreModel" "1.1" true
  | COVERAGE_MODEL => mkRuleAndVersion "CoverageModel" "1.1" false
  | GROUP_MODEL_1 => mkRuleAndVersion "GroupModel01" "1.1" true
  | GROUP_MODEL_2 => mkRuleAndVersion "GroupModel02" "1.1" true
  | GROUP_MODEL_3 => mkRuleAndVersion "GroupModel03" "1.1" true
  | GROUP_MODEL_4 => mkRuleAndVersion "GroupModel04" "1.1" false
  | GROUP_MODEL_5 => mkRuleAndVersion "GroupModel05" "1.1" false
  | GROUP_MODEL_6 => mkRuleAndVersion "GroupModel06" "1.1" true
  | GROUP_MODEL_7 => mkRuleAndVersion "GroupModel07" "1.1" false
  | GROUP_MODEL_8 => mkRuleAndVersion "GroupModel08" "1.1" true
  | GROUP_MODEL_9 => mkRuleAndVersion "GroupModel09" "1.1" true
  | GROUP_MODEL_10 => mkRuleAndVersion "GroupModel10" "1.1" true
  | GROUP_MODEL_11 => mkRuleAndVersion "GroupModel11" "1.1" true
  | GROUP_MODEL_12 => mkRuleAndVersion "GroupModel12" "1.1" false
  | GROUP_MODEL_13 => mkRuleAndVersion "GroupModel13" "1.1" true
  | GROUP_MODEL_14 => mkRuleAndVersion "GroupModel14" "1.1" true
  | TOPIC_MODEL_1 => mkRuleAndVersion "TopicModel01" "1.0" false
  | TOPIC_MODEL_2 => mkRuleAndVersion "TopicModel02" "1.0" false
  | TOPIC_MODEL_3 => mkRuleAndVersion "TopicModel03" "1.0" false
  | MULTI_GROUP_MODEL_1 => mkRuleAndVersion "MultiGroupModel01" "1.0" false
  | INSUFFICIENT_EXPLANATION =>
      mkRuleAndVersion "InsufficientExplanation" "1.0" true
  | SCORING_DRIFT_GUARD => mkRuleAndVersion "ScoringDriftGuard" "1.0" false
  | NMR_DUE_TO_MIN_STABLE_CRH_TIME =>
      mkRuleAndVersion "NmrDueToMinStableCrhTime" "1.0" false
  end.

(** [RuleID.get_name]: ["<name> (v<version>)"]. *)
Definition RuleID_get_name (r : RuleID) : string :=
  ruleName (RuleID_value r) ++ " (v" ++ ruleVersion (RuleID_value r) ++ ")".

Definition RuleID_eq_dec : forall a b : RuleID, {a = b} + {a <> b}.
Proof. decide equality. Defined.

Definition RuleID_eqb (a b : RuleID) : bool :=
  if RuleID_eq_dec a b then true else false.

(** Every member of the [RuleID] enumeration, in the order of the source. *)
Definition all_rule_ids : list RuleID :=
  [INITIAL_NMR; GENERAL_CRH; GENERAL_CRNH; UCB_CRNH; TAG_OUTLIER;
   ELEVATED_CRH; NM_CRNH; GENERAL_CRH_INERTIA; ELEVATED_CRH_INERTIA;
   INCORRECT_OUTLIER; LOW_DILIGENCE; LARGE_FACTOR; LOW_INTERCEPT;
   META_INITIAL_NMR; EXPANSION_MODEL; EXPANSION_PLUS_MODEL; CORE_MODEL;
   COVERAGE_MODEL;
   GROUP_MODEL_1; GROUP_MODEL_2; GROUP_MODEL_3; GROUP_MODEL_4;
   GROUP_MODEL_5; GROUP_MODEL_6; GROUP_MODEL_7; GROUP_MODEL_8;
   GROUP_MODEL_9; GROUP_MODEL_10; GROUP_MODEL_11; GROUP_MODEL_12;
   GROUP_MODEL_13; GROUP_MODEL_14;
   TOPIC_MODEL_1; TOPIC_MODEL_2; TOPIC_MODEL_3;
   MULTI_GROUP_MODEL_1; INSUFFICIENT_EXPLANATION; SCORING_DRIFT_GUARD;
   NMR_DUE_TO_MIN_STABLE_CRH_TIME].

(** Whether no string of the list occurs twice. *)
Fixpoint distinct_strings (l : list string) : bool :=
  match l with
  | [] => true
  | x :: l' => negb (existsb (String.eqb x) l') && distinct_strings l'
  end.

(** ** Tables *)

(** A row: the [noteId] key and the other cells by column name. *)
Record Row : Type := mkRow {
  noteId : Z;
  cells : list (string * value)
}.

Fixpoint lookup (col : string) (l : list (string * value)) : value :=
  match l with
  | [] => NaN
  | (k, v) :: l' => if String.eqb k col then v else lookup col l'
  end.

Fixpoint assign (col : string) (v : value) (l : list (string * value))
  : list (string * value) :=
  match l with
  | [] => [(col, v)]
  | (k, x) :: l' =>
      if String.eqb k col then (k, v) :: l' else (k, x) :: assign col v l'
  end.

(** [row[col]] and [row[col] = v].  The tables are taken to have the columns
    that the rules read (the source raises a [KeyError] otherwise): a cell
    that a row does not list reads as missing. *)
Definition get (col : string) (r : Row) : value := lookup col (cells r).
Definition set_cell (col : string) (v : value) (r : Row) : Row :=
  mkRow (noteId r) (assign col v (cells r)).

(** The per-note statistics: one row per note. *)
Definition NoteStats : Type := list Row.

(** A [(noteId, status)] table: the current labels, and the status updates a
    rule returns.  The column that [statusColumn] names is the second
    component. *)
Definition Labels : Type := list (Z * string).

(** A table with a declared set of columns besides [noteId] (the additional
    columns of a rule, and the engine's accumulated [noteColumns]). *)
Record DataFrame : Type := mkFrame {
  columns : list string;
  rows : list Row
}.

Definition ids (l : list Row) : list Z := map noteId l.
Definition label_ids (l : Labels) : list Z := map fst l.

Definition mem (n : Z) (l : list Z) : bool := existsb (Z.eqb n) l.

(** [set(a) == set(b)]. *)
Definition set_eqb (a b : list Z) : bool :=
  forallb (fun n => mem n b) a && forallb (fun n => mem n a) b.

(** [len(set(a) - set(b)) == 0]. *)
Definition subsetb (a b : list Z) : bool := forallb (fun n => mem n b) a.

Fixpoint nodupb (l : list Z) : bool :=
  match l with
  | [] => true
  | x :: l' => negb (mem x l') && nodupb l'
  end.

(** [left.merge(right, on=noteId, how="inner")]: one row per pair of rows
    with equal keys, in the order of the left rows. *)
Definition merge_inner {A B} (ka : A -> Z) (kb : B -> Z)
  (l : list A) (r : list B) : list (A * B) :=
  flat_map (fun a => map (pair a) (filter (fun b => ka a =? kb b) r)) l.

(** [noteStats.merge(candidateNotes, on=noteId, how="inner")] where the right
    table has the key column only. *)
Definition merge_ids (ns : NoteStats) (cand : list Z) : NoteStats :=
  map fst (merge_inner noteId (fun n => n) ns cand).

(** [labels[labels[statusColumn] <cond>][[noteId]]]. *)
Definition label_ids_where (p : string -> bool) (l : Labels) : list Z :=
  label_ids (filter (fun x => p (snd x)) l).

Module ZOrder <: TotalLeBool.
Definition t := Z.
Definition leb := Z.leb.
Theorem leb_total : forall a b, leb a b = true \/ leb b a = true.
Proof.
  intros a b. unfold leb. destruct (Z.leb_spec a b); [now left | right].
  apply Z.leb_le. lia.
Qed.
End ZOrder.

Module ZSort := Sort ZOrder.

(** The distinct keys of a table in increasing order: the order in which
    [groupby] and an outer merge lay out their result. *)
Definition sort_keys (l : list Z) : list Z :=
  ZSort.sort (nodup Z.eq_dec l).

(** [df.groupby(noteId).aggregate(list).reset_index()]. *)
Definition groupby_list {A} (l : list (Z * A)) : list (Z * list A) :=
  map (fun k => (k, map snd (filter (fun x => fst x =? k) l)))
      (sort_keys (map fst l)).

(** [df.groupby(noteId).tail(1)]: the last row of every key, rows kept in
    their order. *)
Fixpoint groupby_tail1 {A} (l : list (Z * A)) : list (Z * A) :=
  match l with
  | [] => []
  | x :: l' =>
      if mem (fst x) (map fst l') then groupby_tail1 l'
      else x :: groupby_tail1 l'
  end.

(** The rows of one side of an outer or left merge for key [k]: the matching
    rows, or one row of missing cells. *)
Definition rows_for (k : Z) (l : list Row) : list Row :=
  match filter (fun r => noteId r =? k) l with
  | [] => [mkRow k []]
  | m => m
  end.

(** [left.merge(right, on=noteId, how="outer")]. *)
Definition merge_outer (l r : DataFrame) : DataFrame :=
  mkFrame (columns l ++ columns r)
    (flat_map
       (fun k =>
          flat_map
            (fun a => map (fun b => mkRow k (cells a ++ cells b))
                          (rows_for k (rows r)))
            (rows_for k (rows l)))
       (sort_keys (ids (rows l) ++ ids (rows r)))).

(** [noteStats.loc[mask]] for a boolean mask. *)
Definition loc_mask (ns : NoteStats) (mask : list bool) : result NoteStats :=
  if Nat.eqb (List.length mask) (List.length ns)
  then Ok (map fst (filter snd (combine ns mask)))
  else Raise IndexingError.

(** [updates[statusColumn] = status]. *)
Definition with_status (status : string) (l : list Z) : Labels :=
  map (fun n => (n, status)) l.

(** ** Scoring rules *)

(** What the rules read from the constants module besides tokens and column
    names: the clock sampled for the scoring run and the tag orders. *)
Record Constants : Type := mkConstants {
  epochMillis : Z;
  notHelpfulTagsTSVOrder : list string;
  helpfulTagsTiebreakOrder : list string;
  notHelpfulTagsTiebreakOrder : list string
}.

(** The signature of [explanation_tags.get_top_two_tags_for_note], which the
    rules take as a parameter: the table it returns has one row per selected
    note with the cells [firstTag] and [secondTag]. *)
Definition TopTwoTags : Type :=
  NoteStats -> Z -> Z -> list string -> list Row.

(** What [score_notes] leaves behind: the two tables it was passed
    ([noteStats] and [currentLabels], both shared with the caller) as they
    are after the call, and the two tables it returns, the status updates
    and the optional additional columns. *)
Record Scored : Type := mkScored {
  statsAfter : NoteStats;
  labelsAfter : Labels;
  noteStatusUpdates : Labels;
  additionalColumns : option DataFrame
}.

(** The set of rule identifiers (a Python [set]). *)
Definition RuleSet : Type := set RuleID.

Module DefaultRule.
Definition score_notes (status : string)
  (noteStats : NoteStats) (currentLabels : Labels) : result Scored :=
  let noteStatusUpdates := with_status status (ids noteStats) in
  Ok (mkScored noteStats currentLabels noteStatusUpdates None).
End DefaultRule.

Module RuleFromFunction.
Definition score_notes (status : string)
  (function : NoteStats -> list bool)
  (onlyApplyToNotesThatSayTweetIsMisleading : bool)
  (noteStats : NoteStats) (currentLabels : Labels) : result Scored :=
  let mask := function noteStats in
  let mask :=
    if onlyApplyToNotesThatSayTweetIsMisleading
    then map (fun x => fst x
                       && ne_str (get classificationKey (snd x))
                                 noteSaysTweetIsNotMisleadingKey)
             (combine mask noteStats)
    else mask in
  selected <- loc_mask noteStats mask ;;
  Ok (mkScored noteStats currentLabels (with_status status (ids selected))
        None).
End RuleFromFunction.

(** The predicate shared by [ApplyModelResult] (under [checkFirmReject]) and
    [ApplyGroupModelResult]: core rejects, or core is missing and expansion
    rejects. *)
Definition crh_blocked (r : Row) : bool :=
  let coreRejects :=
    isin (get coreRatingStatusKey r) [firmReject; currentlyRatedNotHelpful] in
  let expansionRejects :=
    isin (get expansionRatingStatusKey r)
         [firmReject; currentlyRatedNotHelpful] in
  coreRejects || (isna (get coreRatingStatusKey r) && expansionRejects).

Definition status_of (v : value) : string :=
  match v with Str s => s | _ => EmptyString end.

Module ApplyModelResult.
Definition score_notes (sourceColumn : string) (checkFirmReject : bool)
  (filterColumnPairs : list (string * value))
  (noteStats0 : NoteStats) (currentLabels : Labels) : result Scored :=
  (* If necessary, prune noteStats according to prior firm rejects *)
  let noteStats :=
    if checkFirmReject
    then filter (fun r =>
                   negb (crh_blocked r
                         && eq_str (get sourceColumn r)
                                   currentlyRatedHelpful))
                noteStats0
    else noteStats0 in
  (* If necessary, prune noteStats based on filter column pairs *)
  let noteStats :=
    fold_left
      (fun ns cv => filter (fun r => value_eqb (get (fst cv) r) (snd cv)) ns)
      filterColumnPairs noteStats in
  (* Generate the set of note status updates *)
  let noteStatusUpdates :=
    map (fun r => (noteId r, get sourceColumn r))
        (filter (fun r => negb (isna (get sourceColumn r))) noteStats) in
  (* Rename FIRM_REJECT to NEEDS_MORE_RATINGS *)
  let noteStatusUpdates :=
    map (fun u => if eq_str (snd u) firmReject
                  then (fst u, Str needsMoreRatings) else u)
        noteStatusUpdates in
  assert! forallb
    (fun u => isin (snd u)
       [currentlyRatedHelpful; currentlyRatedNotHelpful; needsMoreRatings])
    noteStatusUpdates ;;
  Ok (mkScored noteStats0 currentLabels
        (map (fun u => (fst u, status_of (snd u))) noteStatusUpdates) None).
End ApplyModelResult.

(** [currentLabels[currentLabels[statusColumn] != CRNH][[noteId]]], the
    candidates of the filter rules. *)
Definition not_crnh_ids (currentLabels : Labels) : list Z :=
  label_ids_where
    (fun s => negb (String.eqb s currentlyRatedNotHelpful)) currentLabels.

Fixpoint dict_get (k : string) (d : list (string * Q)) : option Q :=
  match d with
  | [] => None
  | (k', q) :: d' => if String.eqb k' k then Some q else dict_get k d'
  end.

Module FilterTagOutliers.
(** One turn of the loop over the tags: the [(noteId, tag)] pairs the tag
    contributes. *)
Definition tag_pairs (tagFilterThresholds : list (string * Q))
  (minAdjustedTotal : Q) (noteStats : NoteStats) (tag : string)
  : result (list (Z * string)) :=
  let adjustedColumn := tag ++ adjustedSuffix in
  let adjustedRatioColumn := adjustedColumn ++ ratioSuffix in
  if String.eqb tag notHelpfulHardToUnderstandKey then Ok []
  else
    match dict_get adjustedRatioColumn tagFilterThresholds with
    | None => Raise KeyError
    | Some threshold =>
        Ok (map (fun r => (noteId r, tag))
              (filter (fun r =>
                         num_gt (get adjustedColumn r) minAdjustedTotal
                         && num_gt (get adjustedRatioColumn r) threshold)
                      noteStats))
    end.

Fixpoint impacted (tagFilterThresholds : list (string * Q))
  (minAdjustedTotal : Q) (noteStats : NoteStats) (tags : list string)
  (acc : list (Z * string)) : result (list (Z * string)) :=
  match tags with
  | [] => Ok acc
  | tag :: tags' =>
      p <- tag_pairs tagFilterThresholds minAdjustedTotal noteStats tag ;;
      impacted tagFilterThresholds minAdjustedTotal noteStats tags'
               (acc ++ p)
  end.

Definition score_notes (c : Constants) (status : string)
  (tagFilterThresholds : list (string * Q)) (minAdjustedTotal : Q)
  (noteStats0 : NoteStats) (currentLabels : Labels) : result Scored :=
  let candidateNotes := not_crnh_ids currentLabels in
  let noteStats := merge_ids noteStats0 candidateNotes in
  impactedNotes <- impacted tagFilterThresholds minAdjustedTotal noteStats
                     (notHelpfulTagsTSVOrder c) [] ;;
  let impactedNotes := groupby_list impactedNotes in
  let impactedNotes :=
    map (fun g => mkRow (fst g)
                    [(activeFilterTagsKey, Str (String.concat "," (snd g)))])
        impactedNotes in
  let noteStatusUpdates := nodup Z.eq_dec (ids impactedNotes) in
  Ok (mkScored noteStats0 currentLabels
        (with_status status noteStatusUpdates)
        (Some (mkFrame [activeFilterTagsKey] impactedNotes))).
End FilterTagOutliers.

Module FilterIncorrect.
Definition score_notes (status : string)
  (tagThreshold voteThreshold weightedTotalVotes : Q)
  (noteStats0 : NoteStats) (currentLabels : Labels) : result Scored :=
  let candidateNotes := not_crnh_ids currentLabels in
  let noteStats := merge_ids noteStats0 candidateNotes in
  let noteStatusUpdates :=
    ids (filter (fun r =>
                   num_ge (get "notHelpfulIncorrect_interval" r) tagThreshold
                   && num_ge (get "num_voters_interval" r) voteThreshold
                   && num_ge (get "tf_idf_incorrect_interval" r)
                             weightedTotalVotes)
                noteStats) in
  assert! nodupb noteStatusUpdates ;;
  Ok (mkScored noteStats0 currentLabels
        (with_status status noteStatusUpdates) None).
End FilterIncorrect.

Module FilterLowDiligence.
Definition score_notes (status : string) (interceptThreshold : Q)
  (noteStats0 : NoteStats) (currentLabels : Labels) : result Scored :=
  let candidateNotes := not_crnh_ids currentLabels in
  let noteStats := merge_ids noteStats0 candidateNotes in
  let noteStatusUpdates :=
    ids (filter (fun r => num_gt (get lowDiligenceNoteInterceptKey r)
                                 interceptThreshold)
                noteStats) in
  assert! nodupb noteStatusUpdates ;;
  Ok (mkScored noteStats0 currentLabels
        (with_status status noteStatusUpdates) None).
End FilterLowDiligence.

Module FilterLargeFactor.
Definition score_notes (status : string) (factorThreshold : Q)
  (noteStats0 : NoteStats) (currentLabels : Labels) : result Scored :=
  let candidateNotes :=
    label_ids_where (fun s => String.eqb s currentlyRatedHelpful)
                    currentLabels in
  let noteStats := merge_ids noteStats0 candidateNotes in
  let noteStatusUpdates :=
    ids (filter (fun r => num_gt (vabs (get internalNoteFactor1Key r))
                                 factorThreshold)
                noteStats) in
  assert! nodupb noteStatusUpdates ;;
  Ok (mkScored noteStats0 currentLabels
        (with_status status noteStatusUpdates) None).
End FilterLargeFactor.

Module NmrDueToMinStableCrhTime.
(** A row of the working table: the key, the stored timestamp, the status
    of the current run, and the two columns the rule fills in. *)
Record Candidate : Type := mkCandidate {
  cNoteId : Z;
  cTimestamp : value;
  cStatus : string;
  cNewStatus : value;
  cUpdatedTimestamp : value
}.

(** [~T.isna() & (T > 0)]. *)
Definition has_timestamp (t : value) : bool :=
  negb (isna t) && num_gt t 0.

(** [c.epochMillis - T]. *)
Definition millis_since (c : Constants) (t : value) : value :=
  match t with
  | Num q => Num (inject_Z (epochMillis c) - q)
  | _ => NaN
  end.

Definition is_crh (s : string) : bool := String.eqb s currentlyRatedHelpful.

(** The rows the rule looks at: notes not CRH before this run, joined with
    the current labels, that are CRH now or carry a positive timestamp. *)
Definition considered (noteStats : NoteStats) (currentLabels : Labels)
  : list Candidate :=
  let noteStats :=
    filter (fun r => ne_str (get currentLabelKey r) currentlyRatedHelpful)
           noteStats in
  let noteStats := merge_inner noteId fst noteStats currentLabels in
  map (fun x =>
         let t := get timestampMillisOfNmrDueToMinStableCrhTimeKey (fst x) in
         mkCandidate (noteId (fst x)) t (snd (snd x)) NaN t)
      (filter (fun x =>
                 is_crh (snd (snd x))
                 || has_timestamp
                      (get timestampMillisOfNmrDueToMinStableCrhTimeKey
                           (fst x)))
              noteStats).

Definition same_cell (a b : value) : bool :=
  match a, b with
  | NaN, NaN => true
  | _, _ => value_eqb a b
  end.

Definition same_row (a b : Candidate) : bool :=
  (cNoteId a =? cNoteId b) && same_cell (cTimestamp a) (cTimestamp b)
  && String.eqb (cStatus a) (cStatus b).

(** [assert_frame_equal(df, df.drop_duplicates())]. *)
Fixpoint no_duplicate_rows (l : list Candidate) : bool :=
  match l with
  | [] => true
  | x :: l' => negb (existsb (same_row x) l') && no_duplicate_rows l'
  end.

Definition threshold_millis (requiredStableCrhMinutesThreshold : Z) : Q :=
  inject_Z (requiredStableCrhMinutesThreshold * 60 * 1000).

(** (1)-(A) *)
Definition case_1A (c : Constants) (x : Candidate) : Candidate :=
  if is_crh (cStatus x)
     && (isna (cTimestamp x) || num_le (cTimestamp x) 0)
  then mkCandidate (cNoteId x) (cTimestamp x) (cStatus x)
         (Str needsMoreRatings) (Num (inject_Z (epochMillis c)))
  else x.

(** (1)-(B)-(a) *)
Definition case_1Ba (c : Constants) (thr : Z) (x : Candidate) : Candidate :=
  if is_crh (cStatus x)
     && has_timestamp (cTimestamp x)
     && num_ge (millis_since c (cTimestamp x)) (threshold_millis thr)
  then mkCandidate (cNoteId x) (cTimestamp x) (cStatus x)
         (Str currentlyRatedHelpful) (Num (-1))
  else x.

(** (1)-(B)-(b) *)
Definition case_1Bb (c : Constants) (thr : Z) (x : Candidate) : Candidate :=
  if is_crh (cStatus x)
     && has_timestamp (cTimestamp x)
     && num_lt (millis_since c (cTimestamp x)) (threshold_millis thr)
  then mkCandidate (cNoteId x) (cTimestamp x) (cStatus x)
         (Str needsMoreRatings) (cUpdatedTimestamp x)
  else x.

(** (2) *)
Definition case_2 (x : Candidate) : Candidate :=
  if negb (is_crh (cStatus x)) && has_timestamp (cTimestamp x)
  then mkCandidate (cNoteId x) (cTimestamp x) (cStatus x)
         (cNewStatus x) (Num (-1))
  else x.

Definition decide_row (c : Constants) (thr : Z) (x : Candidate)
  : Candidate :=
  case_2 (case_1Bb c thr (case_1Ba c thr (case_1A c x))).

Definition score_notes (c : Constants)
  (requiredStableCrhMinutesThreshold : Z)
  (noteStats0 : NoteStats) (currentLabels : Labels) : result Scored :=
  let noteStatusUpdates := considered noteStats0 currentLabels in
  assert! no_duplicate_rows noteStatusUpdates ;;
  let noteStatusUpdates :=
    map (decide_row c requiredStableCrhMinutesThreshold)
        noteStatusUpdates in
  let noteStatusUpdatesWithStatusChange :=
    map (fun x => (cNoteId x, status_of (cNewStatus x)))
        (filter (fun x => is_crh (cStatus x)
                          && eq_str (cNewStatus x) needsMoreRatings)
                noteStatusUpdates) in
  Ok (mkScored noteStats0 currentLabels noteStatusUpdatesWithStatusChange
        (Some (mkFrame [updatedTimestampMillisOfNmrDueToMinStableCrhTimeKey]
                 (map (fun x =>
                         mkRow (cNoteId x)
                           [(updatedTimestampMillisOfNmrDueToMinStableCrhTimeKey,
                             cUpdatedTimestamp x)])
                      noteStatusUpdates)))).
End NmrDueToMinStableCrhTime.

Module RejectLowIntercept.
Definition score_notes (status : string) (firmRejectThreshold : Q)
  (noteStats0 : NoteStats) (currentLabels : Labels) : result Scored :=
  let candidateNotes := not_crnh_ids currentLabels in
  let noteStats := merge_ids noteStats0 candidateNotes in
  let noteStatusUpdates :=
    ids (filter (fun r => num_lt (get internalNoteInterceptKey r)
                                 firmRejectThreshold)
                noteStats) in
  Ok (mkScored noteStats0 currentLabels
        (with_status status noteStatusUpdates) None).
End RejectLowIntercept.

Module ApplyGroupModelResult.
(** The [core] and [expansion] columns: whether the intercept lies in the
    allowed range, missing where the intercept is missing. *)
Definition in_range (minSafeguardThreshold : Q) (crhThreshold : option Q)
  (intercept : value) : value :=
  let v := num_gt intercept minSafeguardThreshold in
  let v := match crhThreshold with
           | Some t => v && num_lt intercept t
           | None => v
           end in
  if isna intercept then NaN else Bool v.

(** [_get_value]: the first valid entry of the pair [(core, expansion)],
    [False] when there is none.  Both columns hold booleans or the
    missing marker only, so the rejecting branch of the source is never
    taken. *)
Definition _get_value (core expansion : value) : bool :=
  match core with
  | NaN => match expansion with NaN => false | v => truthy v end
  | v => truthy v
  end.

Definition actionable (minSafeguardThreshold : Q)
  (coreCrhThreshold expansionCrhThreshold : option Q) (r : Row) : bool :=
  _get_value
    (in_range minSafeguardThreshold coreCrhThreshold
              (get coreNoteInterceptKey r))
    (in_range minSafeguardThreshold expansionCrhThreshold
              (get expansionNoteInterceptKey r)).

Definition probationary (groupNumber : Z) (r : Row) : bool :=
  eq_str (get groupRatingStatusKey r) currentlyRatedHelpful
  && value_eqb (get modelingGroupKey r) (Num (inject_Z groupNumber)).

Definition score_notes (groupNumber : Z)
  (coreCrhThreshold expansionCrhThreshold : option Q)
  (minSafeguardThreshold : Q)
  (noteStats0 : NoteStats) (currentLabels : Labels) : result Scored :=
  (* Identify notes blocked from CRH status *)
  let noteStats := filter (fun r => negb (crh_blocked r)) noteStats0 in
  let probationaryCRHNotes :=
    ids (filter (probationary groupNumber) noteStats) in
  (* Identify notes which are currently NMR. *)
  let currentNMRNotes :=
    label_ids_where (fun s => String.eqb s needsMoreRatings)
                    currentLabels in
  let noteStatusUpdates :=
    map fst (merge_inner (fun n => n) (fun n => n)
               probationaryCRHNotes currentNMRNotes) in
  let actionableNotes :=
    ids (filter (actionable minSafeguardThreshold coreCrhThreshold
                            expansionCrhThreshold) noteStats) in
  let noteStatusUpdates :=
    map fst (merge_inner (fun n => n) (fun n => n)
               noteStatusUpdates actionableNotes) in
  Ok (mkScored noteStats0 currentLabels
        (with_status currentlyRatedHelpful noteStatusUpdates) None).
End ApplyGroupModelResult.

Module InsufficientExplanation.
Definition tags_of (topTags : list Row) (n : Z) : option Row :=
  find (fun t => noteId t =? n) topTags.

(** [noteStats.loc[topTags[noteId], firstTag] = topTags[firstTag]] and the
    same for [secondTag], on the table itself: the rows that [topTags]
    names receive its two tags, the other rows are left as they are. *)
Definition set_top_tags (topTags : list Row) (noteStats : NoteStats)
  : NoteStats :=
  map (fun r =>
         match tags_of topTags (noteId r) with
         | Some t => set_cell secondTagKey (get secondTagKey t)
                       (set_cell firstTagKey (get firstTagKey t) r)
         | None => r
         end)
      noteStats.

(** [noteStats.loc[:, firstTag] = topTags[firstTag]] and the same for
    [secondTag]: both columns are overwritten in every row. *)
Definition set_all_top_tags (topTags : list Row) (noteStats : NoteStats)
  : NoteStats :=
  map (fun r =>
         match tags_of topTags (noteId r) with
         | Some t => set_cell secondTagKey (get secondTagKey t)
                       (set_cell firstTagKey (get firstTagKey t) r)
         | None => set_cell secondTagKey NaN (set_cell firstTagKey NaN r)
         end)
      noteStats.

(** [(~row[[firstTag, secondTag]].isna()).sum()]. *)
Definition num_top_tags (r : Row) : Z :=
  (if isna (get firstTagKey r) then 0 else 1)
  + (if isna (get secondTagKey r) then 0 else 1).

Definition score_notes (c : Constants)
  (get_top_two_tags_for_note : TopTwoTags)
  (status : string) (minRatingsToGetTag minTagsNeededForStatus : Z)
  (tagsConsidered : option (list string))
  (noteStats : NoteStats) (currentLabels : Labels) : result Scored :=
  let noteStats :=
    match tagsConsidered with
    | None =>
        (* Set Top CRH Tags *)
        let crh :=
          label_ids_where (fun s => String.eqb s currentlyRatedHelpful)
                          currentLabels in
        let topCrhTags :=
          get_top_two_tags_for_note
            (filter (fun r => mem (noteId r) crh) noteStats)
            minTagsNeededForStatus minRatingsToGetTag
            (helpfulTagsTiebreakOrder c) in
        let noteStats := set_top_tags topCrhTags noteStats in
        (* Set Top CRNH Tags *)
        let crnh :=
          label_ids_where (fun s => String.eqb s currentlyRatedNotHelpful)
                          currentLabels in
        let topCrnhTags :=
          get_top_two_tags_for_note
            (filter (fun r => mem (noteId r) crnh) noteStats)
            minRatingsToGetTag minTagsNeededForStatus
            (notHelpfulTagsTiebreakOrder c) in
        set_top_tags topCrnhTags noteStats
    | Some tags =>
        let topTags :=
          get_top_two_tags_for_note noteStats minRatingsToGetTag
            minTagsNeededForStatus tags in
        set_all_top_tags topTags noteStats
    end in
  (* Prune noteStats to only include CRH / CRNH notes. *)
  let crNotes :=
    label_ids_where
      (fun s => String.eqb s currentlyRatedHelpful
                || String.eqb s currentlyRatedNotHelpful)
      currentLabels in
  let crStats := merge_ids noteStats crNotes in
  (* Identify impacted notes. *)
  let noteStatusUpdates :=
    ids (filter (fun r => num_top_tags r <? minTagsNeededForStatus)
                crStats) in
  assert! nodupb noteStatusUpdates ;;
  Ok (mkScored noteStats currentLabels
        (with_status status noteStatusUpdates) None).
End InsufficientExplanation.

Module NMtoCRNH.
Definition score_notes (status : string) (crnhThresholdNMIntercept : Q)
  (noteStats : NoteStats) (currentLabels : Labels) : result Scored :=
  let noteStatusUpdates :=
    ids (filter (fun r =>
                   num_lt (get internalNoteInterceptKey r)
                          crnhThresholdNMIntercept
                   && eq_str (get classificationKey r)
                             noteSaysTweetIsNotMisleadingKey)
                noteStats) in
  Ok (mkScored noteStats currentLabels
        (with_status status noteStatusUpdates) None).
End NMtoCRNH.

Module AddCRHInertia.
Definition score_notes (status : string)
  (threshold expectedMax minRatingsNeeded : Q)
  (noteStats : NoteStats) (currentLabels : Labels) : result Scored :=
  let noteIds :=
    label_ids_where (fun s => negb (String.eqb s currentlyRatedHelpful))
                    currentLabels in
  let noteIds :=
    map fst
      (merge_inner (fun n => n) (fun n => n) noteIds
         (ids (filter (fun r =>
                         num_ge (get numRatingsKey r) minRatingsNeeded
                         && num_ge (get internalNoteInterceptKey r) threshold
                         && eq_str (get currentLabelKey r)
                                   currentlyRatedHelpful
                         && ne_str (get classificationKey r)
                                   noteSaysTweetIsNotMisleadingKey)
                      noteStats))) in
  (* Validate that all note scores were within the expected range *)
  let noteIntercepts :=
    map (get internalNoteInterceptKey) (merge_ids noteStats noteIds) in
  assert! forallb (fun v => negb (num_gt v expectedMax)) noteIntercepts ;;
  Ok (mkScored noteStats currentLabels (with_status status noteIds) None).
End AddCRHInertia.

Module ScoringDriftGuard.
Definition score_notes (lockedStatus : list (Z * option string))
  (noteStats : NoteStats) (currentLabels : Labels) : result Scored :=
  (* identify impacted notes where we need to change a label *)
  let lockedStatusDF :=
    flat_map (fun x => match snd x with
                       | Some s => [(fst x, s)]
                       | None => []
                       end) lockedStatus in
  let mergedLabels := merge_inner fst fst lockedStatusDF currentLabels in
  let mergedLabels :=
    filter (fun x => negb (String.eqb (snd (fst x)) (snd (snd x))))
           mergedLabels in
  let noteStatusUpdates := map fst mergedLabels in
  let unlockedStatus :=
    map (fun x => mkRow (fst (fst x))
                    [(unlockedRatingStatusKey, Str (snd (snd x)))])
        mergedLabels in
  Ok (mkScored noteStats currentLabels noteStatusUpdates
        (Some (mkFrame [unlockedRatingStatusKey] unlockedStatus))).
End ScoringDriftGuard.

Module ApplyTopicModelResult.
Definition score_notes (topic : string)
  (topicNMRInterceptThreshold topicNMRFactorThreshold : Q)
  (noteStats : NoteStats) (currentLabels : Labels) : result Scored :=
  let currentCRHNotes :=
    label_ids_where (fun s => String.eqb s currentlyRatedHelpful)
                    currentLabels in
  let topicLowNotes :=
    ids (filter (fun r =>
                   (num_lt (get topicNoteInterceptKey r)
                           topicNMRInterceptThreshold
                    || num_gt (vabs (get topicNoteFactor1Key r))
                              topicNMRFactorThreshold)
                   && truthy (get topicNoteConfidentKey r)
                   && eq_str (get noteTopicKey r) topic)
                noteStats) in
  let noteStatusUpdates :=
    map fst (merge_inner (fun n => n) (fun n => n)
               currentCRHNotes topicLowNotes) in
  Ok (mkScored noteStats currentLabels
        (with_status needsMoreRatings noteStatusUpdates) None).
End ApplyTopicModelResult.

(** The rule classes: every subclass of [ScoringRule] with the arguments of
    its constructor.  The first two arguments are the [ruleID] and the
    [dependencies] of the base class. *)
Inductive ScoringRule : Type :=
| DefaultRule (ruleID : RuleID) (dependencies : RuleSet) (status : string)
| RuleFromFunction (ruleID : RuleID) (dependencies : RuleSet)
    (status : string) (function : NoteStats -> list bool)
    (onlyApplyToNotesThatSayTweetIsMisleading : bool)
| ApplyModelResult (ruleID : RuleID) (dependencies : RuleSet)
    (sourceColumn : string) (checkFirmReject : bool)
    (filterColumnPairs : list (string * value))
| FilterTagOutliers (ruleID : RuleID) (dependencies : RuleSet)
    (status : string) (tagFilterThresholds : list (string * Q))
    (minAdjustedTotal : Q)
| FilterIncorrect (ruleID : RuleID) (dependencies : RuleSet)
    (status : string) (tagThreshold voteThreshold weightedTotalVotes : Q)
| FilterLowDiligence (ruleID : RuleID) (dependencies : RuleSet)
    (status : string) (interceptThreshold : Q)
| FilterLargeFactor (ruleID : RuleID) (dependencies : RuleSet)
    (status : string) (factorThreshold : Q)
| NmrDueToMinStableCrhTime (ruleID : RuleID) (dependencies : RuleSet)
    (requiredStableCrhMinutesThreshold : Z)
| RejectLowIntercept (ruleID : RuleID) (dependencies : RuleSet)
    (status : string) (firmRejectThreshold : Q)
| ApplyGroupModelResult (ruleID : RuleID) (dependencies : RuleSet)
    (groupNumber : Z) (coreCrhThreshold expansionCrhThreshold : option Q)
    (minSafeguardThreshold : Q)
| InsufficientExplanation (ruleID : RuleID) (dependencies : RuleSet)
    (status : string) (minRatingsToGetTag minTagsNeededForStatus : Z)
    (tagsConsidered : option (list string))
| NMtoCRNH (ruleID : RuleID) (dependencies : RuleSet)
    (status : string) (crnhThresholdNMIntercept : Q)
| AddCRHInertia (ruleID : RuleID) (dependencies : RuleSet)
    (status : string) (threshold expectedMax minRatingsNeeded : Q)
| ScoringDriftGuard (ruleID : RuleID) (dependencies : RuleSet)
    (lockedStatus : list (Z * option string))
| ApplyTopicModelResult (ruleID : RuleID) (dependencies : RuleSet)
    (topic : string)
    (topicNMRInterceptThreshold topicNMRFactorThreshold : Q).

Definition get_rule_id (rule : ScoringRule) : RuleID :=
  match rule with
  | DefaultRule i _ _ | RuleFromFunction i _ _ _ _
  | ApplyModelResult i _ _ _ _ | FilterTagOutliers i _ _ _ _
  | FilterIncorrect i _ _ _ _ _ | FilterLowDiligence i _ _ _
  | FilterLargeFactor i _ _ _ | NmrDueToMinStableCrhTime i _ _
  | RejectLowIntercept i _ _ _ | ApplyGroupModelResult i _ _ _ _ _
  | InsufficientExplanation i _ _ _ _ _ | NMtoCRNH i _ _ _
  | AddCRHInertia i _ _ _ _ _ | ScoringDriftGuard i _ _
  | ApplyTopicModelResult i _ _ _ _ => i
  end.

Definition get_dependencies (rule : ScoringRule) : RuleSet :=
  match rule with
  | DefaultRule _ d _ | RuleFromFunction _ d _ _ _
  | ApplyModelResult _ d _ _ _ | FilterTagOutliers _ d _ _ _
  | FilterIncorrect _ d _ _ _ _ | FilterLowDiligence _ d _ _
  | FilterLargeFactor _ d _ _ | NmrDueToMinStableCrhTime _ d _
  | RejectLowIntercept _ d _ _ | ApplyGroupModelResult _ d _ _ _ _
  | InsufficientExplanation _ d _ _ _ _ | NMtoCRNH _ d _ _
  | AddCRHInertia _ d _ _ _ _ | ScoringDriftGuard _ d _
  | ApplyTopicModelResult _ d _ _ _ => d
  end.

(** Whether the rule is an [InsufficientExplanation], the class whose
    [score_notes] sets the top tags on [noteStats] itself. *)
Definition sets_top_tags (rule : ScoringRule) : bool :=
  match rule with
  | InsufficientExplanation _ _ _ _ _ _ => true
  | _ => false
  end.

(** The locked-status table of a drift guard names a note at most once; the
    other rules have no table of their own. *)
Definition unique_keys (rule : ScoringRule) : Prop :=
  match rule with
  | ScoringDriftGuard _ _ lockedStatus => NoDup (map fst lockedStatus)
  | _ => True
  end.

(** [ScoringRule.get_name]. *)
Definition get_name (rule : ScoringRule) : string :=
  RuleID_get_name (get_rule_id rule).

(** [ScoringRule.check_dependencies]: the assertion
    [not (self._dependencies - priorRules)]. *)
Definition check_dependencies (rule : ScoringRule) (priorRules : RuleSet)
  : result unit :=
  match set_diff RuleID_eq_dec (get_dependencies rule) priorRules with
  | [] => Ok tt
  | _ :: _ => Raise AssertionError
  end.

(** [rule.score_notes(noteStats, currentLabels, statusColumn)], by the class
    of the rule. *)
Definition score_notes (c : Constants)
  (get_top_two_tags_for_note : TopTwoTags) (rule : ScoringRule)
  (noteStats : NoteStats) (currentLabels : Labels) : result Scored :=
  match rule with
  | DefaultRule _ _ status =>
      DefaultRule.score_notes status noteStats currentLabels
  | RuleFromFunction _ _ status function only =>
      RuleFromFunction.score_notes status function only noteStats
        currentLabels
  | ApplyModelResult _ _ sourceColumn checkFirmReject filterColumnPairs =>
      ApplyModelResult.score_notes sourceColumn checkFirmReject
        filterColumnPairs noteStats currentLabels
  | FilterTagOutliers _ _ status tagFilterThresholds minAdjustedTotal =>
      FilterTagOutliers.score_notes c status tagFilterThresholds
        minAdjustedTotal noteStats currentLabels
  | FilterIncorrect _ _ status tagThreshold voteThreshold total =>
      FilterIncorrect.score_notes status tagThreshold voteThreshold total
        noteStats currentLabels
  | FilterLowDiligence _ _ status interceptThreshold =>
      FilterLowDiligence.score_notes status interceptThreshold noteStats
        currentLabels
  | FilterLargeFactor _ _ status factorThreshold =>
      FilterLargeFactor.score_notes status factorThreshold noteStats
        currentLabels
  | NmrDueToMinStableCrhTime _ _ minutes =>
      NmrDueToMinStableCrhTime.score_notes c minutes noteStats currentLabels
  | RejectLowIntercept _ _ status firmRejectThreshold =>
      RejectLowIntercept.score_notes status firmRejectThreshold noteStats
        currentLabels
  | ApplyGroupModelResult _ _ groupNumber coreCrh expansionCrh minSafeguard =>
      ApplyGroupModelResult.score_notes groupNumber coreCrh expansionCrh
        minSafeguard noteStats currentLabels
  | InsufficientExplanation _ _ status minRatings minTags tagsConsidered =>
      InsufficientExplanation.score_notes c get_top_two_tags_for_note status
        minRatings minTags tagsConsidered noteStats currentLabels
  | NMtoCRNH _ _ status crnhThresholdNMIntercept =>
      NMtoCRNH.score_notes status crnhThresholdNMIntercept noteStats
        currentLabels
  | AddCRHInertia _ _ status threshold expectedMax minRatingsNeeded =>
      AddCRHInertia.score_notes status threshold expectedMax minRatingsNeeded
        noteStats currentLabels
  | ScoringDriftGuard _ _ lockedStatus =>
      ScoringDriftGuard.score_notes lockedStatus noteStats currentLabels
  | ApplyTopicModelResult _ _ topic interceptThreshold factorThreshold =>
      ApplyTopicModelResult.score_notes topic interceptThreshold
        factorThreshold noteStats currentLabels
  end.

(** ** The rule engine *)

(** The accumulators of [apply_scoring_rules], together with the shared
    [noteStats] object that every rule receives. *)
Record Engine : Type := mkEngine {
  engineStats : NoteStats;
  noteLabels : Labels;
  noteRules : list (Z * string);
  noteColumns : DataFrame;
  ruleIDs : RuleSet
}.

Definition init_engine (noteStats : NoteStats) : Engine :=
  mkEngine noteStats [] [] (mkFrame [] []) (empty_set RuleID).

(** [{noteId} == set(noteColumns.columns) & set(additionalColumns.columns)]:
    both tables carry the key, so the test is that no other column is
    shared. *)
Definition only_key_shared (a b : DataFrame) : bool :=
  forallb (fun col => negb (existsb (String.eqb col) (columns a)))
          (columns b).

(** The check that the updates and the additional columns of a rule cover
    the same notes, waived for [NMR_DUE_TO_MIN_STABLE_CRH_TIME]. *)
Definition same_notes (rule : ScoringRule) (out : Scored) : bool :=
  match additionalColumns out with
  | Some ac =>
      if RuleID_eqb (get_rule_id rule) NMR_DUE_TO_MIN_STABLE_CRH_TIME
      then true
      else set_eqb (label_ids (noteStatusUpdates out)) (ids (rows ac))
  | None => true
  end.

(** The body of the loop over the rules. *)
Definition apply_rule (c : Constants) (get_top_two_tags_for_note : TopTwoTags)
  (st : Engine) (rule : ScoringRule) : result Engine :=
  _ <- check_dependencies rule (ruleIDs st) ;;
  assert! negb (set_mem RuleID_eq_dec (get_rule_id rule) (ruleIDs st)) ;;
  let ruleIDs' := set_add RuleID_eq_dec (get_rule_id rule) (ruleIDs st) in
  out <- score_notes c get_top_two_tags_for_note rule
           (engineStats st) (noteLabels st) ;;
  assert! same_notes rule out ;;
  (* Update noteLabels, which will always hold at most one label per note. *)
  let noteLabels' :=
    groupby_tail1 (labelsAfter out ++ noteStatusUpdates out) in
  (* Update note rules to have one row per rule which was active for a note *)
  let noteRules' :=
    (noteRules st
     ++ map (fun u => (fst u, get_name rule)) (noteStatusUpdates out))%list in
  match additionalColumns out with
  | Some ac =>
      assert! only_key_shared (noteColumns st) ac ;;
      Ok (mkEngine (statsAfter out) noteLabels' noteRules'
            (merge_outer (noteColumns st) ac) ruleIDs')
  | None =>
      Ok (mkEngine (statsAfter out) noteLabels' noteRules'
            (noteColumns st) ruleIDs')
  end.

Fixpoint apply_rules (c : Constants) (get_top_two_tags_for_note : TopTwoTags)
  (rules : list ScoringRule) (st : Engine) : result Engine :=
  match rules with
  | [] => Ok st
  | rule :: rules' =>
      st' <- apply_rule c get_top_two_tags_for_note st rule ;;
      apply_rules c get_top_two_tags_for_note rules' st'
  end.

(** A row of the table that [apply_scoring_rules] returns: the cells of
    [noteStats], the columns named by [statusColumn], [ruleColumn] and
    [decidedByColumn], the additional columns of the rules and the three
    boolean columns. *)
Record ScoredNote : Type := mkScoredNote {
  sNoteId : Z;
  sCells : list (string * value);
  sStatus : string;
  sRules : string;
  sDecidedBy : option string;
  sExtra : list (string * value);
  currentlyRatedHelpfulBool : bool;
  currentlyRatedNotHelpfulBool : bool;
  awaitingMoreRatingsBool : bool
}.

(** A row of the returned table from the rows that the final merges pair
    up: a row of [noteStats], its label, its condensed rules and its
    additional columns; the three boolean columns mirror the status. *)
Definition scored_note
  (y : Row * (Z * string) * (Z * (option string * string)) * Row)
  : ScoredNote :=
  let r := fst (fst (fst y)) in
  let status := snd (snd (fst (fst y))) in
  let rules := snd (snd (fst y)) in
  mkScoredNote (noteId r) (cells r) status (snd rules) (fst rules)
    (cells (snd y))
    (String.eqb status currentlyRatedHelpful)
    (String.eqb status currentlyRatedNotHelpful)
    (String.eqb status needsMoreRatings).

(** The truth value of the optional [decidedByColumn] argument. *)
Definition requested (decidedByColumn : option string) : bool :=
  match decidedByColumn with
  | Some s => negb (String.eqb s EmptyString)
  | None => false
  end.

(** The condensed [noteRules]: one row per note with the last active rule
    (when requested) and the comma-joined active rules. *)
Definition condense (decidedByColumn : option string)
  (noteRules : list (Z * string)) : list (Z * (option string * string)) :=
  map (fun g =>
         (fst g,
          (if requested decidedByColumn
           then Some (last (snd g) EmptyString) else None,
           String.concat "," (snd g))))
      (groupby_list noteRules).

Definition finalize (decidedByColumn : option string) (st : Engine)
  : result (list ScoredNote) :=
  let noteStats := engineStats st in
  let noteRules := condense decidedByColumn (noteRules st) in
  (* Validate that there are labels and assigned rules for each note *)
  assert! set_eqb (ids noteStats) (label_ids (noteLabels st)) ;;
  assert! set_eqb (ids noteStats) (map fst noteRules) ;;
  assert! subsetb (ids (rows (noteColumns st))) (ids noteStats) ;;
  (* Merge note labels, active rules and new columns into noteStats *)
  let scoredNotes := merge_inner noteId fst noteStats (noteLabels st) in
  let scoredNotes :=
    merge_inner (fun x => noteId (fst x)) fst scoredNotes noteRules in
  let scoredNotes :=
    flat_map (fun x =>
                map (fun e => (x, e))
                    (rows_for (noteId (fst (fst x)))
                              (rows (noteColumns st))))
             scoredNotes in
  assert! Nat.eqb (List.length scoredNotes) (List.length noteStats) ;;
  Ok (map scored_note scoredNotes).

(** [apply_scoring_rules(noteStats, rules, statusColumn, ruleColumn,
    decidedByColumn)].  The names [statusColumn] and [ruleColumn] only pick
    the columns that the rows here hold in the fields [sStatus] and
    [sRules]. *)
Definition apply_scoring_rules (c : Constants)
  (get_top_two_tags_for_note : TopTwoTags) (noteStats : NoteStats)
  (rules : list ScoringRule) (decidedByColumn : option string)
  : result (list ScoredNote) :=
  st <- apply_rules c get_top_two_tags_for_note rules
          (init_engine noteStats) ;;
  finalize decidedByColumn st.

(** The status updates that the rules of a run emit, rule by rule, in
    the order of application (those of the rules that ran to the end of
    the loop body). *)
Fixpoint emitted (c : Constants) (get_top_two_tags_for_note : TopTwoTags)
  (rules : list ScoringRule) (st : Engine) : list (ScoringRule * Labels) :=
  match rules with
  | [] => []
  | rule :: rules' =>
      match apply_rule c get_top_two_tags_for_note st rule,
            score_notes c get_top_two_tags_for_note rule
              (engineStats st) (noteLabels st) with
      | Ok st', Ok out =>
          (rule, noteStatusUpdates out)
            :: emitted c get_top_two_tags_for_note rules' st'
      | _, _ => []
      end
  end.

(** The rows that the emitted updates add to [noteRules]. *)
Definition attributions (t : list (ScoringRule * Labels))
  : list (Z * string) :=
  flat_map (fun p => map (fun u => (fst u, get_name (fst p))) (snd p)) t.

(** The rules of a run that emitted a status update for note [n], in the
    order of application. *)
Definition acting_rules (n : Z) (t : list (ScoringRule * Labels))
  : list (ScoringRule * Labels) :=
  filter (fun p => mem n (label_ids (snd p))) t.

(** [s.split(sep)] for a separator of one character: how a consumer reads
    the tokens of the rule column. *)
Fixpoint split_on (sep : ascii) (s : string) : list string :=
  match s with
  | EmptyString => [EmptyString]
  | String a s' =>
      if Ascii.eqb a sep then EmptyString :: split_on sep s'
      else match split_on sep s' with
           | [] => [String a EmptyString]
           | t :: ts => String a t :: ts
           end
  end.

(** Whether [sep] does not occur in [s]. *)
Fixpoint free_of (sep : ascii) (s : string) : bool :=
  match s with
  | EmptyString => true
  | String a s' => negb (Ascii.eqb a sep) && free_of sep s'
  end.

(** ** The tables of the specification *)

(** The five-row table of section 4.13 of the specification, row by row:
    the output status and the updated timestamp [T'] for a note with status
    [statusNow] in the current run and stored timestamp [T]. *)
Definition hysteresis_table (now requiredStableCrhMinutes : Z)
  (statusNow : string) (T : value) : string * value :=
  let threshold := inject_Z (requiredStableCrhMinutes * 60 * 1000) in
  let elapsed :=
    match T with Num q => Num (inject_Z now - q) | _ => NaN end in
  if String.eqb statusNow currentlyRatedHelpful
     && (isna T || num_le T 0)
  then (needsMoreRatings, Num (inject_Z now))
  else if String.eqb statusNow currentlyRatedHelpful
          && num_gt T 0 && num_ge elapsed threshold
  then (currentlyRatedHelpful, Num (-1))
  else if String.eqb statusNow currentlyRatedHelpful
          && num_gt T 0 && num_lt elapsed threshold
  then (needsMoreRatings, T)
  else if negb (String.eqb statusNow currentlyRatedHelpful) && num_gt T 0
  then (statusNow, Num (-1))
  else (statusNow, T).

(** The row of the table for a row that the rule considers, and whether the
    table flips its status from CRH to NMR. *)
Definition table_row (now requiredStableCrhMinutes : Z)
  (x : NmrDueToMinStableCrhTime.Candidate) : string * value :=
  hysteresis_table now requiredStableCrhMinutes
    (NmrDueToMinStableCrhTime.cStatus x)
    (NmrDueToMinStableCrhTime.cTimestamp x).

Definition flips (now requiredStableCrhMinutes : Z)
  (x : NmrDueToMinStableCrhTime.Candidate) : bool :=
  String.eqb (NmrDueToMinStableCrhTime.cStatus x) currentlyRatedHelpful
  && String.eqb (fst (table_row now requiredStableCrhMinutes x))
                needsMoreRatings.

(** Step 5 of section 4.11 of the specification: the booleans [core] and
    [expansion], missing when the intercept is missing, and "actionable iff
    the first non-missing of (core, expansion) is true; if both are missing,
    not actionable". *)
Definition spec_in_range (minSafeguard : Q) (crhThreshold : option Q)
  (intercept : value) : option bool :=
  if isna intercept then None
  else Some (num_gt intercept minSafeguard
             && match crhThreshold with
                | None => true
                | Some t => num_lt intercept t
                end).

Definition spec_actionable (minSafeguard : Q)
  (coreCrhThreshold expansionCrhThreshold : option Q) (r : Row) : bool :=
  match spec_in_range minSafeguard coreCrhThreshold
          (get coreNoteInterceptKey r),
        spec_in_range minSafeguard expansionCrhThreshold
          (get expansionNoteInterceptKey r) with
  | Some core, _ => core
  | None, Some expansion => expansion
  | None, None => false
  end.

(** Section 4.5 of the specification: the notes whose source status
    [ApplyModelResult] propagates.  The source status is non-missing; when
    [checkFirmReject] is set the note is not one that core or expansion
    blocks while the source would assign CRH; every equality filter holds. *)
Definition propagates (sourceColumn : string) (checkFirmReject : bool)
  (filterColumnPairs : list (string * value)) (r : Row) : bool :=
  (if checkFirmReject
   then negb (crh_blocked r
              && eq_str (get sourceColumn r) currentlyRatedHelpful)
   else true)
  && forallb (fun cv => value_eqb (get (fst cv) r) (snd cv))
             filterColumnPairs
  && negb (isna (get sourceColumn r)).

(** The status emitted for a propagated note: the source status, with
    [FIRM_REJECT] rewritten to NMR. *)
Definition propagated_status (sourceColumn : string) (r : Row) : string :=
  if eq_str (get sourceColumn r) firmReject then needsMoreRatings
  else status_of (get sourceColumn r).

(** ** The top-two-tags selector and the scenarios of the specification *)

(** Modelled from the spec: [explanation_tags.get_top_two_tags_for_note] is
    not part of the sources at hand.  Section 4.14 of the specification
    describes it as a selector which, given per-note tag counts, a
    [minRatingsToGetTag] and a tie-break order, produces up to two tag names
    for each note.  Here a tag qualifies with a count of at least
    [minRatingsToGetTag]; the qualifying tags are ranked by decreasing count,
    equal counts in the tie-break order. *)
Module ExplanationTags.
Definition tag_count (r : Row) (tag : string) : Q :=
  match get tag r with Num q => q | _ => 0%Q end.

Fixpoint insert_tag (r : Row) (tag : string) (ranked : list string)
  : list string :=
  match ranked with
  | [] => [tag]
  | t :: ts =>
      if Qlt_bool (tag_count r t) (tag_count r tag) then tag :: ranked
      else t :: insert_tag r tag ts
  end.

Definition ranked_tags (minRatingsToGetTag : Z) (tags : list string)
  (r : Row) : list string :=
  fold_left (fun acc t => insert_tag r t acc)
    (filter (fun t => num_ge (get t r) (inject_Z minRatingsToGetTag)) tags)
    [].

Definition get_top_two_tags_for_note : TopTwoTags :=
  fun noteStats minRatingsToGetTag minTagsNeededForStatus tagsConsidered =>
    map (fun r =>
           let ranked := ranked_tags minRatingsToGetTag tagsConsidered r in
           mkRow (noteId r)
             [(firstTagKey,
               match ranked with t :: _ => Str t | [] => NaN end);
              (secondTagKey,
               match ranked with _ :: t :: _ => Str t | _ => NaN end)])
        noteStats.
End ExplanationTags.

(** The constants of the scenarios: the clock of scenario S5 and short tag
    orders. *)
Definition tiny_constants : Constants :=
  mkConstants 1000000
    ["notHelpfulOther"; "notHelpfulIncorrect";
     "notHelpfulArgumentativeOrBiased"]
    ["helpfulOther"; "helpfulClear"; "helpfulGoodSources"]
    ["notHelpfulOther"; "notHelpfulIncorrect"].

(** Scenario S4 without the propagation step: a default rule and
    [RejectLowIntercept] on two notes, the first below the threshold. *)
Definition reject_stats : NoteStats :=
  [mkRow 1 [(internalNoteInterceptKey, Num (-1 # 2))];
   mkRow 2 [(internalNoteInterceptKey, Num (1 # 2))]].

Definition reject_rules : list ScoringRule :=
  [DefaultRule INITIAL_NMR [] needsMoreRatings;
   RejectLowIntercept LOW_INTERCEPT [INITIAL_NMR] firmReject (3 # 10)].

Definition reject_row1 : ScoredNote :=
  mkScoredNote 1 [(internalNoteInterceptKey, Num (-1 # 2))] firmReject
    "InitialNMR (v1.0),RejectLowIntercept (v1.0)"
    (Some "RejectLowIntercept (v1.0)") [] false false false.

Definition reject_row2 : ScoredNote :=
  mkScoredNote 2 [(internalNoteInterceptKey, Num (1 # 2))] needsMoreRatings
    "InitialNMR (v1.0)" (Some "InitialNMR (v1.0)") [] false false true.

(** Scenario S7 with the drift guard applied twice under two identifiers:
    both applications contribute the column [unlockedRatingStatus]. *)
Definition drift_stats : NoteStats := [mkRow 5 []].

Definition drift_guard (ruleID : RuleID) (dependencies : RuleSet)
  : ScoringRule :=
  ScoringDriftGuard ruleID dependencies [(5, Some currentlyRatedHelpful)].

Definition drift_rules : list ScoringRule :=
  [DefaultRule META_INITIAL_NMR [] needsMoreRatings;
   drift_guard SCORING_DRIFT_GUARD [META_INITIAL_NMR];
   DefaultRule INITIAL_NMR [] needsMoreRatings;
   drift_guard CORE_MODEL [SCORING_DRIFT_GUARD]].

(** Scenario S4, the propagation step: the core model rejected note 1
    firmly, rated note 2 helpful and did not score note 3. *)
Definition core_stats : NoteStats :=
  [mkRow 1 [(coreRatingStatusKey, Str firmReject);
            (expansionRatingStatusKey, NaN)];
   mkRow 2 [(coreRatingStatusKey, Str currentlyRatedHelpful);
            (expansionRatingStatusKey, Str currentlyRatedHelpful)];
   mkRow 3 [(coreRatingStatusKey, NaN);
            (expansionRatingStatusKey, NaN)]].

(** A table whose core status column holds a token that is no status. *)
Definition unknown_stats : NoteStats :=
  [mkRow 4 [(coreRatingStatusKey, Str "LOCKED");
            (expansionRatingStatusKey, NaN)]].

(** A meta-scoring run that ends on [RejectLowIntercept]. *)
Definition low_stats : NoteStats :=
  [mkRow 9 [(internalNoteInterceptKey, Num (-1))]].

Definition low_rules : list ScoringRule :=
  [DefaultRule META_INITIAL_NMR [] needsMoreRatings;
   RejectLowIntercept LOW_INTERCEPT [META_INITIAL_NMR] firmReject 0].

(** Scenario S5: note 7 was NMR in the previous run, is CRH now and has no
    timestamp; note 8 carries a timestamp and has no label yet. *)
Definition hysteresis_stats : NoteStats :=
  [mkRow 7 [(currentLabelKey, Str needsMoreRatings);
            (timestampMillisOfNmrDueToMinStableCrhTimeKey, NaN)];
   mkRow 8 [(currentLabelKey, Str needsMoreRatings);
            (timestampMillisOfNmrDueToMinStableCrhTimeKey, Num 5)]].

Definition hysteresis_labels : Labels := [(7, currentlyRatedHelpful)].

(** Scenario S6: the next run, thirty minutes later; note 7 is CRH again and
    carries the timestamp of scenario S5. *)
Definition matured_constants : Constants :=
  mkConstants (1000000 + 30 * 60 * 1000) [] [] [].

Definition matured_row : Row :=
  mkRow 7 [(currentLabelKey, Str needsMoreRatings);
           (timestampMillisOfNmrDueToMinStableCrhTimeKey, Num 1000000)].

Definition matured_stats : NoteStats := [matured_row].

(** A note of group 3 that the group model rates helpful, with a core
    intercept inside the safeguarded range. *)
Definition group_row : Row :=
  mkRow 1 [(coreRatingStatusKey, Str needsMoreRatings);
           (expansionRatingStatusKey, NaN);
           (groupRatingStatusKey, Str currentlyRatedHelpful);
           (modelingGroupKey, Num 3);
           (coreNoteInterceptKey, Num (35 # 100));
           (expansionNoteInterceptKey, NaN)].

Definition group_stats : NoteStats := [group_row].

Definition group_labels : Labels := [(1, needsMoreRatings)].

(** A note rated helpful with two helpful tags and no top tags yet. *)
Definition explanation_stats : NoteStats :=
  [mkRow 1 [("helpfulOther", Num 0); ("helpfulClear", Num 5);
            ("helpfulGoodSources", Num 3);
            ("notHelpfulOther", Num 0); ("notHelpfulIncorrect", Num 0);
            (firstTagKey, NaN); (secondTagKey, NaN)]].

Definition explanation_labels : Labels := [(1, currentlyRatedHelpful)].

(** A state of the loop in which note 1 of [reject_stats] is CRNH, and the
    rejection of low intercepts alone. *)
Definition crnh_state : Engine :=
  mkEngine reject_stats
    [(1, currentlyRatedNotHelpful); (2, needsMoreRatings)]
    [(1, "InitialNMR (v1.0)"); (2, "InitialNMR (v1.0)")]
    (mkFrame [] []) [INITIAL_NMR].

Definition reject_only : list ScoringRule :=
  [RejectLowIntercept LOW_INTERCEPT [INITIAL_NMR] firmReject (3 # 10)].

(** A state of the loop in which note 5 of [drift_stats] is NMR while its
    locked status is CRH. *)
Definition drift_state : Engine :=
  mkEngine drift_stats [(5, needsMoreRatings)]
    [(5, "MetaInitialNMR (v1.0)")] (mkFrame [] []) [META_INITIAL_NMR].

(** Two notes with a low intercept: the first on a tweet classified as not
    misleading, the second without a classification. *)
Definition classified_stats : NoteStats :=
  [mkRow 1 [(classificationKey, Str noteSaysTweetIsNotMisleadingKey);
            (internalNoteInterceptKey, Num (-1 # 2))];
   mkRow 2 [(classificationKey, NaN);
            (internalNoteInterceptKey, Num (-1 # 2))]].

Definition every_row (noteStats : NoteStats) : list bool :=
  map (fun _ => true) noteStats.

(** A rule for CRH that no note of [reject_stats] meets. *)
Definition crh_rule : ScoringRule :=
  RuleFromFunction GENERAL_CRH [INITIAL_NMR] currentlyRatedHelpful
    (fun noteStats =>
       map (fun r => num_ge (get internalNoteInterceptKey r) 1) noteStats)
    false.

(** ** The statuses a rule overwrites *)

(** The test on the current label that [score_notes] puts before an update:
    the candidates are drawn from [currentLabels] under this test.  [None]
    for the classes whose updates are drawn from [noteStats] alone. *)
Definition overwrites (rule : ScoringRule) : option (string -> bool) :=
  match rule with
  | FilterTagOutliers _ _ _ _ _ | FilterIncorrect _ _ _ _ _ _
  | FilterLowDiligence _ _ _ _ | RejectLowIntercept _ _ _ _ =>
      Some (fun s => negb (String.eqb s currentlyRatedNotHelpful))
  | FilterLargeFactor _ _ _ _ | NmrDueToMinStableCrhTime _ _ _
  | ApplyTopicModelResult _ _ _ _ _ =>
      Some (fun s => String.eqb s currentlyRatedHelpful)
  | ApplyGroupModelResult _ _ _ _ _ _ =>
      Some (fun s => String.eqb s needsMoreRatings)
  | InsufficientExplanation _ _ _ _ _ _ =>
      Some (fun s => String.eqb s currentlyRatedHelpful
                     || String.eqb s currentlyRatedNotHelpful)
  | AddCRHInertia _ _ _ _ _ _ =>
      Some (fun s => negb (String.eqb s currentlyRatedHelpful))
  | ScoringDriftGuard _ _ _ => Some (fun _ => true)
  | DefaultRule _ _ _ | RuleFromFunction _ _ _ _ _
  | ApplyModelResult _ _ _ _ _ | NMtoCRNH _ _ _ _ => None
  end.

(** The rule leaves a label [s] alone: it consults the current labels and
    its test rejects [s]. *)
Definition spares (s : string) (rule : ScoringRule) : bool :=
  match overwrites rule with
  | Some p => negb (p s)
  | None => false
  end.

(** The classes whose [score_notes] raises on no other ground than a
    NoteId listed twice: they have no assertion at all, or only the
    assertion that the updates hold no duplicate row. *)
Definition asserts_only_uniqueness (rule : ScoringRule) : bool :=
  match rule with
  | DefaultRule _ _ _ | FilterIncorrect _ _ _ _ _ _
  | FilterLowDiligence _ _ _ _ | FilterLargeFactor _ _ _ _
  | RejectLowIntercept _ _ _ _ | ApplyGroupModelResult _ _ _ _ _ _
  | InsufficientExplanation _ _ _ _ _ _ | NMtoCRNH _ _ _ _
  | ScoringDriftGuard _ _ _ | ApplyTopicModelResult _ _ _ _ _ => true
  | RuleFromFunction _ _ _ _ _ | ApplyModelResult _ _ _ _ _
  | FilterTagOutliers _ _ _ _ _ | NmrDueToMinStableCrhTime _ _ _
  | AddCRHInertia _ _ _ _ _ _ => false
  end.

(** ** Invariants of the accumulators *)

(** The accumulators of the loop stay within the notes of [noteStats], and
    the notes with a label are the notes with an active rule. *)
Definition within (st : Engine) : Prop :=
  (forall n, In n (label_ids (noteLabels st)) ->
             In n (ids (engineStats st)))
  /\ (forall n, In n (map fst (noteRules st))
                <-> In n (label_ids (noteLabels st)))
  /\ (forall n, In n (ids (rows (noteColumns st))) ->
                In n (ids (engineStats st))).

(** The tables of a reachable state have one row per note when
    [noteStats] has. *)
Definition one_row_per_note (st : Engine) : Prop :=
  NoDup (ids (engineStats st))
  /\ NoDup (label_ids (noteLabels st))
  /\ NoDup (ids (rows (noteColumns st))).

(** * Properties *)

(** ** Facts on the table operations *)

Local Open Scope list_scope.

Section TableFacts.

Lemma mem_In (n : Z) (l : list Z) : mem n l = true <-> In n l.
Proof.
  unfold mem. rewrite existsb_exists. split.
  - intros (x & Hx & E). apply Z.eqb_eq in E. now subst.
  - intros H. exists n. split; [assumption | apply Z.eqb_refl].
Qed.

Lemma mem_false (n : Z) (l : list Z) : mem n l = false <-> ~ In n l.
Proof.
  rewrite <- mem_In. destruct (mem n l); split; congruence.
Qed.

Lemma subsetb_spec (a b : list Z) :
  subsetb a b = true <-> (forall n, In n a -> In n b).
Proof.
  unfold subsetb. rewrite forallb_forall.
  split; intros H n Hn; apply mem_In; auto.
Qed.

Lemma set_eqb_spec (a b : list Z) :
  set_eqb a b = true <-> (forall n, In n a <-> In n b).
Proof.
  unfold set_eqb. rewrite andb_true_iff.
  change (subsetb a b = true /\ subsetb b a = true
          <-> (forall n, In n a <-> In n b)).
  rewrite !subsetb_spec. firstorder.
Qed.

Lemma nodupb_spec (l : list Z) : nodupb l = true <-> NoDup l.
Proof.
  induction l as [|x l IH]; simpl.
  - split; [constructor | reflexivity].
  - rewrite andb_true_iff, negb_true_iff, mem_false, IH.
    split.
    + intros [H1 H2]. now constructor.
    + intros H. inversion H. now split.
Qed.

Lemma merge_inner_In {A B} (ka : A -> Z) (kb : B -> Z) l r a b :
  In (a, b) (merge_inner ka kb l r) <-> In a l /\ In b r /\ ka a = kb b.
Proof.
  unfold merge_inner. rewrite in_flat_map. split.
  - intros (x & Hx & Hin). apply in_map_iff in Hin.
    destruct Hin as (y & E & Hy). inversion E; subst.
    apply filter_In in Hy. destruct Hy as [Hy Hk].
    apply Z.eqb_eq in Hk. auto.
  - intros (Ha & Hb & Hk). exists a. split; [assumption|].
    apply in_map. apply filter_In. split; [assumption|].
    now apply Z.eqb_eq.
Qed.

Lemma merge_keys_In (l r : list Z) (n : Z) :
  In n (map fst (merge_inner (fun n => n) (fun n => n) l r))
  <-> In n l /\ In n r.
Proof.
  rewrite in_map_iff. split.
  - intros ([a b] & E & H). simpl in E. subst a.
    apply merge_inner_In in H. destruct H as (H1 & H2 & H3).
    subst b. auto.
  - intros [H1 H2]. exists (n, n). split; [reflexivity|].
    apply merge_inner_In. auto.
Qed.

Lemma label_ids_where_In (p : string -> bool) (l : Labels) (n : Z) :
  In n (label_ids_where p l) <-> exists s, In (n, s) l /\ p s = true.
Proof.
  unfold label_ids_where, label_ids. rewrite in_map_iff. split.
  - intros ([m s] & E & H). simpl in E. subst m.
    apply filter_In in H. simpl in H. exists s. tauto.
  - intros (s & H1 & H2). exists (n, s). split; [reflexivity|].
    apply filter_In. auto.
Qed.

Lemma with_status_In (status : string) (l : list Z) n s :
  In (n, s) (with_status status l) <-> In n l /\ s = status.
Proof.
  unfold with_status. rewrite in_map_iff. split.
  - intros (x & E & H). inversion E; subst. auto.
  - intros [H ->]. now exists n.
Qed.

Lemma with_status_ids (status : string) (l : list Z) :
  label_ids (with_status status l) = l.
Proof.
  unfold label_ids, with_status. rewrite map_map. simpl. apply map_id.
Qed.

Lemma sort_keys_In (l : list Z) (k : Z) : In k (sort_keys l) <-> In k l.
Proof.
  unfold sort_keys. rewrite <- (nodup_In Z.eq_dec l k). split.
  - apply Permutation_in. apply Permutation_sym, ZSort.Permuted_sort.
  - apply Permutation_in, ZSort.Permuted_sort.
Qed.

Lemma groupby_list_In {A} (l : list (Z * A)) k vs :
  In (k, vs) (groupby_list l)
  <-> In k (map fst l) /\ vs = map snd (filter (fun x => fst x =? k) l).
Proof.
  unfold groupby_list. rewrite in_map_iff. split.
  - intros (k' & E & H). inversion E; subst.
    split; [now apply sort_keys_In | reflexivity].
  - intros [H ->]. exists k. split; [reflexivity|].
    now apply sort_keys_In.
Qed.

Lemma groupby_tail1_incl {A} (l : list (Z * A)) x :
  In x (groupby_tail1 l) -> In x l.
Proof.
  induction l as [|y l IH]; simpl; [tauto|].
  destruct (mem (fst y) (map fst l)); simpl; intuition.
Qed.

Lemma groupby_tail1_keys {A} (l : list (Z * A)) k :
  In k (map fst (groupby_tail1 l)) <-> In k (map fst l).
Proof.
  induction l as [|y l IH]; simpl; [tauto|].
  destruct (mem (fst y) (map fst l)) eqn:E; simpl.
  - rewrite IH. apply mem_In in E. split; [auto|].
    intros [<-|H]; auto.
  - rewrite IH. tauto.
Qed.

Lemma groupby_tail1_NoDup {A} (l : list (Z * A)) :
  NoDup (map fst (groupby_tail1 l)).
Proof.
  induction l as [|y l IH]; simpl; [constructor|].
  destruct (mem (fst y) (map fst l)) eqn:E; simpl; [assumption|].
  constructor; [|assumption].
  rewrite groupby_tail1_keys. now apply mem_false.
Qed.

Lemma groupby_tail1_app {A} (a b : list (Z * A)) :
  groupby_tail1 (groupby_tail1 a ++ b) = groupby_tail1 (a ++ b).
Proof.
  induction a as [|y a IH]; simpl; [reflexivity|].
  destruct (mem (fst y) (map fst a)) eqn:E.
  - rewrite IH.
    assert (mem (fst y) (map fst (a ++ b)) = true) as ->; [|reflexivity].
    apply mem_In. rewrite map_app, in_app_iff. left. now apply mem_In.
  - simpl. rewrite IH.
    assert (mem (fst y) (map fst (groupby_tail1 a ++ b))
            = mem (fst y) (map fst (a ++ b))) as ->; [|reflexivity].
    apply mem_false in E.
    destruct (mem (fst y) (map fst (a ++ b))) eqn:E2.
    + apply mem_In. apply mem_In in E2.
      rewrite map_app, in_app_iff in *.
      rewrite groupby_tail1_keys. assumption.
    + apply mem_false. apply mem_false in E2.
      rewrite map_app, in_app_iff in *.
      rewrite groupby_tail1_keys. assumption.
Qed.

End TableFacts.

(** ** The loop of the engine *)

Section EngineFacts.

Variable c : Constants.
Variable get_top_two_tags_for_note : TopTwoTags.

Local Abbreviation step := (apply_rule c get_top_two_tags_for_note).
Local Abbreviation run := (apply_rules c get_top_two_tags_for_note).
Local Abbreviation score := (score_notes c get_top_two_tags_for_note).

(** What a successful turn of the loop has done. *)
Lemma apply_rule_Ok (st st' : Engine) (rule : ScoringRule) :
  step st rule = Ok st' ->
  check_dependencies rule (ruleIDs st) = Ok tt
  /\ set_mem RuleID_eq_dec (get_rule_id rule) (ruleIDs st) = false
  /\ exists out,
      score rule (engineStats st) (noteLabels st) = Ok out
      /\ same_notes rule out = true
      /\ engineStats st' = statsAfter out
      /\ noteLabels st'
         = groupby_tail1 (labelsAfter out ++ noteStatusUpdates out)
      /\ noteRules st'
         = noteRules st
           ++ map (fun u => (fst u, get_name rule)) (noteStatusUpdates out)
      /\ ruleIDs st'
         = set_add RuleID_eq_dec (get_rule_id rule) (ruleIDs st)
      /\ match additionalColumns out with
         | Some ac =>
             only_key_shared (noteColumns st) ac = true
             /\ noteColumns st' = merge_outer (noteColumns st) ac
         | None => noteColumns st' = noteColumns st
         end.
Proof.
  unfold apply_rule, bind.
  destruct (check_dependencies rule (ruleIDs st)) as [[]|e];
    [|discriminate].
  destruct (set_mem RuleID_eq_dec (get_rule_id rule) (ruleIDs st));
    simpl; [discriminate|].
  destruct (score rule (engineStats st) (noteLabels st)) as [out|e];
    [|discriminate].
  destruct (same_notes rule out) eqn:Hs; [|discriminate].
  intros H. split; [reflexivity|]. split; [reflexivity|].
  exists out. split; [reflexivity|]. split; [assumption|].
  destruct (additionalColumns out) as [ac|].
  - destruct (only_key_shared (noteColumns st) ac); [|discriminate].
    inversion H; subst; simpl. repeat split; reflexivity.
  - inversion H; subst; simpl. repeat split; reflexivity.
Qed.

Lemma apply_rules_app (a b : list ScoringRule) (st : Engine) :
  run (a ++ b) st = bind (run a st) (run b).
Proof.
  revert st. induction a as [|r a IH]; intros st; simpl; [reflexivity|].
  destruct (step st r); simpl; [apply IH | reflexivity].
Qed.

Lemma apply_rules_cons (r : ScoringRule) (rs : list ScoringRule)
  (st st' : Engine) :
  run (r :: rs) st = Ok st' ->
  exists st1, step st r = Ok st1 /\ run rs st1 = Ok st'.
Proof.
  simpl. unfold bind.
  destruct (step st r) as [st1|e]; [|discriminate].
  intros H. now exists st1.
Qed.

(** [check_dependencies] raises exactly when a dependency is missing. *)
Lemma check_dependencies_raises (rule : ScoringRule) (priorRules : RuleSet) :
  check_dependencies rule priorRules = Raise AssertionError
  <-> exists d, In d (get_dependencies rule) /\ ~ In d priorRules.
Proof.
  unfold check_dependencies.
  destruct (set_diff RuleID_eq_dec (get_dependencies rule) priorRules)
    as [|d l] eqn:E.
  - split; [discriminate|]. intros (d & H1 & H2).
    assert (set_In d (set_diff RuleID_eq_dec (get_dependencies rule)
                               priorRules)) as H
        by now apply set_diff_iff.
    rewrite E in H. destruct H.
  - split; [|reflexivity]. intros _. exists d.
    apply (set_diff_iff RuleID_eq_dec). rewrite E. now left.
Qed.

Lemma check_dependencies_passes (rule : ScoringRule) (priorRules : RuleSet) :
  check_dependencies rule priorRules = Ok tt
  <-> forall d, In d (get_dependencies rule) -> In d priorRules.
Proof.
  split.
  - intros H d Hd.
    destruct (in_dec RuleID_eq_dec d priorRules) as [|Hn]; [assumption|].
    assert (check_dependencies rule priorRules = Raise AssertionError) as E
        by (apply check_dependencies_raises; now exists d).
    congruence.
  - intros H. unfold check_dependencies.
    destruct (set_diff RuleID_eq_dec (get_dependencies rule) priorRules)
      as [|d l] eqn:E; [reflexivity|].
    assert (set_In d (set_diff RuleID_eq_dec (get_dependencies rule)
                               priorRules)) as Hd
        by (rewrite E; now left).
    apply set_diff_iff in Hd. destruct Hd as [H1 H2].
    exfalso. apply H2, H, H1.
Qed.

(** After a prefix of the rules has run, [ruleIDs] holds the identifiers
    of exactly these rules, none of them twice. *)
Lemma ruleIDs_after (rules : list ScoringRule) (st st' : Engine) :
  run rules st = Ok st' ->
  (forall i, In i (ruleIDs st')
             <-> In i (ruleIDs st) \/ In i (map get_rule_id rules))
  /\ NoDup (map get_rule_id rules)
  /\ (forall i, In i (map get_rule_id rules) -> ~ In i (ruleIDs st)).
Proof.
  revert st. induction rules as [|r rs IH]; intros st H.
  - inversion H; subst. simpl.
    split; [tauto|]. split; [constructor | tauto].
  - apply apply_rules_cons in H. destruct H as (st1 & H1 & H2).
    apply apply_rule_Ok in H1.
    destruct H1 as (_ & Hm & out & _ & _ & _ & _ & _ & Hids & _).
    destruct (IH _ H2) as (IH1 & IH2 & IH3).
    assert (forall i, In i (ruleIDs st1)
                      <-> i = get_rule_id r \/ In i (ruleIDs st)) as Hadd.
    { intros i. rewrite Hids. apply set_add_iff. }
    assert (~ In (get_rule_id r) (ruleIDs st)) as Hfresh.
    { intros Hin. apply (set_mem_complete1 RuleID_eq_dec) in Hm.
      now apply Hm. }
    simpl. split; [|split].
    + intros i. rewrite IH1, Hadd. intuition.
    + constructor; [|assumption].
      intros Hin. apply (IH3 _ Hin). apply Hadd. now left.
    + intros i [<-|Hin]; [assumption|].
      intros Hi. apply (IH3 _ Hin). apply Hadd. now right.
Qed.

End EngineFacts.

(** ** What the rules do to the tables they are passed *)

Ltac unfold_rules H :=
  unfold score_notes, DefaultRule.score_notes, RuleFromFunction.score_notes,
    ApplyModelResult.score_notes, FilterTagOutliers.score_notes,
    FilterIncorrect.score_notes, FilterLowDiligence.score_notes,
    FilterLargeFactor.score_notes, NmrDueToMinStableCrhTime.score_notes,
    RejectLowIntercept.score_notes, ApplyGroupModelResult.score_notes,
    InsufficientExplanation.score_notes, NMtoCRNH.score_notes,
    AddCRHInertia.score_notes, ScoringDriftGuard.score_notes,
    ApplyTopicModelResult.score_notes, bind in H.

Ltac returned H :=
  repeat match type of H with
    | (match ?x with Ok _ => _ | Raise _ => _ end) = Ok _ =>
        let E := fresh "E" in destruct x eqn:E; [|discriminate H]
    | (if ?b then _ else _) = Ok _ =>
        let E := fresh "E" in destruct b eqn:E; [|discriminate H]
    end;
  inversion H; subst; clear H; simpl.

Section Frame.

Variable c : Constants.
Variable get_top_two_tags_for_note : TopTwoTags.

Lemma lookup_assign_other (col col' : string) (v : value) l :
  col <> col' -> lookup col (assign col' v l) = lookup col l.
Proof.
  intros Hne. induction l as [|[k x] l IH]; simpl.
  - destruct (String.eqb_spec col' col); [congruence | reflexivity].
  - destruct (String.eqb_spec k col') as [->|Hk]; simpl.
    + destruct (String.eqb_spec col' col); [congruence | reflexivity].
    + destruct (String.eqb_spec k col); [reflexivity | apply IH].
Qed.

Lemma get_set_cell_other (col col' : string) (v : value) (r : Row) :
  col <> col' -> get col (set_cell col' v r) = get col r.
Proof.
  intros H. unfold get, set_cell. simpl. now apply lookup_assign_other.
Qed.

Lemma set_top_tags_ids (topTags : list Row) (ns : NoteStats) :
  ids (InsufficientExplanation.set_top_tags topTags ns) = ids ns.
Proof.
  unfold ids, InsufficientExplanation.set_top_tags. rewrite map_map.
  apply map_ext. intros r.
  now destruct (InsufficientExplanation.tags_of topTags (noteId r)).
Qed.

Lemma set_all_top_tags_ids (topTags : list Row) (ns : NoteStats) :
  ids (InsufficientExplanation.set_all_top_tags topTags ns) = ids ns.
Proof.
  unfold ids, InsufficientExplanation.set_all_top_tags. rewrite map_map.
  apply map_ext. intros r.
  now destruct (InsufficientExplanation.tags_of topTags (noteId r)).
Qed.

Lemma set_top_tags_get (topTags : list Row) (ns : NoteStats) col :
  col <> firstTagKey -> col <> secondTagKey ->
  map (get col) (InsufficientExplanation.set_top_tags topTags ns)
  = map (get col) ns.
Proof.
  intros H1 H2. unfold InsufficientExplanation.set_top_tags.
  rewrite map_map. apply map_ext. intros r.
  destruct (InsufficientExplanation.tags_of topTags (noteId r));
    [|reflexivity].
  now rewrite !get_set_cell_other.
Qed.

Lemma set_all_top_tags_get (topTags : list Row) (ns : NoteStats) col :
  col <> firstTagKey -> col <> secondTagKey ->
  map (get col) (InsufficientExplanation.set_all_top_tags topTags ns)
  = map (get col) ns.
Proof.
  intros H1 H2. unfold InsufficientExplanation.set_all_top_tags.
  rewrite map_map. apply map_ext. intros r.
  destruct (InsufficientExplanation.tags_of topTags (noteId r));
    now rewrite !get_set_cell_other.
Qed.

Lemma score_notes_labels rule ns labels out :
  score_notes c get_top_two_tags_for_note rule ns labels = Ok out ->
  labelsAfter out = labels.
Proof.
  intros H. destruct rule; unfold_rules H; returned H; reflexivity.
Qed.

Lemma score_notes_stats rule ns labels out :
  score_notes c get_top_two_tags_for_note rule ns labels = Ok out ->
  sets_top_tags rule = false -> statsAfter out = ns.
Proof.
  intros H Hr. destruct rule; try discriminate Hr;
    unfold_rules H; returned H; reflexivity.
Qed.

Lemma score_notes_ids rule ns labels out :
  score_notes c get_top_two_tags_for_note rule ns labels = Ok out ->
  ids (statsAfter out) = ids ns.
Proof.
  intros H. destruct (sets_top_tags rule) eqn:Hr.
  - destruct rule; try discriminate Hr. unfold_rules H. returned H.
    destruct tagsConsidered.
    + apply set_all_top_tags_ids.
    + now rewrite !set_top_tags_ids.
  - now rewrite (score_notes_stats _ _ _ _ H Hr).
Qed.

Lemma score_notes_columns rule ns labels out col :
  score_notes c get_top_two_tags_for_note rule ns labels = Ok out ->
  col <> firstTagKey -> col <> secondTagKey ->
  map (get col) (statsAfter out) = map (get col) ns.
Proof.
  intros H H1 H2. destruct (sets_top_tags rule) eqn:Hr.
  - destruct rule; try discriminate Hr. unfold_rules H. returned H.
    destruct tagsConsidered.
    + now apply set_all_top_tags_get.
    + now rewrite !set_top_tags_get.
  - now rewrite (score_notes_stats _ _ _ _ H Hr).
Qed.

End Frame.

(** ** A run of the engine *)

Section Run.

Variable c : Constants.
Variable get_top_two_tags_for_note : TopTwoTags.

Local Abbreviation step := (apply_rule c get_top_two_tags_for_note).
Local Abbreviation run := (apply_rules c get_top_two_tags_for_note).
Local Abbreviation score := (score_notes c get_top_two_tags_for_note).
Local Abbreviation trace := (emitted c get_top_two_tags_for_note).

Lemma groupby_tail1_id {A} (l : list (Z * A)) :
  NoDup (map fst l) -> groupby_tail1 l = l.
Proof.
  induction l as [|x l IH]; simpl; [reflexivity|].
  intros H. inversion H as [|? ? Hn Hd]; subst.
  apply mem_false in Hn. rewrite Hn. now rewrite IH.
Qed.

Lemma emitted_cons (r : ScoringRule) rs st st1 out :
  step st r = Ok st1 ->
  score r (engineStats st) (noteLabels st) = Ok out ->
  trace (r :: rs) st = (r, noteStatusUpdates out) :: trace rs st1.
Proof. intros H1 H2. simpl. now rewrite H1, H2. Qed.

(** The accumulators after a run, in terms of what the rules emitted. *)
Lemma run_trace (rules : list ScoringRule) (st st' : Engine) :
  run rules st = Ok st' ->
  NoDup (map fst (noteLabels st)) ->
  map fst (trace rules st) = rules
  /\ noteRules st' = noteRules st ++ attributions (trace rules st)
  /\ noteLabels st'
     = groupby_tail1
         (noteLabels st ++ List.concat (map snd (trace rules st)))
  /\ ids (engineStats st') = ids (engineStats st).
Proof.
  revert st. induction rules as [|r rs IH]; intros st H Hnd.
  - inversion H; subst. simpl. rewrite !app_nil_r.
    now rewrite groupby_tail1_id.
  - apply apply_rules_cons in H. destruct H as (st1 & H1 & H2).
    destruct (apply_rule_Ok _ _ _ _ _ H1)
      as (_ & _ & out & Hs & _ & Hst & Hl & Hr & _ & _).
    rewrite (emitted_cons _ rs _ _ _ H1 Hs).
    rewrite (score_notes_labels _ _ _ _ _ _ Hs) in Hl.
    assert (NoDup (map fst (noteLabels st1))) as Hnd1
        by (rewrite Hl; apply groupby_tail1_NoDup).
    destruct (IH _ H2 Hnd1) as (I1 & I2 & I3 & I4).
    simpl. split; [now rewrite I1|]. split; [|split].
    + rewrite I2, Hr. unfold attributions. simpl.
      now rewrite <- app_assoc.
    + rewrite I3, Hl, groupby_tail1_app. now rewrite <- app_assoc.
    + rewrite I4, Hst. apply (score_notes_ids _ _ _ _ _ _ Hs).
Qed.

Lemma finalize_Ok (dec : option string) (st : Engine) out :
  finalize dec st = Ok out ->
  set_eqb (ids (engineStats st)) (label_ids (noteLabels st)) = true
  /\ set_eqb (ids (engineStats st))
             (map fst (condense dec (noteRules st))) = true
  /\ subsetb (ids (rows (noteColumns st))) (ids (engineStats st)) = true
  /\ List.length out = List.length (engineStats st)
  /\ out
     = map scored_note
         (flat_map
            (fun x =>
               map (fun e => (x, e))
                   (rows_for (noteId (fst (fst x))) (rows (noteColumns st))))
            (merge_inner (fun x => noteId (fst x)) fst
               (merge_inner noteId fst (engineStats st) (noteLabels st))
               (condense dec (noteRules st)))).
Proof.
  unfold finalize. intros H.
  destruct (set_eqb (ids (engineStats st)) (label_ids (noteLabels st)));
    [|discriminate].
  destruct (set_eqb (ids (engineStats st))
              (map fst (condense dec (noteRules st)))); [|discriminate].
  destruct (subsetb (ids (rows (noteColumns st))) (ids (engineStats st)));
    [|discriminate].
  match type of H with
  | (if ?b then _ else _) = _ => destruct b eqn:E; [|discriminate]
  end.
  inversion H; subst. repeat split; try reflexivity.
  rewrite length_map. now apply Nat.eqb_eq.
Qed.

Lemma rows_for_nonempty (k : Z) (l : list Row) :
  exists e, In e (rows_for k l).
Proof.
  unfold rows_for.
  destruct (filter (fun r => noteId r =? k) l) as [|m ms].
  - eexists. now left.
  - exists m. now left.
Qed.

(** Every row returned comes from a row of [noteStats], the label of its
    note and the condensed rules of its note. *)
Lemma finalize_row (dec : option string) (st : Engine) out row :
  finalize dec st = Ok out -> In row out ->
  (exists r, In r (engineStats st)
             /\ sNoteId row = noteId r /\ sCells row = cells r)
  /\ In (sNoteId row, sStatus row) (noteLabels st)
  /\ In (sNoteId row, (sDecidedBy row, sRules row))
        (condense dec (noteRules st))
  /\ currentlyRatedHelpfulBool row
     = String.eqb (sStatus row) currentlyRatedHelpful
  /\ currentlyRatedNotHelpfulBool row
     = String.eqb (sStatus row) currentlyRatedNotHelpful
  /\ awaitingMoreRatingsBool row
     = String.eqb (sStatus row) needsMoreRatings.
Proof.
  intros H Hin. apply finalize_Ok in H.
  destruct H as (_ & _ & _ & _ & ->).
  apply in_map_iff in Hin. destruct Hin as ([[[r l] g] e] & <- & Hy).
  apply in_flat_map in Hy. destruct Hy as ([[r' l'] g'] & Hx & He).
  apply in_map_iff in He. destruct He as (e' & E & _).
  inversion E; subst; clear E.
  apply merge_inner_In in Hx. simpl in Hx. destruct Hx as (Hx & Hg & Ek).
  apply merge_inner_In in Hx. destruct Hx as (Hr & Hl & Ek').
  unfold scored_note. simpl.
  split; [now exists r|].
  destruct l as [n s], g as [m [d rs]]; simpl in *. subst.
  repeat split; assumption || reflexivity.
Qed.

(** Every row of [noteStats] has a row in the table returned. *)
Lemma finalize_cover (dec : option string) (st : Engine) out r :
  finalize dec st = Ok out -> In r (engineStats st) ->
  exists row, In row out /\ sNoteId row = noteId r.
Proof.
  intros H Hr. apply finalize_Ok in H.
  destruct H as (H1 & H2 & _ & _ & ->).
  rewrite set_eqb_spec in H1, H2.
  assert (In (noteId r) (ids (engineStats st))) as Hid
      by (unfold ids; now apply in_map).
  pose proof (proj1 (H1 _) Hid) as Hl.
  apply in_map_iff in Hl. destruct Hl as (l & El & Hl).
  pose proof (proj1 (H2 _) Hid) as Hg.
  apply in_map_iff in Hg. destruct Hg as (g & Eg & Hg).
  destruct (rows_for_nonempty (noteId r) (rows (noteColumns st)))
    as (e & He).
  exists (scored_note (r, l, g, e)). split; [|reflexivity].
  apply in_map. apply in_flat_map. exists (r, l, g). split.
  - apply merge_inner_In. simpl. split; [|split; [assumption|]].
    + apply merge_inner_In. auto.
    + now rewrite Eg.
  - simpl. now apply in_map.
Qed.

End Run.

(** ** Labels and attribution in terms of the emitted updates *)

Section Attribution.

Variable c : Constants.
Variable get_top_two_tags_for_note : TopTwoTags.

Local Abbreviation run := (apply_rules c get_top_two_tags_for_note).
Local Abbreviation trace := (emitted c get_top_two_tags_for_note).

Lemma apply_scoring_rules_Ok noteStats rules dec out :
  apply_scoring_rules c get_top_two_tags_for_note noteStats rules dec
  = Ok out ->
  exists st, run rules (init_engine noteStats) = Ok st
             /\ finalize dec st = Ok out.
Proof.
  unfold apply_scoring_rules, bind.
  destruct (run rules (init_engine noteStats)) as [st|e]; [|discriminate].
  intros H. now exists st.
Qed.

(** The rows that survive [tail(1)] on two tables laid end to end. *)
Lemma groupby_tail1_app_In {A} (a b : list (Z * A)) (x : Z * A) :
  In x (groupby_tail1 (a ++ b))
  <-> In x (groupby_tail1 b)
      \/ (In x (groupby_tail1 a) /\ ~ In (fst x) (map fst b)).
Proof.
  induction a as [|y a IH]; simpl; [tauto|].
  destruct (mem (fst y) (map fst (a ++ b))) eqn:E.
  - apply mem_In in E. rewrite map_app, in_app_iff in E.
    destruct (mem (fst y) (map fst a)) eqn:E2.
    + apply IH.
    + apply mem_false in E2. destruct E as [E|E]; [contradiction|].
      rewrite IH. simpl. split.
      * tauto.
      * intros [H|[[->|H] Hn]]; tauto.
  - apply mem_false in E. rewrite map_app, in_app_iff in E.
    assert (mem (fst y) (map fst a) = false) as ->
        by (apply mem_false; tauto).
    simpl. rewrite IH. split.
    + intros [->|[H|H]]; tauto.
    + tauto.
Qed.

(** The label that survives for a note is one of the rows of the last
    rule that emitted the note. *)
Lemma last_emission (t : list (ScoringRule * Labels)) (n : Z) (s : string) :
  In (n, s) (groupby_tail1 (List.concat (map snd t))) ->
  exists t1 r upd t2,
    t = t1 ++ (r, upd) :: t2
    /\ In (n, s) upd
    /\ forall p, In p t2 -> ~ In n (label_ids (snd p)).
Proof.
  induction t as [|[r upd] t IH]; simpl; [tauto|].
  intros H. apply groupby_tail1_app_In in H. destruct H as [H|[H Hn]].
  - destruct (IH H) as (t1 & r' & upd' & t2 & -> & H1 & H2).
    now exists ((r, upd) :: t1), r', upd', t2.
  - exists [], r, upd, t. split; [reflexivity|].
    split; [now apply groupby_tail1_incl in H|].
    intros p Hp Hin. apply Hn. simpl.
    unfold label_ids in Hin. apply in_map_iff in Hin.
    destruct Hin as (u & <- & Hu). apply in_map.
    apply in_concat. exists (snd p). split; [now apply in_map | assumption].
Qed.

Lemma names_of_update (upd : Labels) (n : Z) (nm : string) :
  NoDup (label_ids upd) ->
  map snd (filter (fun x => fst x =? n) (map (fun u => (fst u, nm)) upd))
  = if mem n (label_ids upd) then [nm] else [].
Proof.
  induction upd as [|u upd IH]; simpl; [reflexivity|].
  intros H. inversion H as [|? ? Hn Hd]; subst.
  rewrite (Z.eqb_sym n (fst u)).
  destruct (Z.eqb_spec (fst u) n) as [E|Hne]; simpl.
  - rewrite (IH Hd). rewrite E in Hn. apply mem_false in Hn.
    now rewrite Hn.
  - apply (IH Hd).
Qed.

(** The rule names collected for a note are those of the rules that
    emitted the note, in the order of application. *)
Lemma names_of_note (t : list (ScoringRule * Labels)) (n : Z) :
  (forall p, In p t -> NoDup (label_ids (snd p))) ->
  map snd (filter (fun x => fst x =? n) (attributions t))
  = map (fun p => get_name (fst p)) (acting_rules n t).
Proof.
  induction t as [|p t IH]; intros H; [reflexivity|].
  unfold attributions, acting_rules in *. simpl.
  rewrite filter_app, map_app.
  rewrite names_of_update by (apply H; now left).
  rewrite IH by (intros q Hq; apply H; now right).
  unfold Labels.
  match goal with |- context [mem n ?l] => destruct (mem n l) end;
    reflexivity.
Qed.

Lemma acting_rules_last (t1 t2 : list (ScoringRule * Labels)) r upd n :
  In n (label_ids upd) ->
  (forall p, In p t2 -> ~ In n (label_ids (snd p))) ->
  acting_rules n (t1 ++ (r, upd) :: t2) = acting_rules n t1 ++ [(r, upd)].
Proof.
  intros H1 H2. unfold acting_rules. rewrite filter_app. simpl.
  apply mem_In in H1. rewrite H1. f_equal. f_equal.
  induction t2 as [|p t2 IH]; simpl; [reflexivity|].
  assert (mem n (label_ids (snd p)) = false) as ->
      by (apply mem_false, H2; now left).
  apply IH. intros q Hq. apply H2. now right.
Qed.

(** *** Tokens of the rule column *)

Lemma split_on_free (sep : ascii) (x : string) :
  free_of sep x = true -> split_on sep x = [x].
Proof.
  induction x as [|a x IH]; simpl; [reflexivity|].
  rewrite andb_true_iff, negb_true_iff. intros [-> H].
  now rewrite (IH H).
Qed.

Lemma split_on_app (sep : ascii) (x t : string) :
  free_of sep x = true ->
  split_on sep (x ++ String sep t)%string = x :: split_on sep t.
Proof.
  induction x as [|a x IH]; simpl.
  - intros _. now rewrite Ascii.eqb_refl.
  - rewrite andb_true_iff, negb_true_iff. intros [-> H].
    now rewrite (IH H).
Qed.

(** Splitting a joined list of separator-free names gives the names
    back. *)
Lemma split_on_concat (sep : ascii) (names : list string) :
  names <> [] ->
  (forall x, In x names -> free_of sep x = true) ->
  split_on sep (String.concat (String sep EmptyString) names) = names.
Proof.
  induction names as [|x names IH]; [congruence|].
  intros _ H. destruct names as [|y names].
  - simpl. apply split_on_free. apply H. now left.
  - change (String.concat (String sep EmptyString) (x :: y :: names))
      with (x ++ String sep
                   (String.concat (String sep EmptyString) (y :: names)))%string.
    rewrite split_on_app by (apply H; now left).
    f_equal. apply IH; [discriminate|].
    intros z Hz. apply H. now right.
Qed.

Lemma get_name_free_of_comma (rule : ScoringRule) :
  free_of "," (get_name rule) = true.
Proof.
  unfold get_name. now destruct (get_rule_id rule).
Qed.

Lemma get_name_nonempty (rule : ScoringRule) :
  get_name rule <> EmptyString.
Proof.
  unfold get_name. now destruct (get_rule_id rule).
Qed.

Lemma concat_nonempty (sep x : string) (l : list string) :
  x <> EmptyString -> String.concat sep (x :: l) <> EmptyString.
Proof.
  intros H. destruct x as [|a x]; [congruence|].
  destruct l; simpl; discriminate.
Qed.

End Attribution.

(** ** The rule engine: statuses, attribution, coverage and failures *)

Section EngineProperties.

Variable c : Constants.
Variable get_top_two_tags_for_note : TopTwoTags.

Local Abbreviation step := (apply_rule c get_top_two_tags_for_note).
Local Abbreviation run := (apply_rules c get_top_two_tags_for_note).
Local Abbreviation score := (score_notes c get_top_two_tags_for_note).
Local Abbreviation trace := (emitted c get_top_two_tags_for_note).
Local Abbreviation engine :=
  (apply_scoring_rules c get_top_two_tags_for_note).

(** The accumulators at the end of a run that returned. *)
Lemma engine_Ok noteStats rules dec out :
  engine noteStats rules dec = Ok out ->
  exists st,
    run rules (init_engine noteStats) = Ok st
    /\ finalize dec st = Ok out
    /\ map fst (trace rules (init_engine noteStats)) = rules
    /\ noteRules st = attributions (trace rules (init_engine noteStats))
    /\ noteLabels st
       = groupby_tail1
           (List.concat (map snd (trace rules (init_engine noteStats))))
    /\ ids (engineStats st) = ids noteStats.
Proof.
  intros H. apply apply_scoring_rules_Ok in H.
  destruct H as (st & Hrun & Hfin). exists st.
  destruct (run_trace _ _ _ _ _ Hrun (NoDup_nil _)) as (H1 & H2 & H3 & H4).
  repeat split; assumption.
Qed.

(** C1 (as amended).  The engine hands out, for every note, the status that
    the last rule emitting the note emitted for it, as it was emitted: it
    rewrites nothing, [FIRM_REJECT] included.  Hence a returned table holds
    only CRH, CRNH and NMR whenever the rules of the run emitted only
    these. *)
Theorem output_status_is_emitted noteStats rules dec out row :
  engine noteStats rules dec = Ok out ->
  In row out ->
  (exists earlier rule updates later,
      trace rules (init_engine noteStats)
      = earlier ++ (rule, updates) :: later
      /\ In rule rules
      /\ In (sNoteId row, sStatus row) updates
      /\ forall p, In p later -> ~ In (sNoteId row) (label_ids (snd p)))
  /\ ((forall p u, In p (trace rules (init_engine noteStats)) ->
                   In u (snd p) ->
                   In (snd u) [currentlyRatedHelpful;
                               currentlyRatedNotHelpful;
                               needsMoreRatings]) ->
      In (sStatus row) [currentlyRatedHelpful; currentlyRatedNotHelpful;
                        needsMoreRatings]).
Proof.
  intros H Hrow. destruct (engine_Ok _ _ _ _ H)
    as (st & _ & Hfin & Ht & _ & Hl & _).
  destruct (finalize_row _ _ _ _ Hfin Hrow) as (_ & Hs & _).
  rewrite Hl in Hs. apply last_emission in Hs.
  destruct Hs as (t1 & r & upd & t2 & Et & Hin & Hlast).
  assert (In (r, upd) (trace rules (init_engine noteStats))) as Hp
      by (rewrite Et; apply in_elt).
  split.
  - exists t1, r, upd, t2. split; [assumption|]. split; [|now split].
    rewrite <- Ht. now apply (in_map fst) in Hp.
  - intros Hall. apply (Hall _ _ Hp Hin).
Qed.

(** In a run that returned, let the rules that emitted a status update for
    the note of an output row be taken in the order of application, every
    rule emitting a note at most once.  Then there is a last one, [Rk]; the
    status of the row is the status [Rk] emitted; the rule column is the
    comma-join of the display names of exactly these rules in that order;
    the decided-by column, when requested, is the display name of [Rk],
    which is also the last token of the rule column. *)
Lemma last_acting_rule_of_trace noteStats rules dec out row :
  engine noteStats rules dec = Ok out ->
  (forall p, In p (trace rules (init_engine noteStats)) ->
             NoDup (label_ids (snd p))) ->
  In row out ->
  map fst (trace rules (init_engine noteStats)) = rules
  /\ exists before Rk updates,
      acting_rules (sNoteId row) (trace rules (init_engine noteStats))
      = before ++ [(Rk, updates)]
      /\ In (sNoteId row, sStatus row) updates
      /\ sRules row
         = String.concat ","
             (map (fun p => get_name (fst p)) (before ++ [(Rk, updates)]))
      /\ sDecidedBy row
         = (if requested dec then Some (get_name Rk) else None)
      /\ last (split_on "," (sRules row)) EmptyString = get_name Rk.
Proof.
  intros H Hnd Hrow. destruct (engine_Ok _ _ _ _ H)
    as (st & _ & Hfin & Ht & Hr & Hl & _).
  split; [assumption|].
  destruct (finalize_row _ _ _ _ Hfin Hrow) as (_ & Hs & Hg & _).
  rewrite Hl in Hs. apply last_emission in Hs.
  destruct Hs as (t1 & r & upd & t2 & Et & Hin & Hlast).
  assert (In (sNoteId row) (label_ids upd)) as Hid
      by (apply (in_map fst) in Hin; exact Hin).
  exists (acting_rules (sNoteId row) t1), r, upd.
  pose proof (acting_rules_last t1 t2 r upd _ Hid Hlast) as Ea.
  rewrite <- Et in Ea. split; [assumption|]. split; [assumption|].
  unfold condense in Hg. apply in_map_iff in Hg.
  destruct Hg as ([k names] & E & Hg). simpl in E.
  inversion E as [[Ek Ed Es]]. subst k. clear E.
  apply groupby_list_In in Hg. destruct Hg as [_ En].
  rewrite Hr, (names_of_note _ _ Hnd), Ea in En.
  assert (last names EmptyString = get_name r) as Elast.
  { rewrite En, map_app. simpl. apply last_last. }
  split; [now rewrite En|]. split.
  - rewrite Elast. reflexivity.
  - rewrite <- Elast. f_equal.
    change "," with (String "," EmptyString).
    apply split_on_concat.
    + rewrite En, map_app. intros E. apply app_eq_nil in E.
      destruct E as [_ E]. discriminate E.
    + intros x Hx. rewrite En in Hx. apply in_map_iff in Hx.
      destruct Hx as (p & <- & _). apply get_name_free_of_comma.
Qed.

(** C3.  The table returned has the notes of the input [noteStats] and no
    others, one row for every row of the input; every note of it was
    emitted by a rule of the run, and its rule column is not empty.  A
    default rule, the first rule of a legal rules list, emits a status for
    every input note. *)
Theorem coverage noteStats rules dec out :
  engine noteStats rules dec = Ok out ->
  (forall n, In n (map sNoteId out) <-> In n (ids noteStats))
  /\ List.length out = List.length noteStats
  /\ (forall row, In row out ->
        acting_rules (sNoteId row) (trace rules (init_engine noteStats))
        <> []
        /\ sRules row <> EmptyString)
  /\ (forall status currentLabels,
        exists first,
          DefaultRule.score_notes status noteStats currentLabels = Ok first
          /\ label_ids (noteStatusUpdates first) = ids noteStats).
Proof.
  intros H. destruct (engine_Ok _ _ _ _ H)
    as (st & _ & Hfin & Ht & Hr & Hl & Hids).
  split; [|split; [|split]];
    [| | |intros status currentLabels; eexists; split; [reflexivity|];
          apply with_status_ids].
  - intros n. rewrite <- Hids. split.
    + intros Hn. apply in_map_iff in Hn. destruct Hn as (row & <- & Hrow).
      destruct (finalize_row _ _ _ _ Hfin Hrow) as ((r & Hin & -> & _) & _).
      unfold ids. now apply in_map.
    + intros Hn. unfold ids in Hn. apply in_map_iff in Hn.
      destruct Hn as (r & <- & Hin).
      destruct (finalize_cover _ _ _ _ Hfin Hin) as (row & Hrow & <-).
      now apply in_map.
  - destruct (finalize_Ok _ _ _ Hfin) as (_ & _ & _ & -> & _).
    unfold ids in Hids. rewrite <- (length_map noteId), Hids.
    apply length_map.
  - intros row Hrow.
    destruct (finalize_row _ _ _ _ Hfin Hrow) as (_ & Hs & Hg & _).
    split.
    + rewrite Hl in Hs. apply last_emission in Hs.
      destruct Hs as (t1 & r & upd & t2 & Et & Hin & Hlast).
      assert (In (sNoteId row) (label_ids upd)) as Hid
          by (apply (in_map fst) in Hin; exact Hin).
      rewrite Et, (acting_rules_last t1 t2 r upd _ Hid Hlast).
      intros E. apply app_eq_nil in E. destruct E as [_ E].
      discriminate E.
    + unfold condense in Hg. apply in_map_iff in Hg.
      destruct Hg as ([k names] & E & Hg). simpl in E.
      inversion E as [[Ek Ed Es]]. subst k. clear E.
      apply groupby_list_In in Hg. destruct Hg as [Hk En].
      rewrite Hr in Hk, En. unfold attributions in Hk.
      apply in_map_iff in Hk. destruct Hk as ([n nm] & En' & Hk).
      simpl in En'. subst n.
      assert (In nm names) as Hnm.
      { rewrite En. apply (in_map snd (filter _ _) (sNoteId row, nm)).
        apply filter_In. split; [assumption | apply Z.eqb_refl]. }
      assert (forall x, In x names -> x <> EmptyString) as Hne.
      { intros x Hx. subst names. apply in_map_iff in Hx.
        destruct Hx as ([m y] & <- & Hy). apply filter_In in Hy.
        destruct Hy as [Hy _]. apply in_flat_map in Hy.
        destruct Hy as (p & _ & Hy). apply in_map_iff in Hy.
        destruct Hy as (u & Eu & _). inversion Eu; subst. simpl.
        apply get_name_nonempty. }
      destruct names as [|x names]; [destruct Hnm|].
      apply concat_nonempty. apply Hne. now left.
Qed.

End EngineProperties.

Section EngineFailures.

Variable c : Constants.
Variable get_top_two_tags_for_note : TopTwoTags.

Local Abbreviation step := (apply_rule c get_top_two_tags_for_note).
Local Abbreviation run := (apply_rules c get_top_two_tags_for_note).
Local Abbreviation score := (score_notes c get_top_two_tags_for_note).
Local Abbreviation engine :=
  (apply_scoring_rules c get_top_two_tags_for_note).

Lemma run_split (prefix suffix : list ScoringRule) rule st st' :
  run (prefix ++ rule :: suffix) st = Ok st' ->
  exists st1 st2,
    run prefix st = Ok st1 /\ step st1 rule = Ok st2
    /\ run suffix st2 = Ok st'.
Proof.
  rewrite apply_rules_app. unfold bind.
  destruct (run prefix st) as [st1|e]; [|discriminate].
  intros H. apply apply_rules_cons in H. destruct H as (st2 & H1 & H2).
  now exists st1, st2.
Qed.

Lemma ruleIDs_of_prefix (prefix : list ScoringRule) noteStats st :
  run prefix (init_engine noteStats) = Ok st ->
  forall i, In i (ruleIDs st) <-> In i (map get_rule_id prefix).
Proof.
  intros H i. destruct (ruleIDs_after _ _ _ _ _ H) as (H1 & _).
  rewrite H1. simpl. tauto.
Qed.

(** C8.  [check_dependencies] raises exactly when a declared dependency is
    missing from [priorRules]; the engine passes it the identifiers of
    exactly the rules that ran before the rule, and a turn of the loop
    raises when a dependency is missing or the identifier was seen before;
    hence in a run that returned no identifier repeats and the dependencies
    of every rule are identifiers of rules strictly before it. *)
Theorem dependencies_enforced noteStats rules dec :
  (forall rule priorRules,
      check_dependencies rule priorRules = Raise AssertionError
      <-> exists d, In d (get_dependencies rule) /\ ~ In d priorRules)
  /\ (forall prefix st,
         run prefix (init_engine noteStats) = Ok st ->
         forall i, In i (ruleIDs st) <-> In i (map get_rule_id prefix))
  /\ (forall st rule,
         (exists d, In d (get_dependencies rule) /\ ~ In d (ruleIDs st))
         \/ In (get_rule_id rule) (ruleIDs st) ->
         step st rule = Raise AssertionError)
  /\ (forall out,
         engine noteStats rules dec = Ok out ->
         NoDup (map get_rule_id rules)
         /\ forall prefix rule suffix,
             rules = prefix ++ rule :: suffix ->
             forall d, In d (get_dependencies rule) ->
                       In d (map get_rule_id prefix)).
Proof.
  split; [apply check_dependencies_raises|].
  split; [intros prefix st H; now apply ruleIDs_of_prefix with noteStats|].
  split.
  - intros st rule H. unfold apply_rule, bind.
    destruct (check_dependencies rule (ruleIDs st)) as [[]|e] eqn:E.
    + destruct H as [H|H].
      * apply check_dependencies_raises in H. congruence.
      * apply (set_mem_correct2 RuleID_eq_dec) in H. now rewrite H.
    + unfold check_dependencies in E.
      destruct (set_diff _ _ _); now inversion E.
  - intros out H. apply apply_scoring_rules_Ok in H.
    destruct H as (st & Hrun & _). split.
    + now destruct (ruleIDs_after _ _ _ _ _ Hrun) as (_ & H & _).
    + intros prefix rule suffix -> d Hd.
      apply run_split in Hrun. destruct Hrun as (st1 & st2 & H1 & H2 & _).
      apply (ruleIDs_of_prefix _ _ _ H1).
      apply apply_rule_Ok in H2. destruct H2 as (H2 & _).
      now apply (check_dependencies_passes rule (ruleIDs st1)).
Qed.

Lemma merge_outer_columns (a b : DataFrame) :
  columns (merge_outer a b) = columns a ++ columns b.
Proof. reflexivity. Qed.

(** The columns contributed so far stay in [noteColumns]. *)
Lemma step_columns st rule st' :
  step st rule = Ok st' ->
  (forall col, In col (columns (noteColumns st)) ->
               In col (columns (noteColumns st')))
  /\ forall out ac,
      score rule (engineStats st) (noteLabels st) = Ok out ->
      additionalColumns out = Some ac ->
      forall col, In col (columns ac) -> In col (columns (noteColumns st')).
Proof.
  intros H. apply apply_rule_Ok in H.
  destruct H as (_ & _ & out & Hs & _ & _ & _ & _ & _ & Hc).
  split.
  - intros col Hin. destruct (additionalColumns out) as [ac|].
    + destruct Hc as [_ ->]. rewrite merge_outer_columns.
      apply in_or_app. now left.
    + now rewrite Hc.
  - intros out' ac Hs' Hac col Hin. rewrite Hs in Hs'.
    inversion Hs'; subst out'. rewrite Hac in Hc.
    destruct Hc as [_ ->]. rewrite merge_outer_columns.
    apply in_or_app. now right.
Qed.

Lemma run_columns rules st st' :
  run rules st = Ok st' ->
  forall col, In col (columns (noteColumns st)) ->
              In col (columns (noteColumns st')).
Proof.
  revert st. induction rules as [|r rs IH]; intros st H col Hin.
  - now inversion H; subst.
  - apply apply_rules_cons in H. destruct H as (st1 & H1 & H2).
    apply (IH _ H2). now apply (proj1 (step_columns _ _ _ H1)).
Qed.

(** A rule whose additional columns share a column with [noteColumns]
    stops the run. *)
Lemma step_shared_column st rule out ac col :
  score rule (engineStats st) (noteLabels st) = Ok out ->
  additionalColumns out = Some ac ->
  In col (columns ac) -> In col (columns (noteColumns st)) ->
  step st rule = Raise AssertionError.
Proof.
  intros Hs Hac H1 H2. unfold apply_rule, bind.
  destruct (check_dependencies rule (ruleIDs st)) as [[]|e] eqn:E.
  - destruct (set_mem _ _ _); simpl; [reflexivity|].
    rewrite Hs. destruct (same_notes rule out); [|reflexivity].
    rewrite Hac.
    assert (only_key_shared (noteColumns st) ac = false) as ->;
      [|reflexivity].
    unfold only_key_shared. apply not_true_is_false. intros Hall.
    rewrite forallb_forall in Hall. specialize (Hall _ H1).
    apply negb_true_iff in Hall.
    assert (existsb (String.eqb col) (columns (noteColumns st)) = true)
      as Hex; [|congruence].
    apply existsb_exists. exists col. split; [assumption|].
    apply String.eqb_refl.
  - unfold check_dependencies in E.
    destruct (set_diff _ _ _); now inversion E.
Qed.

(** C9.  When a rule of the run returned additional columns with a column
    [col], and a later rule, reached by the run, returns additional columns
    with the same column, the run raises an [AssertionError]. *)
Theorem shared_extra_column_fails noteStats rules1 r1 rules2 r2 rules3 dec
  st1 out1 ac1 st2 out2 ac2 col :
  run rules1 (init_engine noteStats) = Ok st1 ->
  score r1 (engineStats st1) (noteLabels st1) = Ok out1 ->
  additionalColumns out1 = Some ac1 ->
  In col (columns ac1) ->
  run (rules1 ++ r1 :: rules2) (init_engine noteStats) = Ok st2 ->
  score r2 (engineStats st2) (noteLabels st2) = Ok out2 ->
  additionalColumns out2 = Some ac2 ->
  In col (columns ac2) ->
  engine noteStats (rules1 ++ r1 :: rules2 ++ r2 :: rules3) dec
  = Raise AssertionError.
Proof.
  intros H1 Hs1 Hac1 Hc1 H2 Hs2 Hac2 Hc2.
  assert (In col (columns (noteColumns st2))) as Hin.
  { apply run_split in H2. destruct H2 as (sa & sb & Ha & Hb & Hc).
    rewrite H1 in Ha. inversion Ha; subst sa.
    apply (run_columns _ _ _ Hc).
    apply (proj2 (step_columns _ _ _ Hb) _ _ Hs1 Hac1 _ Hc1). }
  unfold apply_scoring_rules.
  replace (rules1 ++ r1 :: rules2 ++ r2 :: rules3)
    with ((rules1 ++ r1 :: rules2) ++ r2 :: rules3)
    by (rewrite <- app_assoc; reflexivity).
  rewrite apply_rules_app, H2. simpl.
  rewrite (step_shared_column _ _ _ _ _ Hs2 Hac2 Hc2 Hin). reflexivity.
Qed.

End EngineFailures.

(** ** The engine on the scenarios *)

(** C1, as stated, fails: with a default rule followed by
    [RejectLowIntercept] the table returned carries [FIRM_REJECT] for the
    note below the threshold. *)
Lemma firm_reject_escapes :
  exists out,
    apply_scoring_rules tiny_constants
      ExplanationTags.get_top_two_tags_for_note reject_stats reject_rules
      None = Ok out
    /\ ~ (forall row, In row out ->
            In (sStatus row) [currentlyRatedHelpful; currentlyRatedNotHelpful;
                              needsMoreRatings]).
Proof.
  eexists. split; [vm_compute; reflexivity|].
  intros H. specialize (H _ (or_introl eq_refl)).
  vm_compute in H. destruct H as [H|[H|[H|[]]]]; discriminate H.
Qed.

Lemma output_status_is_emitted_witness :
  exists earlier rule updates later,
    emitted tiny_constants ExplanationTags.get_top_two_tags_for_note
      reject_rules (init_engine reject_stats)
    = earlier ++ (rule, updates) :: later
    /\ In rule reject_rules
    /\ In (sNoteId reject_row1, sStatus reject_row1) updates
    /\ forall p, In p later ->
                 ~ In (sNoteId reject_row1) (label_ids (snd p)).
Proof.
  refine (proj1 (output_status_is_emitted tiny_constants
                   ExplanationTags.get_top_two_tags_for_note reject_stats
                   reject_rules (Some "decidedBy")
                   [reject_row1; reject_row2] reject_row1 _ _)).
  - vm_compute. reflexivity.
  - now left.
Defined.

Lemma coverage_witness :
  List.length [reject_row1; reject_row2] = List.length reject_stats.
Proof.
  refine (proj1 (proj2 (coverage tiny_constants
                          ExplanationTags.get_top_two_tags_for_note
                          reject_stats reject_rules (Some "decidedBy")
                          [reject_row1; reject_row2] _))).
  vm_compute. reflexivity.
Defined.

Lemma dependencies_enforced_witness :
  NoDup (map get_rule_id reject_rules)
  /\ forall prefix rule suffix,
      reject_rules = prefix ++ rule :: suffix ->
      forall d, In d (get_dependencies rule) ->
                In d (map get_rule_id prefix).
Proof.
  refine (proj2 (proj2 (proj2
            (dependencies_enforced tiny_constants
               ExplanationTags.get_top_two_tags_for_note reject_stats
               reject_rules (Some "decidedBy"))))
            [reject_row1; reject_row2] _).
  vm_compute. reflexivity.
Defined.

Lemma shared_extra_column_fails_witness :
  apply_scoring_rules tiny_constants
    ExplanationTags.get_top_two_tags_for_note drift_stats drift_rules None
  = Raise AssertionError.
Proof.
  refine (shared_extra_column_fails tiny_constants
            ExplanationTags.get_top_two_tags_for_note drift_stats
            [DefaultRule META_INITIAL_NMR [] needsMoreRatings]
            (drift_guard SCORING_DRIFT_GUARD [META_INITIAL_NMR])
            [DefaultRule INITIAL_NMR [] needsMoreRatings]
            (drift_guard CORE_MODEL [SCORING_DRIFT_GUARD])
            [] None _ _ _ _ _ _ unlockedRatingStatusKey _ _ _ _ _ _ _ _);
    try (vm_compute; reflexivity); now left.
Defined.

(** ** NmrDueToMinStableCrhTime *)

Section StableCrhTime.

Import NmrDueToMinStableCrhTime.

Variable c : Constants.
Variable minutes : Z.

Local Abbreviation T_of :=
  (get timestampMillisOfNmrDueToMinStableCrhTimeKey).

(** The rows the rule considers come from a row of [noteStats] that was
    not CRH before the run and a row of [currentLabels] for the same
    note. *)
Lemma considered_In (noteStats : NoteStats) (currentLabels : Labels) x :
  In x (considered noteStats currentLabels)
  <-> exists r s,
      In r noteStats /\ In (noteId r, s) currentLabels
      /\ ne_str (get currentLabelKey r) currentlyRatedHelpful = true
      /\ (is_crh s || has_timestamp (T_of r)) = true
      /\ x = mkCandidate (noteId r) (T_of r) s NaN (T_of r).
Proof.
  unfold considered. rewrite in_map_iff. split.
  - intros ([r [n s]] & <- & H). apply filter_In in H.
    destruct H as [H Hsel]. apply merge_inner_In in H.
    destruct H as (Hr & Hl & Ek). apply filter_In in Hr.
    destruct Hr as [Hr Hc]. simpl in *. subst n.
    exists r, s. repeat split; assumption.
  - intros (r & s & Hr & Hl & Hc & Hsel & ->).
    exists (r, (noteId r, s)). split; [reflexivity|].
    apply filter_In. split; [|assumption].
    apply merge_inner_In. split; [|split; [assumption | reflexivity]].
    apply filter_In. now split.
Qed.

Lemma decide_row_keeps x :
  cNoteId (decide_row c minutes x) = cNoteId x
  /\ cStatus (decide_row c minutes x) = cStatus x
  /\ cTimestamp (decide_row c minutes x) = cTimestamp x.
Proof.
  unfold decide_row, case_2, case_1Bb, case_1Ba, case_1A.
  repeat match goal with
         | |- context [if ?b then _ else _] => destruct b; simpl
         end; repeat split.
Qed.

(** The four assignments of the source compute the table of the
    specification. *)
Lemma decide_row_table n t s :
  let y := decide_row c minutes (mkCandidate n t s NaN t) in
  let row := hysteresis_table (epochMillis c) minutes s t in
  cUpdatedTimestamp y = snd row
  /\ (is_crh s && eq_str (cNewStatus y) needsMoreRatings
      = is_crh s && String.eqb (fst row) needsMoreRatings).
Proof.
  unfold decide_row, case_2, case_1Bb, case_1Ba, case_1A,
    hysteresis_table, has_timestamp, millis_since, threshold_millis,
    is_crh, num_le, num_gt, num_ge, num_lt, Qlt_bool.
  destruct (String.eqb_spec s currentlyRatedHelpful) as [->|Hne];
    [|apply String.eqb_neq in Hne];
    destruct t as [|str|q|b];
    try (destruct (Qle_bool q 0) eqn:E1;
         destruct (Qle_bool (inject_Z (minutes * 60 * 1000))
                     (inject_Z (epochMillis c) - q)) eqn:E2);
    repeat (progress (cbn -[Qle_bool Qminus inject_Z];
                      rewrite ?Hne, ?E1, ?E2));
    split; reflexivity.
Qed.

Lemma score_notes_Ok noteStats currentLabels out :
  score_notes c minutes noteStats currentLabels = Ok out ->
  let decided := map (decide_row c minutes)
                     (considered noteStats currentLabels) in
  noteStatusUpdates out
  = map (fun x => (cNoteId x, status_of (cNewStatus x)))
      (filter (fun x => is_crh (cStatus x)
                        && eq_str (cNewStatus x) needsMoreRatings)
              decided)
  /\ additionalColumns out
     = Some (mkFrame [updatedTimestampMillisOfNmrDueToMinStableCrhTimeKey]
               (map (fun x =>
                       mkRow (cNoteId x)
                         [(updatedTimestampMillisOfNmrDueToMinStableCrhTimeKey,
                           cUpdatedTimestamp x)])
                    decided)).
Proof.
  unfold score_notes.
  destruct (no_duplicate_rows (considered noteStats currentLabels));
    [|discriminate].
  intros H. inversion H; subst. simpl. split; reflexivity.
Qed.

(** C10.  The rule looks only at notes that [currentLabels] holds: a note
    that no earlier rule has labelled is not among the rows considered,
    whatever its timestamp, so the rule returns neither a status update nor
    a row of additional columns for it. *)
Theorem unlabeled_note_is_skipped noteStats currentLabels n :
  ~ In n (label_ids currentLabels) ->
  (forall x, In x (considered noteStats currentLabels) -> cNoteId x <> n)
  /\ forall out,
      score_notes c minutes noteStats currentLabels = Ok out ->
      ~ In n (label_ids (noteStatusUpdates out))
      /\ exists ac, additionalColumns out = Some ac
                    /\ ~ In n (ids (rows ac)).
Proof.
  intros Hn.
  assert (forall x, In x (considered noteStats currentLabels) ->
                    cNoteId x <> n) as Hskip.
  { intros x Hx E. apply considered_In in Hx.
    destruct Hx as (r & s & _ & Hl & _ & _ & ->). simpl in E. subst n.
    apply Hn. unfold label_ids.
    now apply (in_map fst currentLabels (noteId r, s)). }
  split; [assumption|].
  intros out H. apply score_notes_Ok in H. destruct H as [Hu Ha].
  split.
  - rewrite Hu. unfold label_ids. rewrite map_map. simpl.
    intros Hin. apply in_map_iff in Hin. destruct Hin as (y & E & Hy).
    apply filter_In in Hy. destruct Hy as [Hy _].
    apply in_map_iff in Hy. destruct Hy as (x & <- & Hx).
    destruct (decide_row_keeps x) as (Ek & _).
    rewrite Ek in E. now apply (Hskip x).
  - eexists. split; [exact Ha|]. simpl. unfold ids. rewrite !map_map.
    simpl. intros Hin. apply in_map_iff in Hin.
    destruct Hin as (x & E & Hx).
    destruct (decide_row_keeps x) as (Ek & _).
    rewrite Ek in E. now apply (Hskip x).
Qed.

Lemma eq_str_true (v : value) (s : string) :
  eq_str v s = true -> v = Str s.
Proof.
  destruct v; simpl; try discriminate.
  intros H. apply String.eqb_eq in H. now subst.
Qed.

Lemma same_key_same_row {A} (f : A -> Z) (l : list A) (a b : A) :
  NoDup (map f l) -> In a l -> In b l -> f a = f b -> a = b.
Proof.
  induction l as [|x l IH]; simpl; [tauto|].
  intros Hnd Ha Hb E. inversion Hnd as [|? ? Hx Hl]; subst.
  destruct Ha as [->|Ha], Hb as [->|Hb]; auto.
  - exfalso. apply Hx. rewrite E. now apply in_map.
  - exfalso. apply Hx. rewrite <- E. now apply in_map.
Qed.

(** The five rows of the table. *)
Lemma hysteresis_table_rows (now : Z) (s : string) (T : value) :
  let threshold := inject_Z (minutes * 60 * 1000) in
  (s = currentlyRatedHelpful ->
   (T = NaN \/ exists q, T = Num q /\ q <= 0)%Q ->
   hysteresis_table now minutes s T
   = (needsMoreRatings, Num (inject_Z now)))
  /\ (s = currentlyRatedHelpful ->
      forall q, T = Num q -> (0 < q)%Q ->
                (threshold <= inject_Z now - q)%Q ->
      hysteresis_table now minutes s T
      = (currentlyRatedHelpful, Num (-1)))
  /\ (s = currentlyRatedHelpful ->
      forall q, T = Num q -> (0 < q)%Q ->
                (inject_Z now - q < threshold)%Q ->
      hysteresis_table now minutes s T = (needsMoreRatings, T))
  /\ (s <> currentlyRatedHelpful ->
      forall q, T = Num q -> (0 < q)%Q ->
      hysteresis_table now minutes s T = (s, Num (-1)))
  /\ (s <> currentlyRatedHelpful ->
      (T = NaN \/ exists q, T = Num q /\ q <= 0)%Q ->
      hysteresis_table now minutes s T = (s, T)).
Proof.
  unfold hysteresis_table, num_le, num_gt, num_ge, num_lt, Qlt_bool.
  repeat split.
  - intros -> [->|(q & -> & Hq)]; [reflexivity|].
    apply Qle_bool_iff in Hq. cbn -[Qle_bool]. now rewrite Hq.
  - intros -> q -> Hq Ht. apply Qlt_not_le in Hq.
    rewrite <- Qle_bool_iff in Hq, Ht. apply not_true_is_false in Hq.
    cbn -[Qle_bool Qminus inject_Z]. now rewrite Hq, Ht.
  - intros -> q -> Hq Ht. apply Qlt_not_le in Hq, Ht.
    rewrite <- Qle_bool_iff in Hq, Ht.
    apply not_true_is_false in Hq, Ht.
    cbn -[Qle_bool Qminus inject_Z]. now rewrite Hq, Ht.
  - intros Hs q -> Hq. apply String.eqb_neq in Hs.
    apply Qlt_not_le in Hq. rewrite <- Qle_bool_iff in Hq.
    apply not_true_is_false in Hq.
    cbn -[Qle_bool]. now rewrite Hs, Hq.
  - intros Hs HT. apply String.eqb_neq in Hs. rewrite Hs.
    destruct HT as [->|(q & -> & Hq)]; [reflexivity|].
    apply Qle_bool_iff in Hq. cbn -[Qle_bool]. now rewrite Hq.
Qed.

(** The table changes a status only from CRH to NMR. *)
Lemma flips_iff (now : Z) x :
  flips now minutes x = true
  <-> fst (table_row now minutes x) <> cStatus x.
Proof.
  unfold flips, table_row, hysteresis_table.
  destruct (String.eqb_spec (cStatus x) currentlyRatedHelpful) as [E|E].
  - rewrite E.
    repeat match goal with
           | |- context [if ?b then _ else _] => destruct b; simpl
           end; split; intros H; try reflexivity; try discriminate H;
      try (exfalso; now apply H); discriminate.
  - simpl. destruct (num_gt _ _); simpl; split; intros H;
      try discriminate H; now exfalso.
Qed.

(** C5.  The rule returns a status update, to NMR, for exactly those of
    the rows it considers whose status the table of the specification
    flips from CRH to NMR, and a row of additional columns with the
    updated timestamp of the table for every row it considers.  The table
    has the five rows of the specification; in particular a note that is
    CRH now, with a positive timestamp at least the threshold old, keeps
    CRH with [T' = -1] and is not among the status updates. *)
Theorem hysteresis_follows_table noteStats currentLabels out :
  score_notes c minutes noteStats currentLabels = Ok out ->
  noteStatusUpdates out
  = map (fun x => (cNoteId x, needsMoreRatings))
      (filter (flips (epochMillis c) minutes)
              (considered noteStats currentLabels))
  /\ additionalColumns out
     = Some (mkFrame [updatedTimestampMillisOfNmrDueToMinStableCrhTimeKey]
               (map (fun x =>
                       mkRow (cNoteId x)
                         [(updatedTimestampMillisOfNmrDueToMinStableCrhTimeKey,
                           snd (table_row (epochMillis c) minutes x))])
                    (considered noteStats currentLabels)))
  /\ (forall x, flips (epochMillis c) minutes x = true
                <-> fst (table_row (epochMillis c) minutes x) <> cStatus x)
  /\ (forall s T,
         let threshold := inject_Z (minutes * 60 * 1000) in
         let now := epochMillis c in
         (s = currentlyRatedHelpful ->
          (T = NaN \/ exists q, T = Num q /\ q <= 0)%Q ->
          hysteresis_table now minutes s T
          = (needsMoreRatings, Num (inject_Z now)))
         /\ (s = currentlyRatedHelpful ->
             forall q, T = Num q -> (0 < q)%Q ->
                       (threshold <= inject_Z now - q)%Q ->
             hysteresis_table now minutes s T
             = (currentlyRatedHelpful, Num (-1)))
         /\ (s = currentlyRatedHelpful ->
             forall q, T = Num q -> (0 < q)%Q ->
                       (inject_Z now - q < threshold)%Q ->
             hysteresis_table now minutes s T = (needsMoreRatings, T))
         /\ (s <> currentlyRatedHelpful ->
             forall q, T = Num q -> (0 < q)%Q ->
             hysteresis_table now minutes s T = (s, Num (-1)))
         /\ (s <> currentlyRatedHelpful ->
             (T = NaN \/ exists q, T = Num q /\ q <= 0)%Q ->
             hysteresis_table now minutes s T = (s, T)))
  /\ (NoDup (ids noteStats) -> NoDup (label_ids currentLabels) ->
      forall r q,
        In r noteStats ->
        In (noteId r, currentlyRatedHelpful) currentLabels ->
        T_of r = Num q -> (0 < q)%Q ->
        (inject_Z (minutes * 60 * 1000)
         <= inject_Z (epochMillis c) - q)%Q ->
        ~ In (noteId r) (label_ids (noteStatusUpdates out))).
Proof.
  intros H. apply score_notes_Ok in H. destruct H as [Hu Ha].
  assert (forall x, In x (considered noteStats currentLabels) ->
            cUpdatedTimestamp (decide_row c minutes x)
            = snd (table_row (epochMillis c) minutes x)
            /\ is_crh (cStatus x)
               && eq_str (cNewStatus (decide_row c minutes x))
                         needsMoreRatings
               = flips (epochMillis c) minutes x) as Hrow.
  { intros x Hx. apply considered_In in Hx.
    destruct Hx as (r & s & _ & _ & _ & _ & ->).
    apply (decide_row_table (noteId r) (T_of r) s). }
  assert (noteStatusUpdates out
          = map (fun x => (cNoteId x, needsMoreRatings))
              (filter (flips (epochMillis c) minutes)
                      (considered noteStats currentLabels))) as Hu'.
  { rewrite Hu, filter_map_swap, map_map.
    rewrite (filter_ext_in _ (flips (epochMillis c) minutes)).
    - apply map_ext_in. intros x Hx. apply filter_In in Hx.
      destruct Hx as [Hx Hf].
      destruct (decide_row_keeps x) as (-> & _ & _). f_equal.
      destruct (Hrow x Hx) as [_ E]. rewrite <- E in Hf.
      apply andb_true_iff in Hf. destruct Hf as [_ Hf].
      apply eq_str_true in Hf. now rewrite Hf.
    - intros x Hx. destruct (decide_row_keeps x) as (_ & -> & _).
      apply (Hrow x Hx). }
  split; [assumption|]. split; [|split; [|split]].
  - rewrite Ha, map_map. do 2 f_equal. apply map_ext_in.
    intros x Hx. destruct (decide_row_keeps x) as (-> & _ & _).
    now destruct (Hrow x Hx) as [-> _].
  - intros x. apply flips_iff.
  - intros s T. apply hysteresis_table_rows.
  - intros Hns Hls r q Hr Hl HT Hq Hthr Hin.
    rewrite Hu' in Hin. unfold label_ids in Hin. rewrite map_map in Hin.
    simpl in Hin. apply in_map_iff in Hin. destruct Hin as (x & Ex & Hx).
    apply filter_In in Hx. destruct Hx as [Hx Hf].
    apply considered_In in Hx.
    destruct Hx as (r' & s & Hr' & Hl' & _ & _ & ->). simpl in Ex.
    assert (r' = r) as -> by (apply (same_key_same_row noteId noteStats);
                              assumption).
    assert ((noteId r, s) = (noteId r, currentlyRatedHelpful)) as Es
        by (apply (same_key_same_row fst currentLabels); auto).
    inversion Es; subst s. unfold flips, table_row in Hf. simpl in Hf.
    rewrite HT in Hf.
    destruct (hysteresis_table_rows (epochMillis c)
                currentlyRatedHelpful (Num q)) as (_ & Hrow2 & _).
    rewrite (Hrow2 eq_refl q eq_refl Hq Hthr) in Hf. discriminate Hf.
Qed.

End StableCrhTime.

(** ** ApplyModelResult *)

Section ModelResult.

Lemma filter_filter_and {A} (f g : A -> bool) (l : list A) :
  filter f (filter g l) = filter (fun x => g x && f x) l.
Proof.
  induction l as [|x l IH]; simpl; [reflexivity|].
  destruct (g x); simpl; [destruct (f x)|]; now rewrite IH.
Qed.

Lemma fold_filters (pairs : list (string * value)) (ns : NoteStats) :
  fold_left
    (fun ns cv => filter (fun r => value_eqb (get (fst cv) r) (snd cv)) ns)
    pairs ns
  = filter (fun r => forallb (fun cv => value_eqb (get (fst cv) r) (snd cv))
                             pairs) ns.
Proof.
  revert ns. induction pairs as [|cv pairs IH]; intros ns; simpl.
  - induction ns as [|r ns IHn]; simpl; [reflexivity | now rewrite <- IHn].
  - rewrite IH. apply filter_filter_and.
Qed.

Lemma isin_two (v : value) (a b : string) :
  isin v [a; b] = true <-> v = Str a \/ v = Str b.
Proof.
  unfold isin. simpl. rewrite !orb_true_iff. split.
  - intros [H|[H|H]]; [left | right | discriminate];
      now apply eq_str_true.
  - intros [-> | ->]; simpl; rewrite String.eqb_refl, ?orb_true_r; auto.
Qed.

Lemma isna_true (v : value) : isna v = true <-> v = NaN.
Proof. destruct v; simpl; split; congruence. Qed.

(** The blocking predicate, spelled out. *)
Lemma crh_blocked_iff (r : Row) :
  crh_blocked r = true
  <-> (get coreRatingStatusKey r = Str firmReject
       \/ get coreRatingStatusKey r = Str currentlyRatedNotHelpful)
      \/ (get coreRatingStatusKey r = NaN
          /\ (get expansionRatingStatusKey r = Str firmReject
              \/ get expansionRatingStatusKey r
                 = Str currentlyRatedNotHelpful)).
Proof.
  unfold crh_blocked.
  rewrite orb_true_iff, andb_true_iff, !isin_two, isna_true. tauto.
Qed.

Lemma forallb_false {A} (f : A -> bool) (l : list A) :
  forallb f l = false -> exists x, In x l /\ f x = false.
Proof.
  induction l as [|x l IH]; simpl; [discriminate|].
  destruct (f x) eqn:E; simpl.
  - intros H. destruct (IH H) as (y & Hy & Ey). exists y. auto.
  - intros _. exists x. auto.
Qed.

(** The function in one piece: the propagated notes, the rewriting and
    the check. *)
Lemma score_notes_model sourceColumn checkFirmReject filterColumnPairs
  noteStats currentLabels :
  ApplyModelResult.score_notes sourceColumn checkFirmReject
    filterColumnPairs noteStats currentLabels
  = let emitted :=
      map (fun r => (noteId r,
                     if eq_str (get sourceColumn r) firmReject
                     then Str needsMoreRatings else get sourceColumn r))
          (filter (propagates sourceColumn checkFirmReject
                              filterColumnPairs) noteStats) in
    if forallb (fun u => isin (snd u)
                  [currentlyRatedHelpful; currentlyRatedNotHelpful;
                   needsMoreRatings]) emitted
    then Ok (mkScored noteStats currentLabels
               (map (fun u => (fst u, status_of (snd u))) emitted) None)
    else Raise AssertionError.
Proof.
  unfold ApplyModelResult.score_notes. rewrite fold_filters.
  rewrite !filter_filter_and.
  assert (forall l,
    filter (fun x =>
              forallb (fun cv => value_eqb (get (fst cv) x) (snd cv))
                      filterColumnPairs
              && negb (isna (get sourceColumn x)))
      (if checkFirmReject
       then filter (fun r => negb (crh_blocked r
                                   && eq_str (get sourceColumn r)
                                             currentlyRatedHelpful)) l
       else l)
    = filter (propagates sourceColumn checkFirmReject filterColumnPairs) l)
    as ->.
  { intros l. unfold propagates. destruct checkFirmReject.
    - rewrite filter_filter_and. apply filter_ext. intros r.
      now rewrite andb_assoc.
    - apply filter_ext. intros r. reflexivity. }
  assert (forall l : NoteStats,
    map (fun u : Z * value =>
           if eq_str (snd u) firmReject
           then (fst u, Str needsMoreRatings) else u)
        (map (fun r => (noteId r, get sourceColumn r)) l)
    = map (fun r => (noteId r,
                     if eq_str (get sourceColumn r) firmReject
                     then Str needsMoreRatings else get sourceColumn r)) l)
    as ->; [|reflexivity].
  intros l. rewrite map_map. apply map_ext. intros r. simpl.
  now destruct (eq_str (get sourceColumn r) firmReject).
Qed.

Lemma rewritten_status_ok (v : value) :
  isin (if eq_str v firmReject then Str needsMoreRatings else v)
       [currentlyRatedHelpful; currentlyRatedNotHelpful; needsMoreRatings]
  = isin v [currentlyRatedHelpful; currentlyRatedNotHelpful;
            needsMoreRatings; firmReject].
Proof.
  unfold isin. simpl. destruct (eq_str v firmReject) eqn:E.
  - now rewrite !orb_true_r.
  - now rewrite !orb_false_r.
Qed.

Lemma isin_status (v : value) (l : list string) :
  isin v l = true <-> In (status_of v) l /\ v = Str (status_of v).
Proof.
  unfold isin. rewrite existsb_exists. split.
  - intros (s & Hs & E). apply eq_str_true in E. subst. simpl. auto.
  - intros [H E]. exists (status_of v). split; [assumption|].
    rewrite E. simpl. apply String.eqb_refl.
Qed.

(** C4 (as amended).  With or without [checkFirmReject] and the equality
    filters, [ApplyModelResult.score_notes] emits an update for exactly the
    notes that the specification propagates (with [checkFirmReject] and no
    filter: all notes with a source status except those that core or
    expansion blocks while the source says CRH); the status emitted is the
    source status with [FIRM_REJECT] rewritten to NMR, and every status it
    returns is CRH, CRNH or NMR.  The rewriting and the check of the three
    statuses are steps of this function: it raises an [AssertionError]
    exactly when a propagated note has a source value that is none of the
    four status tokens. *)
Theorem apply_model_result_propagates sourceColumn checkFirmReject
  filterColumnPairs noteStats currentLabels :
  (forall out,
      ApplyModelResult.score_notes sourceColumn checkFirmReject
        filterColumnPairs noteStats currentLabels = Ok out ->
      noteStatusUpdates out
      = map (fun r => (noteId r, propagated_status sourceColumn r))
          (filter (propagates sourceColumn checkFirmReject
                              filterColumnPairs) noteStats)
      /\ (forall n s, In (n, s) (noteStatusUpdates out) ->
                      In s [currentlyRatedHelpful; currentlyRatedNotHelpful;
                            needsMoreRatings])
      /\ (forall r, In r noteStats ->
                    propagates sourceColumn checkFirmReject
                               filterColumnPairs r = true ->
                    (get sourceColumn r = Str firmReject
                     /\ propagated_status sourceColumn r = needsMoreRatings)
                    \/ (get sourceColumn r
                        = Str (propagated_status sourceColumn r)
                        /\ In (propagated_status sourceColumn r)
                              [currentlyRatedHelpful;
                               currentlyRatedNotHelpful;
                               needsMoreRatings])))
  /\ (forall r, get sourceColumn r <> NaN ->
                (propagates sourceColumn true [] r = false
                 <-> get sourceColumn r = Str currentlyRatedHelpful
                     /\ ((get coreRatingStatusKey r = Str firmReject
                          \/ get coreRatingStatusKey r
                             = Str currentlyRatedNotHelpful)
                         \/ (get coreRatingStatusKey r = NaN
                             /\ (get expansionRatingStatusKey r
                                 = Str firmReject
                                 \/ get expansionRatingStatusKey r
                                    = Str currentlyRatedNotHelpful)))))
  /\ (forall e,
         ApplyModelResult.score_notes sourceColumn checkFirmReject
           filterColumnPairs noteStats currentLabels = Raise e ->
         e = AssertionError
         /\ exists r,
             In r noteStats
             /\ propagates sourceColumn checkFirmReject
                           filterColumnPairs r = true
             /\ isin (get sourceColumn r)
                     [currentlyRatedHelpful; currentlyRatedNotHelpful;
                      needsMoreRatings; firmReject] = false).
Proof.
  rewrite score_notes_model. cbv zeta.
  split; [|split].
  - intros out H.
    match type of H with
    | (if ?b then _ else _) = _ => destruct b eqn:Hall; [|discriminate]
    end.
    inversion H; subst out; clear H. simpl. rewrite map_map. simpl.
    rewrite forallb_forall in Hall.
    assert (forall r, In r noteStats ->
              propagates sourceColumn checkFirmReject filterColumnPairs r
              = true ->
              ((get sourceColumn r = Str firmReject
                /\ propagated_status sourceColumn r = needsMoreRatings)
               \/ (get sourceColumn r
                   = Str (propagated_status sourceColumn r)
                   /\ In (propagated_status sourceColumn r)
                         [currentlyRatedHelpful; currentlyRatedNotHelpful;
                          needsMoreRatings]))
              /\ status_of (if eq_str (get sourceColumn r) firmReject
                            then Str needsMoreRatings
                            else get sourceColumn r)
                 = propagated_status sourceColumn r
              /\ In (propagated_status sourceColumn r)
                    [currentlyRatedHelpful; currentlyRatedNotHelpful;
                     needsMoreRatings]) as Hsrc.
    { intros r Hr Hp.
      specialize (Hall (noteId r,
                        if eq_str (get sourceColumn r) firmReject
                        then Str needsMoreRatings
                        else get sourceColumn r)).
      cbn [snd] in Hall.
      assert (In (noteId r,
                  if eq_str (get sourceColumn r) firmReject
                  then Str needsMoreRatings else get sourceColumn r)
                 (map (fun r => (noteId r,
                                 if eq_str (get sourceColumn r) firmReject
                                 then Str needsMoreRatings
                                 else get sourceColumn r))
                      (filter (propagates sourceColumn checkFirmReject
                                          filterColumnPairs) noteStats)))
        as Hin.
      { apply in_map_iff. exists r. split; [reflexivity|].
        apply filter_In. now split. }
      specialize (Hall Hin). apply isin_status in Hall.
      destruct Hall as [Hs Hv]. unfold propagated_status.
      destruct (eq_str (get sourceColumn r) firmReject) eqn:Ef.
      - apply eq_str_true in Ef. simpl in *. auto.
      - auto. }
    split; [|split].
    + apply map_ext_in. intros r Hr. apply filter_In in Hr.
      destruct Hr as [Hr Hp]. f_equal. apply (Hsrc r Hr Hp).
    + intros n s Hin. apply in_map_iff in Hin.
      destruct Hin as (r & E & Hr). apply filter_In in Hr.
      destruct Hr as [Hr Hp]. inversion E; subst.
      destruct (Hsrc r Hr Hp) as (_ & -> & H). exact H.
    + intros r Hr Hp. apply (Hsrc r Hr Hp).
  - intros r Hna. unfold propagates. simpl.
    rewrite andb_true_r.
    assert (isna (get sourceColumn r) = false) as ->
        by (apply not_true_is_false; now rewrite isna_true).
    simpl. rewrite andb_true_r, negb_false_iff, andb_true_iff.
    rewrite crh_blocked_iff. split.
    + intros [H1 H2]. apply eq_str_true in H2. tauto.
    + intros [-> H]. split; [assumption|]. reflexivity.
  - intros e H.
    match type of H with
    | (if ?b then _ else _) = _ => destruct b eqn:Hall; [discriminate|]
    end.
    inversion H; subst e. split; [reflexivity|].
    apply forallb_false in Hall. destruct Hall as (u & Hu & Hi).
    apply in_map_iff in Hu. destruct Hu as (r & <- & Hr).
    apply filter_In in Hr. destruct Hr as [Hr Hp]. cbn [snd] in Hi.
    rewrite rewritten_status_ok in Hi. now exists r.
Qed.

End ModelResult.

(** ** ApplyGroupModelResult *)

Section GroupModel.

Import ApplyGroupModelResult.

Variable groupNumber : Z.
Variable coreCrhThreshold expansionCrhThreshold : option Q.
Variable minSafeguardThreshold : Q.

Local Abbreviation group_score :=
  (score_notes groupNumber coreCrhThreshold expansionCrhThreshold
     minSafeguardThreshold).
Local Abbreviation is_actionable :=
  (spec_actionable minSafeguardThreshold coreCrhThreshold
     expansionCrhThreshold).

(** The [actionable] column of the source is the one of the
    specification. *)
Lemma actionable_spec (r : Row) :
  actionable minSafeguardThreshold coreCrhThreshold expansionCrhThreshold r
  = is_actionable r.
Proof.
  unfold actionable, spec_actionable, _get_value, in_range, spec_in_range.
  case coreCrhThreshold; case expansionCrhThreshold; intros;
    destruct (get coreNoteInterceptKey r),
             (get expansionNoteInterceptKey r);
    simpl; rewrite ?andb_true_r; reflexivity.
Qed.

Lemma ids_filter_In (p : Row -> bool) (ns : NoteStats) (n : Z) :
  In n (ids (filter p ns))
  <-> exists r, In r ns /\ noteId r = n /\ p r = true.
Proof.
  unfold ids. rewrite in_map_iff. split.
  - intros (r & E & H). apply filter_In in H. exists r. tauto.
  - intros (r & H & E & Hp). exists r. split; [assumption|].
    apply filter_In. now split.
Qed.

(** The notes promoted, whatever the keys of [noteStats]. *)
Lemma promoted_In noteStats currentLabels n :
  In n (label_ids
          (with_status currentlyRatedHelpful
             (map fst
                (merge_inner (fun n => n) (fun n => n)
                   (map fst
                      (merge_inner (fun n => n) (fun n => n)
                         (ids (filter (probationary groupNumber)
                                 (filter (fun r => negb (crh_blocked r))
                                         noteStats)))
                         (label_ids_where
                            (fun s => String.eqb s needsMoreRatings)
                            currentLabels)))
                   (ids (filter (actionable minSafeguardThreshold
                                   coreCrhThreshold expansionCrhThreshold)
                           (filter (fun r => negb (crh_blocked r))
                                   noteStats)))))))
  <-> (exists r, In r noteStats /\ noteId r = n /\ crh_blocked r = false
                 /\ probationary groupNumber r = true)
      /\ In (n, needsMoreRatings) currentLabels
      /\ (exists r, In r noteStats /\ noteId r = n /\ crh_blocked r = false
                    /\ is_actionable r = true).
Proof.
  rewrite with_status_ids, !merge_keys_In, !ids_filter_In,
    label_ids_where_In.
  split.
  - intros [[(r & Hr & E & Hp) (s & Hl & Es)] (r' & Hr' & E' & Ha)].
    apply filter_In in Hr, Hr'. destruct Hr as [Hr Hb], Hr' as [Hr' Hb'].
    apply negb_true_iff in Hb, Hb'. apply String.eqb_eq in Es. subst s.
    rewrite actionable_spec in Ha.
    split; [now exists r|]. split; [assumption | now exists r'].
  - intros [(r & Hr & E & Hb & Hp) [Hl (r' & Hr' & E' & Hb' & Ha)]].
    split; [split|].
    + exists r. split; [|now split]. apply filter_In.
      split; [assumption | now apply negb_true_iff].
    + exists needsMoreRatings. split; [assumption | apply String.eqb_refl].
    + exists r'. rewrite actionable_spec.
      split; [|now split]. apply filter_In.
      split; [assumption | now apply negb_true_iff].
Qed.

(** C6.  [ApplyGroupModelResult.score_notes] always returns; every status
    it emits is CRH; over a [noteStats] with one row per note it emits
    exactly the notes whose row is not blocked by core or expansion, has
    the group status CRH in the group of the rule, is actionable in the
    sense of the specification, and which are labelled NMR at present.  A
    note whose core and expansion intercepts are both missing is not
    promoted, and a note whose present label is not NMR is not touched. *)
Theorem group_model_promotes noteStats currentLabels :
  exists out,
    group_score noteStats currentLabels = Ok out
    /\ additionalColumns out = None
    /\ (forall n s, In (n, s) (noteStatusUpdates out) ->
                    s = currentlyRatedHelpful)
    /\ (forall r, actionable minSafeguardThreshold coreCrhThreshold
                    expansionCrhThreshold r = is_actionable r)
    /\ (NoDup (ids noteStats) ->
        forall n,
          In n (label_ids (noteStatusUpdates out))
          <-> exists r,
              In r noteStats /\ noteId r = n
              /\ crh_blocked r = false
              /\ probationary groupNumber r = true
              /\ In (n, needsMoreRatings) currentLabels
              /\ is_actionable r = true)
    /\ (NoDup (ids noteStats) ->
        forall r, In r noteStats ->
                  get coreNoteInterceptKey r = NaN ->
                  get expansionNoteInterceptKey r = NaN ->
                  ~ In (noteId r) (label_ids (noteStatusUpdates out)))
    /\ (NoDup (label_ids currentLabels) ->
        forall n s, In (n, s) currentLabels -> s <> needsMoreRatings ->
                    ~ In n (label_ids (noteStatusUpdates out))).
Proof.
  eexists. split; [reflexivity|]. simpl.
  split; [reflexivity|]. split; [|split; [apply actionable_spec|]].
  - intros n s H. now apply with_status_In in H.
  - assert (forall n,
              NoDup (ids noteStats) ->
              In n (label_ids
                      (with_status currentlyRatedHelpful
                         (map fst
                            (merge_inner (fun n => n) (fun n => n)
                               (map fst
                                  (merge_inner (fun n => n) (fun n => n)
                                     (ids (filter (probationary groupNumber)
                                             (filter
                                                (fun r =>
                                                   negb (crh_blocked r))
                                                noteStats)))
                                     (label_ids_where
                                        (fun s =>
                                           String.eqb s needsMoreRatings)
                                        currentLabels)))
                               (ids (filter (actionable
                                               minSafeguardThreshold
                                               coreCrhThreshold
                                               expansionCrhThreshold)
                                       (filter
                                          (fun r => negb (crh_blocked r))
                                          noteStats)))))))
              <-> exists r,
                  In r noteStats /\ noteId r = n
                  /\ crh_blocked r = false
                  /\ probationary groupNumber r = true
                  /\ In (n, needsMoreRatings) currentLabels
                  /\ is_actionable r = true) as Hiff.
    { intros n Hnd. rewrite promoted_In. split.
      - intros [(r & Hr & E & Hb & Hp) [Hl (r' & Hr' & E' & _ & Ha)]].
        assert (r' = r) as ->
            by (apply (same_key_same_row noteId noteStats);
                [exact Hnd | assumption | assumption | congruence]).
        exists r. repeat split; assumption.
      - intros (r & Hr & E & Hb & Hp & Hl & Ha).
        split; [|split]; [exists r | assumption | exists r];
          repeat split; assumption. }
    split; [|split].
    + intros Hnd n. now apply Hiff.
    + intros Hnd r Hr Hc He Hin. apply (Hiff _ Hnd) in Hin.
      destruct Hin as (r' & Hr' & E & _ & _ & _ & Ha).
      assert (r' = r) as ->
          by (apply (same_key_same_row noteId noteStats);
              [exact Hnd | assumption | assumption | congruence]).
      unfold spec_actionable, spec_in_range in Ha.
      rewrite Hc, He in Ha. discriminate Ha.
    + intros Hnd n s Hl Hs Hin. apply promoted_In in Hin.
      destruct Hin as (_ & Hl' & _).
      assert ((n, s) = (n, needsMoreRatings)) as E
          by (apply (same_key_same_row fst currentLabels);
              [exact Hnd | assumption | assumption | reflexivity]).
      inversion E. contradiction.
Qed.

End GroupModel.

(** ** Rules emit a note at most once *)

Section Uniqueness.

Variable c : Constants.
Variable get_top_two_tags_for_note : TopTwoTags.

Local Abbreviation run := (apply_rules c get_top_two_tags_for_note).
Local Abbreviation score := (score_notes c get_top_two_tags_for_note).
Local Abbreviation trace := (emitted c get_top_two_tags_for_note).
Local Abbreviation engine :=
  (apply_scoring_rules c get_top_two_tags_for_note).

Lemma NoDup_map_filter {A} (key : A -> Z) (keep : A -> bool)
  (table : list A) :
  NoDup (map key table) -> NoDup (map key (filter keep table)).
Proof.
  induction table as [|x l IH]; simpl; [trivial|].
  intros H. inversion H as [|? ? Hx Hl]; subst.
  destruct (keep x); simpl; [|auto].
  constructor; [|auto].
  intros Hin. apply Hx. apply in_map_iff in Hin.
  destruct Hin as (y & E & Hy). apply filter_In in Hy.
  rewrite <- E. apply in_map. tauto.
Qed.

(** An inner merge of two tables with unique keys has unique keys. *)
Lemma NoDup_merge_inner {A B} (ka : A -> Z) (kb : B -> Z) l r :
  NoDup (map ka l) -> NoDup (map kb r) ->
  NoDup (map (fun x => ka (fst x)) (merge_inner ka kb l r)).
Proof.
  intros Hl Hr. induction l as [|a l IH]; simpl; [constructor|].
  inversion Hl as [|? ? Ha Hl']; subst.
  unfold merge_inner in *. simpl. rewrite map_app. apply NoDup_app.
  - rewrite map_map. simpl.
    assert (forall k, NoDup (map kb r) ->
              NoDup (map (fun _ : B => k)
                         (filter (fun b => k =? kb b) r))) as Hone.
    { clear. intros k. induction r as [|b r IH]; simpl; [constructor|].
      intros H. inversion H as [|? ? Hb Hr]; subst.
      destruct (Z.eqb_spec k (kb b)) as [->|Hne]; simpl; [|auto].
      constructor; [|auto].
      intros Hin. apply in_map_iff in Hin. destruct Hin as (y & _ & Hy).
      apply filter_In in Hy. destruct Hy as [Hy E].
      apply Z.eqb_eq in E. apply Hb. rewrite E. now apply in_map. }
    now apply Hone.
  - now apply IH.
  - intros k H1 H2. apply in_map_iff in H1. destruct H1 as (x & <- & Hx).
    apply in_map_iff in Hx. destruct Hx as (b & <- & _). simpl in H2.
    apply in_map_iff in H2. destruct H2 as ([a' b'] & E & Hy).
    simpl in E. apply in_flat_map in Hy. destruct Hy as (a2 & Ha2 & Hy).
    apply in_map_iff in Hy. destruct Hy as (b2 & E2 & _).
    inversion E2; subst. apply Ha. rewrite <- E. now apply in_map.
Qed.

Lemma NoDup_merge_ids (ns : NoteStats) (cand : list Z) :
  NoDup (ids ns) -> NoDup cand -> NoDup (ids (merge_ids ns cand)).
Proof.
  intros H1 H2. unfold ids, merge_ids. rewrite map_map.
  apply (NoDup_merge_inner noteId (fun n => n)); [assumption|].
  now rewrite map_id.
Qed.

Lemma NoDup_merge_keys (l r : list Z) :
  NoDup l -> NoDup r ->
  NoDup (map fst (merge_inner (fun n => n) (fun n => n) l r)).
Proof.
  intros H1 H2.
  apply (NoDup_merge_inner (fun n : Z => n) (fun n : Z => n));
    now rewrite map_id.
Qed.

Lemma NoDup_label_ids_where (p : string -> bool) (l : Labels) :
  NoDup (label_ids l) -> NoDup (label_ids_where p l).
Proof. apply NoDup_map_filter. Qed.

Lemma NoDup_loc_mask (ns selected : NoteStats) (mask : list bool) :
  loc_mask ns mask = Ok selected -> NoDup (ids ns) -> NoDup (ids selected).
Proof.
  unfold loc_mask. destruct (Nat.eqb _ _); [|discriminate].
  intros H. inversion H; subst; clear H. revert mask.
  induction ns as [|r ns IH]; intros mask Hnd; simpl; [constructor|].
  destruct mask as [|b mask]; simpl; [constructor|].
  inversion Hnd as [|? ? Hr Hns]; subst.
  destruct b; simpl; [|auto]. constructor; [|auto].
  intros Hin. apply Hr. unfold ids in *. apply in_map_iff in Hin.
  destruct Hin as (x & E & Hx). apply in_map_iff in Hx.
  destruct Hx as ([y m] & E' & Hy). simpl in E'. subst y.
  apply filter_In in Hy. destruct Hy as [Hy _].
  apply in_combine_l in Hy. rewrite <- E. now apply in_map.
Qed.

(** On tables with one row per note, every rule emits a note at most
    once. *)
Lemma score_notes_unique rule noteStats currentLabels out :
  score rule noteStats currentLabels = Ok out ->
  unique_keys rule ->
  NoDup (ids noteStats) -> NoDup (label_ids currentLabels) ->
  NoDup (label_ids (noteStatusUpdates out)).
Proof.
  intros H Hk Hns Hls. destruct rule; simpl in H.
  - unfold DefaultRule.score_notes in H. returned H.
    now rewrite with_status_ids.
  - unfold RuleFromFunction.score_notes, bind in H. returned H.
    rewrite with_status_ids. eapply NoDup_loc_mask; eassumption.
  - rewrite score_notes_model in H. cbv zeta in H. returned H.
    unfold label_ids. rewrite !map_map. simpl.
    now apply (NoDup_map_filter noteId).
  - unfold FilterTagOutliers.score_notes, bind in H. returned H.
    rewrite with_status_ids. apply NoDup_nodup.
  - unfold FilterIncorrect.score_notes in H. returned H.
    rewrite with_status_ids. now apply nodupb_spec.
  - unfold FilterLowDiligence.score_notes in H. returned H.
    rewrite with_status_ids. now apply nodupb_spec.
  - unfold FilterLargeFactor.score_notes in H. returned H.
    rewrite with_status_ids. now apply nodupb_spec.
  - unfold NmrDueToMinStableCrhTime.score_notes in H. returned H.
    unfold label_ids. rewrite map_map. simpl.
    apply NoDup_map_filter. rewrite map_map.
    erewrite map_ext
      by (intros x; apply (proj1 (decide_row_keeps c _ x))).
    unfold NmrDueToMinStableCrhTime.considered. rewrite map_map. simpl.
    apply NoDup_map_filter.
    apply (NoDup_merge_inner noteId fst); [|assumption].
    now apply NoDup_map_filter.
  - unfold RejectLowIntercept.score_notes in H. returned H.
    rewrite with_status_ids. apply NoDup_map_filter.
    apply NoDup_merge_ids; [assumption|].
    now apply NoDup_label_ids_where.
  - unfold ApplyGroupModelResult.score_notes in H. returned H.
    rewrite with_status_ids. apply NoDup_merge_keys.
    + apply NoDup_merge_keys.
      * now do 2 apply NoDup_map_filter.
      * now apply NoDup_label_ids_where.
    + now do 2 apply NoDup_map_filter.
  - unfold InsufficientExplanation.score_notes in H. returned H.
    rewrite with_status_ids. now apply nodupb_spec.
  - unfold NMtoCRNH.score_notes in H. returned H.
    rewrite with_status_ids. now apply NoDup_map_filter.
  - unfold AddCRHInertia.score_notes in H. returned H.
    rewrite with_status_ids. apply NoDup_merge_keys.
    + now apply NoDup_label_ids_where.
    + now apply NoDup_map_filter.
  - unfold ScoringDriftGuard.score_notes in H. returned H.
    unfold label_ids. rewrite map_map. apply NoDup_map_filter.
    apply (NoDup_merge_inner fst fst); [|assumption].
    simpl in Hk. clear - Hk.
    induction lockedStatus as [|[n [s|]] l IH]; simpl in *;
      inversion Hk as [|? ? Hn Hl]; subst; [constructor | |auto].
    constructor; [|auto]. intros Hin. apply Hn.
    apply in_map_iff in Hin. destruct Hin as ([m t] & E & Hy).
    simpl in E. subst m. apply in_flat_map in Hy.
    destruct Hy as ([m [u|]] & Hm & Hy); simpl in Hy; [|destruct Hy].
    destruct Hy as [E|[]]. inversion E; subst.
    now apply (in_map fst l (n, Some t)).
  - unfold ApplyTopicModelResult.score_notes in H. returned H.
    rewrite with_status_ids. apply NoDup_merge_keys.
    + now apply NoDup_label_ids_where.
    + now apply NoDup_map_filter.
Qed.

(** In a run over a [noteStats] with one row per note, every rule of the
    run emitted a note at most once. *)
Lemma emitted_unique (rules : list ScoringRule) (st st' : Engine) :
  run rules st = Ok st' ->
  Forall unique_keys rules ->
  NoDup (ids (engineStats st)) -> NoDup (label_ids (noteLabels st)) ->
  forall p, In p (trace rules st) -> NoDup (label_ids (snd p)).
Proof.
  revert st. induction rules as [|r rs IH]; intros st H Hk Hns Hls p Hp;
    [destruct Hp|].
  apply apply_rules_cons in H. destruct H as (st1 & H1 & H2).
  destruct (apply_rule_Ok _ _ _ _ _ H1)
    as (_ & _ & out & Hs & _ & Hst & Hl & _).
  rewrite (emitted_cons _ _ _ rs _ _ _ H1 Hs) in Hp.
  inversion Hk as [|? ? Hr Hrs]; subst.
  destruct Hp as [<-|Hp].
  - apply (score_notes_unique _ _ _ _ Hs Hr Hns Hls).
  - apply (IH st1 H2 Hrs); [| |assumption].
    + rewrite Hst, (score_notes_ids _ _ _ _ _ _ Hs). assumption.
    + rewrite Hl. apply groupby_tail1_NoDup.
Qed.

(** C2.  Take a run that returned, over a [noteStats] with one row per note
    (and drift guards whose locked-status table has one row per note), and
    the rules of the run that emitted a status update for the note of an
    output row, in the order of the rules list.  There is a last one, [Rk]:
    the status of the row is the status [Rk] emitted for the note; the rule
    column is the comma-join of the display names of exactly these rules in
    that order; the decided-by column, when requested, is the display name
    of [Rk], which is also the last token of the rule column. *)
Theorem last_acting_rule_decides noteStats rules dec out row :
  NoDup (ids noteStats) ->
  Forall unique_keys rules ->
  engine noteStats rules dec = Ok out ->
  In row out ->
  map fst (trace rules (init_engine noteStats)) = rules
  /\ exists before Rk updates,
      acting_rules (sNoteId row) (trace rules (init_engine noteStats))
      = before ++ [(Rk, updates)]
      /\ (forall s, In (sNoteId row, s) updates <-> s = sStatus row)
      /\ sRules row
         = String.concat ","
             (map (fun p => get_name (fst p)) (before ++ [(Rk, updates)]))
      /\ sDecidedBy row
         = (if requested dec then Some (get_name Rk) else None)
      /\ last (split_on "," (sRules row)) EmptyString = get_name Rk.
Proof.
  intros Hns Hk H Hrow.
  assert (forall p, In p (trace rules (init_engine noteStats)) ->
                    NoDup (label_ids (snd p))) as Hnd.
  { destruct (apply_scoring_rules_Ok _ _ _ _ _ _ H) as (st & Hrun & _).
    apply (emitted_unique _ _ _ Hrun Hk Hns). constructor. }
  destruct (last_acting_rule_of_trace _ _ _ _ _ _ _ H Hnd Hrow)
    as (Ht & before & Rk & updates & Ha & Hs & Hr & Hd & Hl).
  split; [assumption|]. exists before, Rk, updates.
  repeat split; try assumption.
  - intros Hin.
    assert (In (Rk, updates) (trace rules (init_engine noteStats))) as Hp.
    { assert (In (Rk, updates)
                 (acting_rules (sNoteId row)
                    (trace rules (init_engine noteStats)))) as Hf
          by (rewrite Ha; apply in_elt).
      unfold acting_rules in Hf. now apply filter_In in Hf. }
    assert ((sNoteId row, s) = (sNoteId row, sStatus row)) as E
        by (apply (same_key_same_row fst updates);
            [apply (Hnd _ Hp) | assumption | assumption | reflexivity]).
    now inversion E.
  - intros ->. assumption.
Qed.

End Uniqueness.

(** ** The tables passed to the rules *)

Section SharedTables.

Variable c : Constants.
Variable get_top_two_tags_for_note : TopTwoTags.

(** C7 (as amended).  No rule changes [currentLabels]; every rule other
    than [InsufficientExplanation] returns with [noteStats] as it was;
    [InsufficientExplanation.score_notes] writes the columns [firstTag]
    and [secondTag] of the [noteStats] table it is passed and leaves the
    rows, their note identifiers and every other column as they were. *)
Theorem rules_frame rule noteStats currentLabels out :
  score_notes c get_top_two_tags_for_note rule noteStats currentLabels
  = Ok out ->
  labelsAfter out = currentLabels
  /\ ids (statsAfter out) = ids noteStats
  /\ (forall col, col <> firstTagKey -> col <> secondTagKey ->
                  map (get col) (statsAfter out)
                  = map (get col) noteStats)
  /\ (sets_top_tags rule = false -> statsAfter out = noteStats).
Proof.
  intros H. split; [|split; [|split]].
  - apply (score_notes_labels _ _ _ _ _ _ H).
  - apply (score_notes_ids _ _ _ _ _ _ H).
  - intros col. apply (score_notes_columns _ _ _ _ _ _ _ H).
  - apply (score_notes_stats _ _ _ _ _ _ H).
Qed.

End SharedTables.

(** ** The rules on the scenarios *)

(** C4, as stated, fails in its last part: the rewriting of [FIRM_REJECT]
    and the check of the statuses happen in [ApplyModelResult.score_notes],
    called on its own here, and the engine does neither: the run below
    returns [FIRM_REJECT]. *)
Lemma rewriting_is_not_in_the_driver :
  ApplyModelResult.score_notes coreRatingStatusKey true [] core_stats []
  = Ok (mkScored core_stats []
          [(1, needsMoreRatings); (2, currentlyRatedHelpful)] None)
  /\ ApplyModelResult.score_notes coreRatingStatusKey true [] unknown_stats
       []
     = Raise AssertionError
  /\ exists out row,
      apply_scoring_rules tiny_constants
        ExplanationTags.get_top_two_tags_for_note low_stats low_rules None
      = Ok out
      /\ In row out /\ sStatus row = firmReject.
Proof.
  split; [vm_compute; reflexivity|]. split; [vm_compute; reflexivity|].
  eexists. eexists. split; [vm_compute; reflexivity|].
  split; [now left | reflexivity].
Qed.

Lemma apply_model_result_propagates_witness :
  exists out,
    ApplyModelResult.score_notes coreRatingStatusKey true [] core_stats []
    = Ok out
    /\ noteStatusUpdates out
       = map (fun r => (noteId r, propagated_status coreRatingStatusKey r))
           (filter (propagates coreRatingStatusKey true []) core_stats).
Proof.
  eexists. split; [vm_compute; reflexivity|].
  refine (proj1 (proj1 (apply_model_result_propagates coreRatingStatusKey
                          true [] core_stats []) _ _)).
  vm_compute. reflexivity.
Defined.

Lemma hysteresis_follows_table_witness :
  exists out,
    NmrDueToMinStableCrhTime.score_notes matured_constants 30 matured_stats
      hysteresis_labels = Ok out
    /\ noteStatusUpdates out
       = map (fun x => (NmrDueToMinStableCrhTime.cNoteId x, needsMoreRatings))
           (filter (flips (epochMillis matured_constants) 30)
              (NmrDueToMinStableCrhTime.considered matured_stats
                 hysteresis_labels))
    /\ ~ In 7 (label_ids (noteStatusUpdates out)).
Proof.
  assert (exists out,
             NmrDueToMinStableCrhTime.score_notes matured_constants 30
               matured_stats hysteresis_labels = Ok out) as (out & E)
      by (eexists; vm_compute; reflexivity).
  exists out. split; [exact E|].
  destruct (hysteresis_follows_table matured_constants 30 matured_stats
              hysteresis_labels out E) as (H1 & _ & _ & _ & H5).
  split; [exact H1|].
  assert (NoDup [7]) as Hn by (constructor; [intros [] | constructor]).
  apply (H5 Hn Hn matured_row 1000000%Q).
  - now left.
  - now left.
  - reflexivity.
  - reflexivity.
  - apply Qle_bool_iff. reflexivity.
Defined.

Lemma unlabeled_note_is_skipped_witness :
  ~ In 8 (label_ids hysteresis_labels)
  /\ forall x,
      In x (NmrDueToMinStableCrhTime.considered hysteresis_stats
              hysteresis_labels) ->
      NmrDueToMinStableCrhTime.cNoteId x <> 8.
Proof.
  assert (~ In 8 (label_ids hysteresis_labels)) as H.
  { simpl. intros [E|[]]. discriminate E. }
  split; [exact H|].
  exact (proj1 (unlabeled_note_is_skipped tiny_constants 30 hysteresis_stats
                  hysteresis_labels 8 H)).
Defined.

Lemma group_model_promotes_witness :
  exists out,
    ApplyGroupModelResult.score_notes 3 (Some (4 # 10)) None (3 # 10)
      group_stats group_labels = Ok out
    /\ In 1 (label_ids (noteStatusUpdates out)).
Proof.
  destruct (group_model_promotes 3 (Some (4 # 10)) None (3 # 10)
              group_stats group_labels)
    as (out & Hout & _ & _ & _ & Hiff & _).
  exists out. split; [exact Hout|].
  apply Hiff.
  - apply nodupb_spec. reflexivity.
  - exists group_row. repeat split; try reflexivity; now left.
Defined.

(** C7, as stated, fails: [InsufficientExplanation.score_notes] returns with
    the [firstTag] column of the [noteStats] table it was passed changed. *)
Lemma insufficient_explanation_writes_tags :
  exists out,
    InsufficientExplanation.score_notes tiny_constants
      ExplanationTags.get_top_two_tags_for_note needsMoreRatings 2 2 None
      explanation_stats explanation_labels = Ok out
    /\ map (get firstTagKey) explanation_stats = [NaN]
    /\ map (get firstTagKey) (statsAfter out) = [Str "helpfulClear"]
    /\ statsAfter out <> explanation_stats.
Proof.
  eexists. split; [vm_compute; reflexivity|].
  split; [reflexivity|]. split; [vm_compute; reflexivity|].
  vm_compute. discriminate.
Qed.

Lemma rules_frame_witness :
  exists out,
    score_notes tiny_constants ExplanationTags.get_top_two_tags_for_note
      (InsufficientExplanation INSUFFICIENT_EXPLANATION [] needsMoreRatings
         2 2 None)
      explanation_stats explanation_labels = Ok out
    /\ labelsAfter out = explanation_labels
    /\ ids (statsAfter out) = ids explanation_stats.
Proof.
  eexists. split; [vm_compute; reflexivity|].
  refine ((fun H => conj (proj1 H) (proj1 (proj2 H)))
            (rules_frame tiny_constants
               ExplanationTags.get_top_two_tags_for_note
               (InsufficientExplanation INSUFFICIENT_EXPLANATION []
                  needsMoreRatings 2 2 None)
               explanation_stats explanation_labels _ _)).
  vm_compute. reflexivity.
Defined.

Lemma last_acting_rule_decides_witness :
  exists before Rk updates,
    acting_rules 1
      (emitted tiny_constants ExplanationTags.get_top_two_tags_for_note
         reject_rules (init_engine reject_stats))
    = before ++ [(Rk, updates)]
    /\ (forall s, In (1, s) updates <-> s = firmReject)
    /\ sRules reject_row1
       = String.concat ","
           (map (fun p => get_name (fst p)) (before ++ [(Rk, updates)]))
    /\ sDecidedBy reject_row1 = Some (get_name Rk)
    /\ last (split_on "," (sRules reject_row1)) EmptyString = get_name Rk.
Proof.
  refine (proj2 (last_acting_rule_decides tiny_constants
                   ExplanationTags.get_top_two_tags_for_note reject_stats
                   reject_rules (Some "decidedBy")
                   [reject_row1; reject_row2] reject_row1 _ _ _ _)).
  - apply nodupb_spec. reflexivity.
  - repeat constructor.
  - vm_compute. reflexivity.
  - now left.
Defined.

(** * Further properties of the rules and of the engine *)

(** ** Rule identity *)

Lemma distinct_strings_NoDup (l : list string) :
  distinct_strings l = true -> NoDup l.
Proof.
  induction l as [|x l IH]; simpl; [constructor|].
  rewrite andb_true_iff, negb_true_iff. intros [Hx Hl].
  constructor; [|auto]. intros Hin.
  assert (existsb (String.eqb x) l = true) as E; [|congruence].
  apply existsb_exists. exists x. split; [assumption|].
  apply String.eqb_refl.
Qed.

(** X1.  The enumeration [RuleID] has 39 members; no two of them share a
    rule name, and no two of them share a display name
    ["<name> (v<version>)"]. *)
Theorem rule_names_unique :
  (forall r, In r all_rule_ids)
  /\ List.length all_rule_ids = 39%nat
  /\ NoDup (map (fun r => ruleName (RuleID_value r)) all_rule_ids)
  /\ NoDup (map RuleID_get_name all_rule_ids).
Proof.
  split; [intros r; destruct r; simpl; tauto|].
  split; [reflexivity|].
  split; apply distinct_strings_NoDup; vm_compute; reflexivity.
Qed.

(** ** The engine: order of the output, the boolean columns, edge cases *)

Section EngineOutput.

Variable c : Constants.
Variable get_top_two_tags_for_note : TopTwoTags.

Local Abbreviation step := (apply_rule c get_top_two_tags_for_note).
Local Abbreviation run := (apply_rules c get_top_two_tags_for_note).
Local Abbreviation score := (score_notes c get_top_two_tags_for_note).
Local Abbreviation engine :=
  (apply_scoring_rules c get_top_two_tags_for_note).

Lemma flat_map_length_ge {A B} (f : A -> list B) (l : list A) :
  (forall a, In a l -> f a <> []) ->
  (List.length l <= List.length (flat_map f l))%nat.
Proof.
  induction l as [|a l IH]; simpl; intros H; [lia|].
  rewrite length_app.
  assert (f a <> []) as Ha by (apply H; now left).
  assert (List.length l <= List.length (flat_map f l))%nat
    by (apply IH; intros x Hx; apply H; now right).
  destruct (f a); [congruence | simpl; lia].
Qed.

(** A [flat_map] that yields at least one element per input and as many
    elements as inputs yields exactly one per input, in order. *)
Lemma flat_map_one_each {A B} (f : A -> list B) (origin : B -> A)
  (l : list A) :
  (forall a b, In a l -> In b (f a) -> origin b = a) ->
  (forall a, In a l -> f a <> []) ->
  List.length (flat_map f l) = List.length l ->
  map origin (flat_map f l) = l.
Proof.
  induction l as [|a l IH]; simpl; intros Ho Hne Hlen; [reflexivity|].
  rewrite length_app in Hlen.
  assert (List.length l <= List.length (flat_map f l))%nat as Hge
      by (apply flat_map_length_ge; intros x Hx; apply Hne; now right).
  assert (f a <> []) as Ha by (apply Hne; now left).
  destruct (f a) as [|b [|b' bs]] eqn:E; [congruence| |simpl in Hlen; lia].
  simpl in *. f_equal.
  - apply Ho; [now left|]. rewrite E. now left.
  - apply IH; [| |lia].
    + intros x y Hx Hy. apply Ho; [now right | assumption].
    + intros x Hx. apply Hne. now right.
Qed.

Lemma merge_inner_origin {A B} (ka : A -> Z) (kb : B -> Z)
  (r : list B) (a : A) x :
  In x (map (pair a) (filter (fun b => ka a =? kb b) r)) -> fst x = a.
Proof.
  intros H. apply in_map_iff in H. now destruct H as (b & <- & _).
Qed.

Lemma matches_nonempty {A B} (ka : A -> Z) (kb : B -> Z) (r : list B) a :
  In (ka a) (map kb r) ->
  map (pair a) (filter (fun b => ka a =? kb b) r) <> [].
Proof.
  intros H. apply in_map_iff in H. destruct H as (b & E & Hb).
  assert (In b (filter (fun b => ka a =? kb b) r)) as Hin
      by (apply filter_In; split; [assumption | now apply Z.eqb_eq]).
  destruct (filter _ r); [destruct Hin | discriminate].
Qed.

(** The rows returned are, one for one and in order, the rows of
    [noteStats] as they are at the end of the loop. *)
Lemma finalize_in_order (dec : option string) (st : Engine) out :
  finalize dec st = Ok out ->
  map sNoteId out = ids (engineStats st)
  /\ map sCells out = map cells (engineStats st).
Proof.
  intros H. destruct (finalize_Ok _ _ _ H) as (H1 & H2 & _ & Hlen & ->).
  rewrite set_eqb_spec in H1, H2. rewrite length_map in Hlen.
  set (m1 := merge_inner noteId fst (engineStats st) (noteLabels st)) in *.
  set (m2 := merge_inner (fun x : Row * (Z * string) => noteId (fst x)) fst
               m1 (condense dec (noteRules st))) in *.
  set (f3 := fun x : Row * (Z * string) * (Z * (option string * string)) =>
               map (fun e => (x, e))
                   (rows_for (noteId (fst (fst x)))
                             (rows (noteColumns st)))) in *.
  assert (forall a, In a (engineStats st) ->
            map (pair a) (filter (fun b => noteId a =? fst b) (noteLabels st))
            <> []) as N1.
  { intros a Ha. apply (matches_nonempty noteId fst). apply H1.
    unfold ids. now apply in_map. }
  assert (forall x, In x m1 -> In (fst x) (engineStats st)) as O1.
  { intros [a b] Hx. apply merge_inner_In in Hx. tauto. }
  assert (forall x, In x m1 ->
            map (pair x)
                (filter (fun g => noteId (fst x) =? fst g)
                        (condense dec (noteRules st))) <> []) as N2.
  { intros x Hx.
    apply (matches_nonempty (fun x : Row * (Z * string) => noteId (fst x))
                            fst).
    apply H2. unfold ids. apply in_map. now apply O1. }
  assert (forall x, In x m2 -> f3 x <> []) as N3.
  { intros x _. unfold f3.
    destruct (rows_for_nonempty (noteId (fst (fst x)))
                (rows (noteColumns st))) as (e & He).
    destruct (rows_for _ _); [destruct He | discriminate]. }
  assert (List.length (engineStats st) <= List.length m1)%nat as L1
      by exact (flat_map_length_ge _ _ N1).
  assert (List.length m1 <= List.length m2)%nat as L2
      by exact (flat_map_length_ge _ _ N2).
  assert (List.length m2 <= List.length (flat_map f3 m2))%nat as L3
      by exact (flat_map_length_ge _ _ N3).
  assert (List.length (flat_map f3 m2) = List.length (engineStats st))
    as L4 by exact Hlen.
  assert (List.length m1 = List.length (engineStats st)
          /\ List.length m2 = List.length m1
          /\ List.length (flat_map f3 m2) = List.length m2) as (E1 & E2 & E3)
      by lia.
  assert (map fst m1 = engineStats st) as P1.
  { apply flat_map_one_each; [| assumption | exact E1].
    intros a x _ Hx. now apply merge_inner_origin in Hx. }
  assert (map fst m2 = m1) as P2.
  { apply flat_map_one_each; [| assumption | exact E2].
    intros a x _ Hx. apply in_map_iff in Hx.
    now destruct Hx as (b & <- & _). }
  assert (map fst (flat_map f3 m2) = m2) as P3.
  { apply flat_map_one_each; [| assumption | exact E3].
    intros a x _ Hx. unfold f3 in Hx. apply in_map_iff in Hx.
    now destruct Hx as (e & <- & _). }
  assert (map (fun y => fst (fst (fst y))) (flat_map f3 m2)
          = engineStats st) as P.
  { transitivity (map fst (map fst (map fst (flat_map f3 m2)))).
    - now rewrite !map_map.
    - now rewrite P3, P2, P1. }
  split.
  - rewrite map_map. unfold ids. rewrite <- P. now rewrite map_map.
  - rewrite map_map. rewrite <- P. now rewrite map_map.
Qed.

Lemma run_stats (rules : list ScoringRule) (st st' : Engine) :
  run rules st = Ok st' ->
  Forall (fun rule => sets_top_tags rule = false) rules ->
  engineStats st' = engineStats st.
Proof.
  revert st. induction rules as [|r rs IH]; intros st H Hall.
  - now inversion H.
  - apply apply_rules_cons in H. destruct H as (st1 & H1 & H2).
    inversion Hall as [|? ? Hr Hrs]; subst.
    destruct (apply_rule_Ok _ _ _ _ _ H1) as (_ & _ & out & Hs & _ & Hst & _).
    rewrite (IH _ H2 Hrs), Hst.
    apply (score_notes_stats _ _ _ _ _ _ Hs Hr).
Qed.

(** X2.  The table returned lists the notes in the order of the input
    [noteStats], one row for each input row; when no rule of the run is an
    [InsufficientExplanation], the cells of [noteStats] come back as they
    were passed. *)
Theorem output_in_input_order noteStats rules dec out :
  engine noteStats rules dec = Ok out ->
  map sNoteId out = ids noteStats
  /\ (Forall (fun rule => sets_top_tags rule = false) rules ->
      map sCells out = map cells noteStats).
Proof.
  intros H. destruct (engine_Ok _ _ _ _ _ _ H)
    as (st & Hrun & Hfin & _ & _ & _ & Hids).
  destruct (finalize_in_order _ _ _ Hfin) as [Hn Hc]. split.
  - now rewrite Hn.
  - intros Hall. rewrite Hc. now rewrite (run_stats _ _ _ Hrun Hall).
Qed.


(** X4.  A note of [noteStats] that no rule of the run has labelled makes
    the engine fail: when the loop over the rules runs to its end and some
    note has no label, [apply_scoring_rules] raises an [AssertionError].
    An empty rules list over a non-empty [noteStats] is the simplest
    case. *)
Theorem unlabelled_note_fails noteStats rules dec st n :
  run rules (init_engine noteStats) = Ok st ->
  In n (ids noteStats) ->
  ~ In n (label_ids (noteLabels st)) ->
  engine noteStats rules dec = Raise AssertionError.
Proof.
  intros H Hn Hfree. unfold apply_scoring_rules, bind. rewrite H.
  assert (ids (engineStats st) = ids noteStats) as E.
  { destruct (run_trace _ _ _ _ _ H) as (_ & _ & _ & E);
      [constructor | exact E]. }
  unfold finalize.
  destruct (set_eqb (ids (engineStats st)) (label_ids (noteLabels st)))
    eqn:Hset; [|reflexivity].
  exfalso. apply Hfree. rewrite set_eqb_spec in Hset. apply Hset.
  now rewrite E.
Qed.

End EngineOutput.

(** ** The labels a rule overwrites *)

Lemma merge_ids_In (ns : NoteStats) (cand : list Z) (r : Row) :
  In r (merge_ids ns cand) <-> In r ns /\ In (noteId r) cand.
Proof.
  unfold merge_ids. rewrite in_map_iff. split.
  - intros ([a n] & <- & H). apply merge_inner_In in H.
    simpl in *. destruct H as (H1 & H2 & ->). tauto.
  - intros [H1 H2]. exists (r, noteId r). split; [reflexivity|].
    apply merge_inner_In. tauto.
Qed.

Lemma ids_merge_ids_In (keep : Row -> bool) ns cand n :
  In n (ids (filter keep (merge_ids ns cand))) ->
  In n cand /\ exists r, In r ns /\ noteId r = n /\ keep r = true.
Proof.
  intros H. apply ids_filter_In in H. destruct H as (r & Hr & <- & Hk).
  apply merge_ids_In in Hr. destruct Hr as [Hr Hc].
  split; [assumption|]. now exists r.
Qed.

Lemma impacted_In thresholds minTotal (ns : NoteStats) tags acc l n tag :
  FilterTagOutliers.impacted thresholds minTotal ns tags acc = Ok l ->
  In (n, tag) l ->
  In (n, tag) acc
  \/ (In tag tags /\ tag <> notHelpfulHardToUnderstandKey
      /\ exists threshold r,
          dict_get ((tag ++ adjustedSuffix) ++ ratioSuffix)%string thresholds
          = Some threshold
          /\ In r ns /\ noteId r = n
          /\ num_gt (get (tag ++ adjustedSuffix)%string r) minTotal = true
          /\ num_gt (get ((tag ++ adjustedSuffix) ++ ratioSuffix)%string r)
                    threshold = true).
Proof.
  revert acc. induction tags as [|t tags IH]; intros acc H Hin.
  - inversion H; subst. now left.
  - simpl in H. unfold bind in H.
    destruct (FilterTagOutliers.tag_pairs thresholds minTotal ns t)
      as [p|e] eqn:Ep; [|discriminate].
    destruct (IH _ H Hin) as [Hacc|(Ht & Hne & Hex)].
    + apply in_app_or in Hacc. destruct Hacc as [Hacc|Hp]; [now left|].
      right. unfold FilterTagOutliers.tag_pairs in Ep.
      destruct (String.eqb_spec t notHelpfulHardToUnderstandKey) as [E|E].
      * inversion Ep; subst. destruct Hp.
      * clear IH.
        destruct (dict_get ((t ++ adjustedSuffix) ++ ratioSuffix)%string
                    thresholds) as [th|] eqn:Ed; [|discriminate].
        inversion Ep; subst. apply in_map_iff in Hp.
        destruct Hp as (r & Er & Hr). inversion Er; subst.
        apply filter_In in Hr. destruct Hr as [Hr Hb].
        apply andb_true_iff in Hb.
        split; [now left|]. split; [assumption|].
        exists th, r. tauto.
    + right. split; [now right|]. tauto.
Qed.

Section Overwrites.

Variable c : Constants.
Variable get_top_two_tags_for_note : TopTwoTags.

Local Abbreviation step := (apply_rule c get_top_two_tags_for_note).
Local Abbreviation run := (apply_rules c get_top_two_tags_for_note).
Local Abbreviation score := (score_notes c get_top_two_tags_for_note).

(** Every update of a rule that consults the current labels goes to a note
    whose current label passes the rule's test. *)
Lemma updates_pass_test rule noteStats currentLabels out p n :
  score rule noteStats currentLabels = Ok out ->
  overwrites rule = Some p ->
  In n (label_ids (noteStatusUpdates out)) ->
  exists s, In (n, s) currentLabels /\ p s = true.
Proof.
  intros H Hp Hn.
  destruct rule; simpl in Hp; inversion Hp; subst; clear Hp.
  1-4, 6-11: unfold_rules H; returned H; simpl in Hn;
    try rewrite with_status_ids in Hn.
  - (* FilterTagOutliers *)
    apply nodup_In in Hn. unfold ids in Hn.
    rewrite map_map in Hn. simpl in Hn.
    apply in_map_iff in Hn. destruct Hn as ([k tags] & <- & Hg).
    apply groupby_list_In in Hg. destruct Hg as [Hk _].
    apply in_map_iff in Hk. destruct Hk as ([k' tag] & Ek & Hin).
    simpl in Ek. subst k'.
    destruct (impacted_In _ _ _ _ _ _ _ _ E Hin)
      as [[]|(_ & _ & th & r & _ & Hr & <- & _)].
    apply merge_ids_In in Hr. destruct Hr as [_ Hr].
    now apply label_ids_where_In in Hr.
  - (* FilterIncorrect *)
    apply ids_merge_ids_In in Hn. destruct Hn as [Hn _].
    now apply label_ids_where_In in Hn.
  - (* FilterLowDiligence *)
    apply ids_merge_ids_In in Hn. destruct Hn as [Hn _].
    now apply label_ids_where_In in Hn.
  - (* FilterLargeFactor *)
    apply ids_merge_ids_In in Hn. destruct Hn as [Hn _].
    now apply label_ids_where_In in Hn.
  - (* RejectLowIntercept *)
    apply ids_merge_ids_In in Hn. destruct Hn as [Hn _].
    now apply label_ids_where_In in Hn.
  - (* ApplyGroupModelResult *)
    apply merge_keys_In in Hn. destruct Hn as [Hn _].
    apply merge_keys_In in Hn. destruct Hn as [_ Hn].
    now apply label_ids_where_In in Hn.
  - (* InsufficientExplanation *)
    apply ids_merge_ids_In in Hn. destruct Hn as [Hn _].
    now apply label_ids_where_In in Hn.
  - (* AddCRHInertia *)
    apply merge_keys_In in Hn. destruct Hn as [Hn _].
    now apply label_ids_where_In in Hn.
  - (* ScoringDriftGuard *)
    unfold label_ids in Hn. rewrite map_map in Hn.
    apply in_map_iff in Hn. destruct Hn as ([a b] & <- & Hx).
    apply filter_In in Hx. destruct Hx as [Hx _].
    apply merge_inner_In in Hx. destruct Hx as (_ & Hb & E).
    simpl. rewrite E. exists (snd b).
    split; [now destruct b | reflexivity].
  - (* ApplyTopicModelResult *)
    apply merge_keys_In in Hn. destruct Hn as [Hn _].
    now apply label_ids_where_In in Hn.
  - (* NmrDueToMinStableCrhTime *)
    simpl in H.
    destruct (score_notes_Ok _ _ _ _ _ H) as [Hu _]. simpl in Hu.
    rewrite Hu in Hn. unfold label_ids in Hn. rewrite map_map in Hn.
    simpl in Hn. apply in_map_iff in Hn. destruct Hn as (y & <- & Hy).
    apply filter_In in Hy. destruct Hy as [Hy Hb].
    apply andb_true_iff in Hb. destruct Hb as [Hb _].
    apply in_map_iff in Hy. destruct Hy as (x & <- & Hx).
    destruct (decide_row_keeps c requiredStableCrhMinutesThreshold x)
      as (-> & Es & _).
    rewrite Es in Hb. apply considered_In in Hx.
    destruct Hx as (r & s & _ & Hl & _ & _ & ->). simpl in *.
    now exists s.
Qed.

Lemma step_labels_unique st rule st' :
  step st rule = Ok st' -> NoDup (label_ids (noteLabels st')).
Proof.
  intros H. destruct (apply_rule_Ok _ _ _ _ _ H)
    as (_ & _ & out & _ & _ & _ & -> & _).
  apply groupby_tail1_NoDup.
Qed.

Lemma step_spares st rule st' n s :
  step st rule = Ok st' ->
  NoDup (label_ids (noteLabels st)) ->
  spares s rule = true ->
  In (n, s) (noteLabels st) -> In (n, s) (noteLabels st').
Proof.
  intros H Hnd Hsp Hin.
  destruct (apply_rule_Ok _ _ _ _ _ H)
    as (_ & _ & out & Hs & _ & _ & -> & _).
  rewrite (score_notes_labels _ _ _ _ _ _ Hs).
  apply groupby_tail1_app_In. right.
  rewrite (groupby_tail1_id _ Hnd). split; [assumption|].
  simpl. intros Hn. unfold spares in Hsp.
  destruct (overwrites rule) as [p|] eqn:Ep; [|discriminate].
  destruct (updates_pass_test _ _ _ _ _ _ Hs Ep Hn) as (s' & Hl & Hp).
  assert ((n, s') = (n, s)) as E
      by (apply (same_key_same_row fst (noteLabels st)); auto).
  inversion E; subst. rewrite Hp in Hsp. discriminate.
Qed.

(** X5.  Every rule that draws its candidates from the current labels
    overwrites only labels that pass its test: a label the test rejects
    survives any run of such rules.  In particular a note that is CRNH keeps
    that label through [FilterTagOutliers], [FilterIncorrect],
    [FilterLowDiligence], [FilterLargeFactor], [RejectLowIntercept],
    [NmrDueToMinStableCrhTime], [ApplyGroupModelResult] and
    [ApplyTopicModelResult], whatever they are given. *)
Theorem spared_label_survives rules st st' n s :
  run rules st = Ok st' ->
  NoDup (label_ids (noteLabels st)) ->
  Forall (fun rule => spares s rule = true) rules ->
  In (n, s) (noteLabels st) ->
  In (n, s) (noteLabels st').
Proof.
  revert st. induction rules as [|r rs IH]; intros st H Hnd Hall Hin.
  - simpl in H. inversion H; subst. assumption.
  - apply apply_rules_cons in H. destruct H as (st1 & H1 & H2).
    inversion Hall as [|? ? Hr Hrs]; subst.
    apply (IH st1); [assumption | | assumption |].
    + apply (step_labels_unique _ _ _ H1).
    + apply (step_spares _ _ _ _ _ H1); assumption.
Qed.

End Overwrites.

(** ** The accumulators of the engine and its final assertions *)

Lemma sort_keys_NoDup (l : list Z) : NoDup (sort_keys l).
Proof.
  unfold sort_keys.
  eapply Permutation_NoDup; [apply ZSort.Permuted_sort|].
  apply NoDup_nodup.
Qed.

Lemma merge_outer_within (l r : DataFrame) (row : Row) :
  In row (rows (merge_outer l r)) ->
  In (noteId row) (ids (rows l)) \/ In (noteId row) (ids (rows r)).
Proof.
  unfold merge_outer. simpl. intros H.
  apply in_flat_map in H. destruct H as (k & Hk & H).
  apply in_flat_map in H. destruct H as (a & _ & H).
  apply in_map_iff in H. destruct H as (b & <- & _). simpl.
  apply (proj1 (sort_keys_In _ _)) in Hk. now apply in_app_or in Hk.
Qed.

Lemma rows_for_unique (k : Z) (l : list Row) :
  NoDup (ids l) -> exists e, rows_for k l = [e].
Proof.
  intros H. unfold rows_for.
  pose proof (NoDup_map_filter noteId (fun r => noteId r =? k) l H) as Hf.
  assert (forall r, In r (filter (fun r => noteId r =? k) l) ->
                    noteId r = k) as Hk.
  { intros r Hr. apply filter_In in Hr. now apply Z.eqb_eq. }
  destruct (filter (fun r => noteId r =? k) l) as [|x [|y t]].
  - now exists (mkRow k []).
  - now exists x.
  - exfalso. simpl in Hf. inversion Hf as [|? ? Hx _]; subst.
    apply Hx. left.
    rewrite (Hk x) by (now left).
    rewrite (Hk y) by (right; now left). reflexivity.
Qed.

Lemma flat_map_singletons {A B} (f : A -> list B) (origin : B -> A)
  (l : list A) :
  (forall a, In a l -> exists b, f a = [b] /\ origin b = a) ->
  map origin (flat_map f l) = l.
Proof.
  induction l as [|a l IH]; simpl; intros H; [reflexivity|].
  destruct (H a) as (b & -> & Hb); [now left|]. simpl.
  rewrite Hb, IH; [reflexivity|]. intros x Hx. apply H. now right.
Qed.

Lemma merge_outer_unique (l r : DataFrame) :
  NoDup (ids (rows l)) -> NoDup (ids (rows r)) ->
  NoDup (ids (rows (merge_outer l r))).
Proof.
  intros Hl Hr. unfold merge_outer. simpl. unfold ids at 1.
  rewrite (flat_map_singletons _ noteId); [apply sort_keys_NoDup|].
  intros k _.
  destruct (rows_for_unique k (rows l) Hl) as (a & ->).
  destruct (rows_for_unique k (rows r) Hr) as (b & ->).
  simpl. now exists (mkRow k (cells a ++ cells b)).
Qed.

Lemma matches_one {B} (kb : B -> Z) (r : list B) (k : Z) :
  NoDup (map kb r) -> In k (map kb r) ->
  List.length (filter (fun b => k =? kb b) r) = 1%nat.
Proof.
  induction r as [|b r IH]; simpl; intros Hnd Hin; [destruct Hin|].
  inversion Hnd as [|? ? Hb Hr]; subst.
  destruct (Z.eqb_spec k (kb b)) as [E|E].
  - simpl. f_equal. subst k.
    destruct (filter (fun x => kb b =? kb x) r) as [|x t] eqn:Ef;
      [reflexivity|].
    exfalso. apply Hb.
    assert (In x (filter (fun x => kb b =? kb x) r)) as Hx
        by (rewrite Ef; now left).
    apply filter_In in Hx. destruct Hx as [Hx Hk].
    apply Z.eqb_eq in Hk. rewrite Hk. now apply in_map.
  - apply IH; [assumption|]. destruct Hin as [Hin|Hin]; [|assumption].
    congruence.
Qed.

Lemma flat_map_length_one {A B} (f : A -> list B) (l : list A) :
  (forall a, In a l -> List.length (f a) = 1%nat) ->
  List.length (flat_map f l) = List.length l.
Proof.
  induction l as [|a l IH]; simpl; intros H; [reflexivity|].
  rewrite length_app, (H a) by (now left).
  rewrite IH; [reflexivity|]. intros x Hx. apply H. now right.
Qed.

Lemma condense_keys (dec : option string) (noteRules : list (Z * string)) :
  map fst (condense dec noteRules) = sort_keys (map fst noteRules).
Proof.
  unfold condense, groupby_list. rewrite !map_map. simpl. apply map_id.
Qed.

(** What [finalize] needs in order to return: one row per note in the
    three tables it joins, and a label for every note. *)
Lemma finalize_returns (dec : option string) (st : Engine) :
  NoDup (label_ids (noteLabels st)) ->
  NoDup (ids (rows (noteColumns st))) ->
  (forall n, In n (ids (engineStats st))
             <-> In n (label_ids (noteLabels st))) ->
  (forall n, In n (map fst (noteRules st))
             <-> In n (label_ids (noteLabels st))) ->
  (forall n, In n (ids (rows (noteColumns st))) ->
             In n (ids (engineStats st))) ->
  exists out, finalize dec st = Ok out.
Proof.
  intros Hl Hc Hcover Hrules Hcols. unfold finalize.
  rewrite (proj2 (set_eqb_spec (ids (engineStats st))
                    (label_ids (noteLabels st))) Hcover).
  assert (forall n, In n (ids (engineStats st))
                    <-> In n (map fst (condense dec (noteRules st))))
    as Hcond.
  { intros n. rewrite condense_keys, sort_keys_In, Hrules. apply Hcover. }
  rewrite (proj2 (set_eqb_spec _ _) Hcond).
  rewrite (proj2 (subsetb_spec _ _) Hcols). simpl.
  set (m1 := merge_inner noteId fst (engineStats st) (noteLabels st)).
  set (m2 := merge_inner (fun x : Row * (Z * string) => noteId (fst x)) fst
               m1 (condense dec (noteRules st))).
  assert (List.length m1 = List.length (engineStats st)) as E1.
  { apply flat_map_length_one. intros a Ha. rewrite length_map.
    apply (matches_one fst); [assumption|]. apply Hcover.
    unfold ids. now apply in_map. }
  assert (List.length m2 = List.length m1) as E2.
  { apply flat_map_length_one. intros x Hx. rewrite length_map.
    apply (matches_one fst).
    - rewrite condense_keys. apply sort_keys_NoDup.
    - apply Hcond. destruct x as [a b]. apply merge_inner_In in Hx.
      unfold ids. apply in_map. tauto. }
  match goal with
  | |- context [Nat.eqb (List.length (flat_map ?f m2)) _] =>
      assert (List.length (flat_map f m2) = List.length m2) as E3
  end.
  { apply flat_map_length_one. intros x _. rewrite length_map.
    destruct (rows_for_unique (noteId (fst (fst x)))
                (rows (noteColumns st)) Hc) as (e & ->).
    reflexivity. }
  rewrite E3, E2, E1, Nat.eqb_refl. eexists. reflexivity.
Qed.

Section Accumulators.

Variable c : Constants.
Variable get_top_two_tags_for_note : TopTwoTags.

Local Abbreviation step := (apply_rule c get_top_two_tags_for_note).
Local Abbreviation run := (apply_rules c get_top_two_tags_for_note).
Local Abbreviation score := (score_notes c get_top_two_tags_for_note).
Local Abbreviation engine :=
  (apply_scoring_rules c get_top_two_tags_for_note).

(** Every update names a note of [noteStats] or a note that has a label. *)
Lemma updates_within rule noteStats currentLabels out n :
  score rule noteStats currentLabels = Ok out ->
  In n (label_ids (noteStatusUpdates out)) ->
  In n (ids noteStats) \/ In n (label_ids currentLabels).
Proof.
  intros H Hn. destruct (overwrites rule) as [p|] eqn:Ep.
  - right.
    destruct (updates_pass_test _ _ _ _ _ _ _ _ H Ep Hn) as (s & Hs & _).
    unfold label_ids. now apply (in_map fst currentLabels (n, s)).
  - left. destruct rule; simpl in Ep; try discriminate;
      unfold_rules H; returned H; simpl in Hn.
    + now rewrite with_status_ids in Hn.
    + rewrite with_status_ids in Hn. unfold loc_mask in E.
      destruct (Nat.eqb _ _); [|discriminate]. inversion E; subst.
      unfold ids in *. apply in_map_iff in Hn.
      destruct Hn as (r & <- & Hr). apply in_map_iff in Hr.
      destruct Hr as ([a b] & <- & Hab). apply filter_In in Hab.
      destruct Hab as [Hab _]. apply in_combine_l in Hab.
      now apply in_map.
    + unfold label_ids in Hn. rewrite !map_map in Hn. simpl in Hn.
      apply in_map_iff in Hn. destruct Hn as (r & <- & Hr).
      apply filter_In in Hr. destruct Hr as [Hr _].
      assert (forall (pairs : list (string * value)) (l : NoteStats),
                In r (fold_left
                        (fun ns cv =>
                           filter (fun r => value_eqb (get (fst cv) r)
                                                      (snd cv)) ns)
                        pairs l) -> In r l) as Hfold.
      { induction pairs as [|cv pairs IH]; simpl; intros l Hl;
          [assumption|].
        apply IH in Hl. now apply filter_In in Hl. }
      apply Hfold in Hr.
      assert (In r noteStats) as Hin.
      { destruct checkFirmReject; [|assumption].
        now apply filter_In in Hr. }
      replace (fst (if eq_str (get sourceColumn r) firmReject
                    then (noteId r, Str needsMoreRatings)
                    else (noteId r, get sourceColumn r)))
        with (noteId r) by (now destruct (eq_str _ _)).
      unfold ids. now apply in_map.
    + rewrite with_status_ids in Hn. apply ids_filter_In in Hn.
      destruct Hn as (r & Hr & <- & _). unfold ids. now apply in_map.
Qed.

(** Every row of additional columns names a note that has a label. *)
Lemma extras_within rule noteStats currentLabels out ac n :
  score rule noteStats currentLabels = Ok out ->
  additionalColumns out = Some ac ->
  In n (ids (rows ac)) ->
  In n (label_ids currentLabels).
Proof.
  intros H Hac Hn.
  assert (forall p m, In m (label_ids_where p currentLabels) ->
                      In m (label_ids currentLabels)) as Hw.
  { intros p m Hm. apply label_ids_where_In in Hm.
    destruct Hm as (s & Hs & _).
    now apply (in_map fst currentLabels (m, s)). }
  destruct rule; unfold_rules H; returned H; simpl in Hac;
    inversion Hac; subst; clear Hac; simpl in Hn.
  - unfold ids in Hn. rewrite map_map in Hn. simpl in Hn.
    apply in_map_iff in Hn. destruct Hn as ([k tags] & <- & Hg).
    apply groupby_list_In in Hg. destruct Hg as [Hk _].
    apply in_map_iff in Hk. destruct Hk as ([k' tag] & Ek & Hin).
    simpl in Ek. subst k'.
    destruct (impacted_In _ _ _ _ _ _ _ _ E Hin)
      as [[]|(_ & _ & th & r & _ & Hr & <- & _)].
    apply merge_ids_In in Hr. destruct Hr as [_ Hr].
    now apply Hw in Hr.
  - unfold ids in Hn. rewrite !map_map in Hn. simpl in Hn.
    apply in_map_iff in Hn. destruct Hn as (x & <- & Hx).
    rewrite (proj1 (decide_row_keeps c _ x)).
    apply considered_In in Hx.
    destruct Hx as (r & s & _ & Hl & _ & _ & ->). simpl.
    now apply (in_map fst currentLabels (noteId r, s)).
  - unfold ids in Hn. rewrite map_map in Hn. simpl in Hn.
    apply in_map_iff in Hn. destruct Hn as ([a b] & <- & Hx).
    apply filter_In in Hx. destruct Hx as [Hx _].
    apply merge_inner_In in Hx. destruct Hx as (_ & Hb & E).
    simpl. rewrite E. unfold label_ids. now apply in_map.
Qed.

(** On tables with one row per note the additional columns of a rule have
    one row per note as well. *)
Lemma extras_unique rule noteStats currentLabels out ac :
  score rule noteStats currentLabels = Ok out ->
  additionalColumns out = Some ac ->
  unique_keys rule ->
  NoDup (ids noteStats) -> NoDup (label_ids currentLabels) ->
  NoDup (ids (rows ac)).
Proof.
  intros H Hac Hk Hns Hls.
  destruct rule; unfold_rules H; returned H; simpl in Hac;
    inversion Hac; subst; clear Hac; simpl.
  - unfold ids, groupby_list. rewrite !map_map. simpl. rewrite map_id.
    apply sort_keys_NoDup.
  - unfold ids. rewrite !map_map. simpl.
    erewrite map_ext
      by (intros x; apply (proj1 (decide_row_keeps c _ x))).
    unfold NmrDueToMinStableCrhTime.considered. rewrite map_map. simpl.
    apply NoDup_map_filter.
    apply (NoDup_merge_inner noteId fst); [|assumption].
    now apply NoDup_map_filter.
  - unfold ids. rewrite map_map. simpl. apply NoDup_map_filter.
    apply (NoDup_merge_inner fst fst); [|assumption].
    simpl in Hk. clear - Hk.
    induction lockedStatus as [|[n [s|]] l IH]; simpl in *;
      inversion Hk as [|? ? Hn Hl]; subst; [constructor | |auto].
    constructor; [|auto]. intros Hin. apply Hn.
    apply in_map_iff in Hin. destruct Hin as ([m t] & E & Hy).
    simpl in E. subst m. apply in_flat_map in Hy.
    destruct Hy as ([m [u|]] & Hm & Hy); simpl in Hy; [|destruct Hy].
    destruct Hy as [E|[]]. inversion E; subst.
    now apply (in_map fst l (n, Some t)).
Qed.

Lemma step_within st rule st' :
  step st rule = Ok st' -> within st -> within st'.
Proof.
  intros H (Hl & Hr & Hc).
  destruct (apply_rule_Ok _ _ _ _ _ H)
    as (_ & _ & out & Hs & _ & Est & El & Er & _ & Ecol).
  pose proof (score_notes_labels _ _ _ _ _ _ Hs) as Elab.
  pose proof (score_notes_ids _ _ _ _ _ _ Hs) as Eids.
  rewrite Elab in El.
  assert (forall n, In n (label_ids (noteLabels st'))
                    <-> In n (label_ids (noteLabels st))
                        \/ In n (label_ids (noteStatusUpdates out)))
    as Hkeys.
  { intros n. rewrite El. unfold label_ids.
    rewrite groupby_tail1_keys, map_app. apply in_app_iff. }
  repeat split.
  - intros n Hn. rewrite Est, Eids. apply Hkeys in Hn.
    destruct Hn as [Hn|Hn]; [now apply Hl|].
    destruct (updates_within _ _ _ _ _ Hs Hn); [assumption | now apply Hl].
  - intros Hn. apply Hkeys. rewrite Er, map_app, map_map in Hn.
    simpl in Hn. apply in_app_or in Hn.
    destruct Hn as [Hn|Hn]; [left; now apply Hr | now right].
  - intros Hn. apply Hkeys in Hn. rewrite Er, map_app, map_map.
    simpl. apply in_or_app.
    destruct Hn as [Hn|Hn]; [left; now apply Hr | now right].
  - intros n Hn. rewrite Est, Eids.
    destruct (additionalColumns out) as [ac|] eqn:Eac.
    + destruct Ecol as [_ Ecol]. rewrite Ecol in Hn.
      unfold ids in Hn. apply in_map_iff in Hn.
      destruct Hn as (row & <- & Hrow).
      apply merge_outer_within in Hrow.
      destruct Hrow as [Hrow|Hrow]; [now apply Hc|].
      apply Hl. apply (extras_within _ _ _ _ _ _ Hs Eac Hrow).
    + rewrite Ecol in Hn. now apply Hc.
Qed.

Lemma run_within rules st st' :
  run rules st = Ok st' -> within st -> within st'.
Proof.
  revert st. induction rules as [|r rs IH]; intros st H Hw.
  - simpl in H. inversion H; subst. assumption.
  - apply apply_rules_cons in H. destruct H as (st1 & H1 & H2).
    apply (IH st1 H2). apply (step_within _ _ _ H1 Hw).
Qed.

Lemma step_one_row_per_note st rule st' :
  step st rule = Ok st' -> unique_keys rule ->
  one_row_per_note st -> one_row_per_note st'.
Proof.
  intros H Hk (Hs & Hl & Hc).
  destruct (apply_rule_Ok _ _ _ _ _ H)
    as (_ & _ & out & Hsc & _ & Est & El & _ & _ & Ecol).
  repeat split.
  - rewrite Est, (score_notes_ids _ _ _ _ _ _ Hsc). assumption.
  - rewrite El. apply groupby_tail1_NoDup.
  - destruct (additionalColumns out) as [ac|] eqn:Eac.
    + destruct Ecol as [_ ->]. apply merge_outer_unique; [assumption|].
      apply (extras_unique _ _ _ _ _ Hsc Eac Hk Hs Hl).
    + now rewrite Ecol.
Qed.

Lemma run_one_row_per_note rules st st' :
  run rules st = Ok st' -> Forall unique_keys rules ->
  one_row_per_note st -> one_row_per_note st'.
Proof.
  revert st. induction rules as [|r rs IH]; intros st H Hk Hu.
  - simpl in H. inversion H; subst. assumption.
  - apply apply_rules_cons in H. destruct H as (st1 & H1 & H2).
    inversion Hk as [|? ? Hr Hrs]; subst.
    apply (IH st1 H2 Hrs). apply (step_one_row_per_note _ _ _ H1 Hr Hu).
Qed.

Lemma init_within noteStats : within (init_engine noteStats).
Proof. repeat split; simpl; intros; tauto. Qed.

(** X6.  Whatever the rules, when the loop runs to its end the labels, the
    active rules and the additional columns it has accumulated name notes
    of [noteStats] only, and the notes with a label are the notes with an
    active rule.  So the third of the final assertions (no additional
    column for an unknown note) holds for every run. *)
Theorem accumulators_name_input_notes noteStats rules st :
  run rules (init_engine noteStats) = Ok st ->
  (forall n, In n (label_ids (noteLabels st)) -> In n (ids noteStats))
  /\ (forall n, In n (map fst (noteRules st))
                <-> In n (label_ids (noteLabels st)))
  /\ subsetb (ids (rows (noteColumns st))) (ids (engineStats st)) = true.
Proof.
  intros H.
  destruct (run_within _ _ _ H (init_within noteStats)) as (Hl & Hr & Hc).
  assert (ids (engineStats st) = ids noteStats) as E.
  { destruct (run_trace _ _ _ _ _ H) as (_ & _ & _ & E);
      [constructor | exact E]. }
  split; [|split].
  - intros n Hn. rewrite <- E. now apply Hl.
  - exact Hr.
  - apply subsetb_spec. exact Hc.
Qed.

(** X7.  Over a [noteStats] with one row per note (and drift guards whose
    locked-status tables name a note once), the final assertions reduce to
    one condition: when the loop runs to its end, the engine returns if and
    only if every note of [noteStats] received a label. *)
Theorem engine_returns_iff_covered noteStats rules dec st :
  run rules (init_engine noteStats) = Ok st ->
  NoDup (ids noteStats) ->
  Forall unique_keys rules ->
  ((exists out, engine noteStats rules dec = Ok out)
   <-> forall n, In n (ids noteStats) -> In n (label_ids (noteLabels st))).
Proof.
  intros H Hnd Hk.
  destruct (run_within _ _ _ H (init_within noteStats)) as (Hl & Hr & Hc).
  assert (one_row_per_note (init_engine noteStats)) as Hinit
      by (repeat split; simpl; [assumption | constructor | constructor]).
  destruct (run_one_row_per_note _ _ _ H Hk Hinit) as (_ & Hul & Huc).
  assert (ids (engineStats st) = ids noteStats) as E.
  { destruct (run_trace _ _ _ _ _ H) as (_ & _ & _ & E);
      [constructor | exact E]. }
  unfold apply_scoring_rules, bind. rewrite H. split.
  - intros (out & Hout) n Hn.
    destruct (finalize_Ok _ _ _ Hout) as (H1 & _).
    rewrite set_eqb_spec in H1. apply H1. now rewrite E.
  - intros Hcov. apply finalize_returns; try assumption.
    intros n. split; [|apply Hl]. rewrite E. apply Hcov.
Qed.

End Accumulators.

(** ** Numeric cells *)

Lemma num_ge_Num (v : value) (t : Q) :
  num_ge v t = true <-> exists q, v = Num q /\ (t <= q)%Q.
Proof.
  destruct v as [|s|q|b]; simpl;
    try (split; [discriminate | intros (q' & E & _); discriminate]).
  rewrite Qle_bool_iff. split.
  - intros H. now exists q.
  - intros (q' & E & H). now inversion E; subst.
Qed.

Lemma num_gt_Num (v : value) (t : Q) :
  num_gt v t = true <-> exists q, v = Num q /\ (t < q)%Q.
Proof.
  destruct v as [|s|q|b]; simpl;
    try (split; [discriminate | intros (q' & E & _); discriminate]).
  unfold Qlt_bool. rewrite negb_true_iff, <- not_true_iff_false.
  rewrite Qle_bool_iff. split.
  - intros H. exists q. split; [reflexivity|]. now apply Qnot_le_lt.
  - intros (q' & E & H). inversion E; subst. now apply Qlt_not_le.
Qed.

Lemma num_gt_false (q t : Q) :
  num_gt (Num q) t = false <-> (q <= t)%Q.
Proof.
  simpl. unfold Qlt_bool. rewrite negb_false_iff. apply Qle_bool_iff.
Qed.

(** ** [AddCRHInertia] *)

(** X8.  [AddCRHInertia.score_notes] either returns, and then every note
    it sets has a label other than CRH, was CRH in the last run, is not a
    note on a tweet classified as not misleading, has the ratings needed
    and an intercept between [threshold] and [expectedMax]; or it raises an
    [AssertionError], and then a row of a selected note has an intercept
    above [expectedMax]. *)
Theorem inertia_stays_in_range (status : string)
  (threshold expectedMax minRatingsNeeded : Q)
  (noteStats : NoteStats) (currentLabels : Labels) :
  let selected r :=
    num_ge (get numRatingsKey r) minRatingsNeeded = true
    /\ eq_str (get currentLabelKey r) currentlyRatedHelpful = true
    /\ ne_str (get classificationKey r) noteSaysTweetIsNotMisleadingKey
       = true
    /\ exists q, get internalNoteInterceptKey r = Num q
                 /\ (threshold <= q)%Q in
  let relabelled n :=
    exists s0, In (n, s0) currentLabels /\ s0 <> currentlyRatedHelpful in
  match AddCRHInertia.score_notes status threshold expectedMax
          minRatingsNeeded noteStats currentLabels with
  | Ok out =>
      statsAfter out = noteStats
      /\ additionalColumns out = None
      /\ forall n s,
          In (n, s) (noteStatusUpdates out)
          <-> s = status /\ relabelled n
              /\ exists r, In r noteStats /\ noteId r = n /\ selected r
                           /\ forall r' q,
                               In r' noteStats -> noteId r' = n ->
                               get internalNoteInterceptKey r' = Num q ->
                               (q <= expectedMax)%Q
  | Raise e =>
      e = AssertionError
      /\ exists r r' q,
          In r noteStats /\ selected r /\ relabelled (noteId r)
          /\ In r' noteStats /\ noteId r' = noteId r
          /\ get internalNoteInterceptKey r' = Num q
          /\ (expectedMax < q)%Q
  end.
Proof.
  intros selected relabelled.
  unfold AddCRHInertia.score_notes.
  set (keep := fun r =>
         num_ge (get numRatingsKey r) minRatingsNeeded
         && num_ge (get internalNoteInterceptKey r) threshold
         && eq_str (get currentLabelKey r) currentlyRatedHelpful
         && ne_str (get classificationKey r)
                   noteSaysTweetIsNotMisleadingKey).
  set (noteIds :=
         map fst
           (merge_inner (fun n => n) (fun n => n)
              (label_ids_where
                 (fun s => negb (String.eqb s currentlyRatedHelpful))
                 currentLabels)
              (ids (filter keep noteStats)))).
  assert (forall r, keep r = true <-> selected r) as Hkeep.
  { intros r. unfold keep, selected.
    rewrite !andb_true_iff.
    rewrite (num_ge_Num (get internalNoteInterceptKey r)). tauto. }
  assert (forall n, In n noteIds
                    <-> relabelled n
                        /\ exists r, In r noteStats /\ noteId r = n
                                     /\ selected r) as Hids.
  { intros n. unfold noteIds, relabelled.
    rewrite merge_keys_In, label_ids_where_In, ids_filter_In.
    split.
    - intros ((s0 & Hs0 & Hne) & r & Hr & En & Hk). split.
      + exists s0. split; [assumption|]. apply negb_true_iff in Hne.
        now apply String.eqb_neq.
      + exists r. rewrite <- Hkeep. tauto.
    - intros ((s0 & Hs0 & Hne) & r & Hr & En & Hk). split.
      + exists s0. split; [assumption|]. apply negb_true_iff.
        now apply String.eqb_neq.
      + exists r. rewrite Hkeep. tauto. }
  destruct (forallb (fun v => negb (num_gt v expectedMax))
              (map (get internalNoteInterceptKey)
                   (merge_ids noteStats noteIds))) eqn:Hall; simpl.
  - split; [reflexivity|]. split; [reflexivity|].
    rewrite forallb_forall in Hall. intros n s.
    rewrite with_status_In, Hids. split.
    + intros ((Hrel & r & Hr & En & Hsel) & ->).
      split; [reflexivity|]. split; [assumption|].
      exists r. split; [assumption|]. split; [assumption|].
      split; [assumption|]. intros r' q Hr' En' Eq.
      apply num_gt_false. rewrite <- Eq. apply negb_true_iff.
      apply Hall. apply in_map. apply merge_ids_In.
      split; [assumption|]. apply Hids. rewrite En'.
      split; [assumption|]. now exists r.
    + intros (-> & Hrel & r & Hr & En & Hsel & _).
      split; [|reflexivity]. split; [assumption|]. now exists r.
  - split; [reflexivity|].
    apply forallb_false in Hall. destruct Hall as (v & Hv & Hgt).
    apply negb_false_iff in Hgt. apply in_map_iff in Hv.
    destruct Hv as (r' & <- & Hr'). apply merge_ids_In in Hr'.
    destruct Hr' as [Hr' Hn]. apply Hids in Hn.
    destruct Hn as (Hrel & r & Hr & En & Hsel).
    apply num_gt_Num in Hgt. destruct Hgt as (q & Eq & Hq).
    exists r, r', q. rewrite En. tauto.
Qed.

(** ** [FilterTagOutliers] *)

Lemma impacted_thresholds thresholds minTotal (ns : NoteStats) tags acc :
  match FilterTagOutliers.impacted thresholds minTotal ns tags acc with
  | Ok _ =>
      forall tag, In tag tags -> tag <> notHelpfulHardToUnderstandKey ->
        dict_get ((tag ++ adjustedSuffix) ++ ratioSuffix)%string thresholds
        <> None
  | Raise e =>
      e = KeyError
      /\ exists tag, In tag tags /\ tag <> notHelpfulHardToUnderstandKey
           /\ dict_get ((tag ++ adjustedSuffix) ++ ratioSuffix)%string
                       thresholds = None
  end.
Proof.
  revert acc. induction tags as [|t tags IH]; intros acc; simpl.
  - intros tag [].
  - unfold bind, FilterTagOutliers.tag_pairs.
    destruct (String.eqb_spec t notHelpfulHardToUnderstandKey) as [E|E].
    + specialize (IH (acc ++ [])).
      destruct (FilterTagOutliers.impacted _ _ _ tags (acc ++ [])).
      * intros tag [<-|Hin] Hne; [contradiction | now apply IH].
      * destruct IH as (-> & tag & Hin & Hne & Hd).
        split; [reflexivity|]. exists tag. tauto.
    + destruct (dict_get ((t ++ adjustedSuffix) ++ ratioSuffix)%string
                  thresholds) as [th|] eqn:Ed.
      * match goal with
        | |- context [FilterTagOutliers.impacted _ _ _ tags ?a] =>
            specialize (IH a);
            destruct (FilterTagOutliers.impacted thresholds minTotal ns
                        tags a)
        end.
        -- intros tag [<-|Hin] Hne; [now rewrite Ed | now apply IH].
        -- destruct IH as (-> & tag & Hin & Hne & Hd).
           split; [reflexivity|]. exists tag. tauto.
      * split; [reflexivity|]. exists t. tauto.
Qed.

(** X9.  [FilterTagOutliers.score_notes] raises a [KeyError] exactly when
    a tag of [notHelpfulTagsTSVOrder] other than the disabled
    hard-to-understand tag has no threshold.  When it returns, its updates
    and its additional column list the same notes, each once and only
    notes that are not CRNH now, every update carries the rule's status,
    and every tag it reports is an enabled tag whose adjusted total and
    adjusted ratio exceed their thresholds for that note. *)
Theorem tag_outliers_report (c : Constants) (status : string)
  (tagFilterThresholds : list (string * Q)) (minAdjustedTotal : Q)
  (noteStats : NoteStats) (currentLabels : Labels) :
  match FilterTagOutliers.score_notes c status tagFilterThresholds
          minAdjustedTotal noteStats currentLabels with
  | Ok out =>
      (forall tag, In tag (notHelpfulTagsTSVOrder c) ->
         tag <> notHelpfulHardToUnderstandKey ->
         dict_get ((tag ++ adjustedSuffix) ++ ratioSuffix)%string
                  tagFilterThresholds <> None)
      /\ exists ac,
          additionalColumns out = Some ac
          /\ noteStatusUpdates out = with_status status (ids (rows ac))
          /\ NoDup (ids (rows ac))
          /\ forall row, In row (rows ac) ->
               (exists s0, In (noteId row, s0) currentLabels
                           /\ s0 <> currentlyRatedNotHelpful)
               /\ exists tags,
                   tags <> []
                   /\ cells row
                      = [(activeFilterTagsKey,
                          Str (String.concat "," tags))]
                   /\ forall tag, In tag tags ->
                        In tag (notHelpfulTagsTSVOrder c)
                        /\ tag <> notHelpfulHardToUnderstandKey
                        /\ exists threshold r,
                            dict_get
                              ((tag ++ adjustedSuffix) ++ ratioSuffix)%string
                              tagFilterThresholds = Some threshold
                            /\ In r noteStats /\ noteId r = noteId row
                            /\ num_gt (get (tag ++ adjustedSuffix)%string r)
                                      minAdjustedTotal = true
                            /\ num_gt
                                 (get ((tag ++ adjustedSuffix)
                                       ++ ratioSuffix)%string r)
                                 threshold = true
  | Raise e =>
      e = KeyError
      /\ exists tag,
          In tag (notHelpfulTagsTSVOrder c)
          /\ tag <> notHelpfulHardToUnderstandKey
          /\ dict_get ((tag ++ adjustedSuffix) ++ ratioSuffix)%string
                      tagFilterThresholds = None
  end.
Proof.
  unfold FilterTagOutliers.score_notes, bind.
  pose proof (impacted_thresholds tagFilterThresholds minAdjustedTotal
                (merge_ids noteStats (not_crnh_ids currentLabels))
                (notHelpfulTagsTSVOrder c) []) as Hth.
  destruct (FilterTagOutliers.impacted tagFilterThresholds minAdjustedTotal
              (merge_ids noteStats (not_crnh_ids currentLabels))
              (notHelpfulTagsTSVOrder c) []) as [l|e] eqn:E;
    [|exact Hth].
  split; [exact Hth|]. eexists. split; [reflexivity|]. simpl.
  assert (ids (map (fun g : Z * list string =>
                      mkRow (fst g)
                        [(activeFilterTagsKey,
                          Str (String.concat "," (snd g)))])
                   (groupby_list l)) = sort_keys (map fst l)) as Eids.
  { unfold ids, groupby_list. rewrite !map_map. simpl. apply map_id. }
  rewrite Eids. split; [|split].
  - f_equal. apply nodup_fixed_point. apply sort_keys_NoDup.
  - apply sort_keys_NoDup.
  - intros row Hrow. apply in_map_iff in Hrow.
    destruct Hrow as ([k tags] & <- & Hg). simpl.
    apply groupby_list_In in Hg. destruct Hg as [Hk Etags].
    apply in_map_iff in Hk. destruct Hk as ([k' tag0] & Ek & Hin0).
    simpl in Ek. subst k'.
    assert (forall tag, In tag tags -> In (k, tag) l) as Htags.
    { intros tag Ht. rewrite Etags in Ht. apply in_map_iff in Ht.
      destruct Ht as ([k' t'] & Et & Hf). simpl in Et. subst t'.
      apply filter_In in Hf. destruct Hf as [Hf Hk]. simpl in Hk.
      apply Z.eqb_eq in Hk. now subst k'. }
    assert (forall tag, In (k, tag) l ->
              In tag (notHelpfulTagsTSVOrder c)
              /\ tag <> notHelpfulHardToUnderstandKey
              /\ exists threshold r,
                  dict_get ((tag ++ adjustedSuffix) ++ ratioSuffix)%string
                           tagFilterThresholds = Some threshold
                  /\ (In r noteStats
                      /\ In (noteId r) (not_crnh_ids currentLabels))
                  /\ noteId r = k
                  /\ num_gt (get (tag ++ adjustedSuffix)%string r)
                            minAdjustedTotal = true
                  /\ num_gt (get ((tag ++ adjustedSuffix)
                                  ++ ratioSuffix)%string r)
                            threshold = true) as Hl.
    { intros tag Hin.
      destruct (impacted_In _ _ _ _ _ _ _ _ E Hin)
        as [[]|(Ht & Hne & th & r & Hd & Hr & Hrest)].
      apply merge_ids_In in Hr.
      split; [assumption|]. split; [assumption|]. exists th, r. tauto. }
    split.
    + destruct (Hl tag0 Hin0) as (_ & _ & th & r & _ & [_ Hc] & <- & _).
      apply label_ids_where_In in Hc. destruct Hc as (s0 & Hs0 & Hne).
      exists s0. split; [assumption|]. apply negb_true_iff in Hne.
      now apply String.eqb_neq.
    + exists tags. split; [|split; [reflexivity|]].
      * rewrite Etags. intros Hnil.
        assert (In tag0 (map snd (filter (fun x => fst x =? k) l)))
          as Hin.
        { apply (in_map snd _ (k, tag0)). apply filter_In.
          split; [assumption | apply Z.eqb_refl]. }
        rewrite Hnil in Hin. destruct Hin.
      * intros tag Ht.
        destruct (Hl tag (Htags tag Ht))
          as (H1 & H2 & th & r & H3 & [H4 _] & H5 & H6 & H7).
        split; [assumption|]. split; [assumption|].
        exists th, r. tauto.
Qed.

(** ** [InsufficientExplanation] *)


Lemma filter_none {A} (keep : A -> bool) (l : list A) :
  (forall x, In x l -> keep x = false) -> filter keep l = [].
Proof.
  induction l as [|x l IH]; simpl; intros H; [reflexivity|].
  rewrite (H x) by (now left). apply IH. intros y Hy. apply H. now right.
Qed.



(** ** [ScoringDriftGuard] *)

Lemma locked_available (lockedStatus : list (Z * option string)) n s :
  In (n, s)
     (flat_map (fun x => match snd x with
                         | Some s => [(fst x, s)]
                         | None => []
                         end) lockedStatus)
  <-> In (n, Some s) lockedStatus.
Proof.
  rewrite in_flat_map. split.
  - intros ([m [t|]] & Hm & Hin); simpl in Hin; [|destruct Hin].
    destruct Hin as [E|[]]. now inversion E; subst.
  - intros H. exists (n, Some s). split; [assumption | now left].
Qed.

Lemma drift_updates_In (lockedStatus : list (Z * option string))
  (currentLabels : Labels) n s :
  In (n, s)
     (map fst
        (filter (fun x : (Z * string) * (Z * string) =>
                   negb (String.eqb (snd (fst x)) (snd (snd x))))
           (merge_inner fst fst
              (flat_map (fun x : Z * option string =>
                           match snd x with
                           | Some s => [(fst x, s)]
                           | None => []
                           end) lockedStatus)
              currentLabels)))
  <-> In (n, Some s) lockedStatus
      /\ exists s0, In (n, s0) currentLabels /\ s <> s0.
Proof.
  rewrite in_map_iff. split.
  - intros ([a b] & E & H). simpl in E. subst a.
    apply filter_In in H. destruct H as [H Hne].
    apply merge_inner_In in H. destruct H as (Ha & Hb & E).
    simpl in *. apply locked_available in Ha. split; [assumption|].
    destruct b as [m s0]. simpl in *. subst m. exists s0.
    split; [assumption|]. apply negb_true_iff in Hne.
    now apply String.eqb_neq.
  - intros (Hl & s0 & Hs0 & Hne). exists ((n, s), (n, s0)).
    split; [reflexivity|]. apply filter_In. split.
    + apply merge_inner_In. rewrite locked_available. tauto.
    + simpl. apply negb_true_iff. now apply String.eqb_neq.
Qed.

Section DriftGuard.

Variable c : Constants.
Variable get_top_two_tags_for_note : TopTwoTags.

Local Abbreviation step := (apply_rule c get_top_two_tags_for_note).
Local Abbreviation score := (score_notes c get_top_two_tags_for_note).

(** X11.  After a [ScoringDriftGuard] whose locked-status table names a
    note at most once, the labelled notes are the same as before, every
    labelled note with a locked status carries that status, every other
    note keeps its label, and a guard with the same table applied to the
    result has nothing left to update. *)
Theorem drift_guard_locks st ruleID dependencies lockedStatus st' :
  step st (ScoringDriftGuard ruleID dependencies lockedStatus) = Ok st' ->
  NoDup (label_ids (noteLabels st)) ->
  NoDup (map fst lockedStatus) ->
  (forall n, In n (label_ids (noteLabels st'))
             <-> In n (label_ids (noteLabels st)))
  /\ (forall n s, In (n, Some s) lockedStatus ->
                  In n (label_ids (noteLabels st)) ->
                  In (n, s) (noteLabels st'))
  /\ (forall n s0, In (n, s0) (noteLabels st) ->
                   (forall s, ~ In (n, Some s) lockedStatus) ->
                   In (n, s0) (noteLabels st'))
  /\ forall ruleID' dependencies' out,
      score (ScoringDriftGuard ruleID' dependencies' lockedStatus)
            (engineStats st') (noteLabels st') = Ok out ->
      noteStatusUpdates out = [].
Proof.
  intros H Hnd Hlk.
  destruct (apply_rule_Ok _ _ _ _ _ H)
    as (_ & _ & out & Hs & _ & _ & El & _).
  simpl in Hs. unfold ScoringDriftGuard.score_notes in Hs.
  inversion Hs; subst out; clear Hs. simpl in El.
  set (updates := map fst (filter _ _)) in *.
  assert (forall n s, In (n, s) updates
            <-> In (n, Some s) lockedStatus
                /\ exists s0, In (n, s0) (noteLabels st) /\ s <> s0)
    as Hupd by (intros n s; apply drift_updates_In).
  assert (forall n s s', In (n, Some s) lockedStatus ->
                         In (n, Some s') lockedStatus -> s = s') as Hone.
  { intros n s s' H1 H2.
    assert ((n, Some s) = (n, Some s')) as E
        by (apply (same_key_same_row fst lockedStatus); auto).
    now inversion E. }
  assert (forall n s, In (n, s) (groupby_tail1 updates)
                      <-> In (n, s) updates) as Hlast.
  { intros n s. split; [apply groupby_tail1_incl|]. intros Hin.
    assert (In n (map fst (groupby_tail1 updates))) as Hn.
    { apply groupby_tail1_keys. now apply (in_map fst updates (n, s)). }
    apply in_map_iff in Hn. destruct Hn as ([m s1] & E & Hs1).
    simpl in E. subst m.
    pose proof (groupby_tail1_incl _ _ Hs1) as Hs1'.
    apply Hupd in Hin. apply Hupd in Hs1'.
    destruct Hin as [Hl _]. destruct Hs1' as [Hl1 _].
    now rewrite (Hone _ _ _ Hl Hl1). }
  assert (forall n s, In (n, s) (noteLabels st')
            <-> In (n, s) updates
                \/ (In (n, s) (noteLabels st)
                    /\ ~ In n (label_ids updates))) as Hnew.
  { intros n s. rewrite El, groupby_tail1_app_In, Hlast.
    rewrite (groupby_tail1_id (noteLabels st)) by assumption.
    reflexivity. }
  assert (forall n s s', In (n, s) (noteLabels st) ->
                         In (n, s') (noteLabels st) -> s = s') as Hlab.
  { intros n s s' H1 H2.
    assert ((n, s) = (n, s')) as E
        by (apply (same_key_same_row fst (noteLabels st)); auto).
    now inversion E. }
  assert (forall n s, In (n, Some s) lockedStatus ->
                      In n (label_ids (noteLabels st)) ->
                      In (n, s) (noteLabels st')) as Hlocks.
  { intros n s Hl Hn. unfold label_ids in Hn. apply in_map_iff in Hn.
    destruct Hn as ([m s0] & E & Hs0). simpl in E. subst m.
    apply Hnew. destruct (string_dec s s0) as [->|Hne].
    - right. split; [assumption|]. intros Hin.
      unfold label_ids in Hin. apply in_map_iff in Hin.
      destruct Hin as ([m s1] & E & Hs1). simpl in E. subst m.
      apply Hupd in Hs1. destruct Hs1 as (Hl1 & s2 & Hs2 & Hne).
      rewrite (Hone _ _ _ Hl1 Hl), (Hlab _ _ _ Hs2 Hs0) in Hne.
      now apply Hne.
    - left. apply Hupd. split; [assumption|]. now exists s0. }
  assert (forall n, In n (label_ids (noteLabels st'))
                    <-> In n (label_ids (noteLabels st))) as Hkeys.
  { intros n. rewrite El. unfold label_ids.
    rewrite groupby_tail1_keys, map_app, in_app_iff.
    split; [|tauto]. intros [Hn|Hn]; [assumption|].
    apply in_map_iff in Hn. destruct Hn as ([m s] & E & Hin).
    simpl in E. subst m. apply Hupd in Hin.
    destruct Hin as (_ & s0 & Hs0 & _).
    now apply (in_map fst (noteLabels st) (n, s0)). }
  split; [exact Hkeys|]. split; [exact Hlocks|]. split.
  - intros n s0 Hs0 Hfree. apply Hnew. right. split; [assumption|].
    intros Hin. unfold label_ids in Hin. apply in_map_iff in Hin.
    destruct Hin as ([m s1] & E & Hs1). simpl in E. subst m.
    apply Hupd in Hs1. destruct Hs1 as (Hl1 & _). now apply (Hfree s1).
  - intros ruleID' dependencies' out Hs. simpl in Hs.
    unfold ScoringDriftGuard.score_notes in Hs.
    inversion Hs; subst out; clear Hs. simpl.
    match goal with |- ?l = [] => destruct l as [|[n s] t] eqn:E end;
      [reflexivity|].
    exfalso.
    assert (In (n, s)
              (map fst
                 (filter (fun x : (Z * string) * (Z * string) =>
                            negb (String.eqb (snd (fst x)) (snd (snd x))))
                    (merge_inner fst fst
                       (flat_map (fun x : Z * option string =>
                                    match snd x with
                                    | Some s => [(fst x, s)]
                                    | None => []
                                    end) lockedStatus)
                       (noteLabels st'))))) as Hin
        by (rewrite E; now left).
    apply drift_updates_In in Hin.
    destruct Hin as (Hl & s0 & Hs0 & Hne).
    assert (In n (label_ids (noteLabels st))) as Hn.
    { apply Hkeys. now apply (in_map fst (noteLabels st') (n, s0)). }
    pose proof (Hlocks n s Hl Hn) as Hs'.
    assert ((n, s) = (n, s0)) as E'.
    { apply (same_key_same_row fst (noteLabels st')); auto.
      rewrite El. apply groupby_tail1_NoDup. }
    inversion E'. contradiction.
Qed.

End DriftGuard.

(** ** [RuleFromFunction] and [NMtoCRNH] *)

Lemma masked_rows_are_misleading (ns : NoteStats) (mask : list bool) r :
  In (r, true)
     (combine ns
        (map (fun x : bool * Row =>
                fst x && ne_str (get classificationKey (snd x))
                                noteSaysTweetIsNotMisleadingKey)
             (combine mask ns))) ->
  In r ns
  /\ ne_str (get classificationKey r) noteSaysTweetIsNotMisleadingKey
     = true.
Proof.
  revert mask. induction ns as [|r0 ns IH]; intros mask H; [destruct H|].
  destruct mask as [|m mask]; [destruct H|]. simpl in H.
  destruct H as [E|H].
  - injection E as E1 E2. apply andb_true_iff in E2. subst r0.
    split; [now left | apply E2].
  - destruct (IH _ H). split; [now right | assumption].
Qed.

(** X12.  [RuleFromFunction] restricted to notes that say the tweet is
    misleading and [NMtoCRNH] split the notes by their classification: the
    first sets only notes with a row whose classification is not the token
    for a tweet that is not misleading (a missing classification
    included), the second only notes with a row whose classification is
    that token and whose intercept is below its threshold.  Over a
    [noteStats] with one row per note they never set the same note. *)
Theorem classification_splits_rules (status status' : string)
  (function : NoteStats -> list bool) (threshold : Q)
  (noteStats : NoteStats) (labels labels' : Labels) (out out' : Scored) :
  RuleFromFunction.score_notes status function true noteStats labels
  = Ok out ->
  NMtoCRNH.score_notes status' threshold noteStats labels' = Ok out' ->
  (forall n, In n (label_ids (noteStatusUpdates out)) ->
     exists r, In r noteStats /\ noteId r = n
               /\ get classificationKey r
                  <> Str noteSaysTweetIsNotMisleadingKey)
  /\ (forall n, In n (label_ids (noteStatusUpdates out')) ->
        exists r q, In r noteStats /\ noteId r = n
                    /\ get classificationKey r
                       = Str noteSaysTweetIsNotMisleadingKey
                    /\ get internalNoteInterceptKey r = Num q
                    /\ (q < threshold)%Q)
  /\ (NoDup (ids noteStats) ->
      forall n, In n (label_ids (noteStatusUpdates out)) ->
                ~ In n (label_ids (noteStatusUpdates out'))).
Proof.
  intros H H'.
  assert (forall n, In n (label_ids (noteStatusUpdates out)) ->
            exists r, In r noteStats /\ noteId r = n
                      /\ get classificationKey r
                         <> Str noteSaysTweetIsNotMisleadingKey) as H1.
  { unfold RuleFromFunction.score_notes, bind in H. returned H.
    unfold loc_mask in E. destruct (Nat.eqb _ _) in E; [|discriminate].
    inversion E; subst; clear E.
    intros n Hn. rewrite with_status_ids in Hn. unfold ids in Hn.
    apply in_map_iff in Hn. destruct Hn as (r & <- & Hr).
    apply in_map_iff in Hr. destruct Hr as ([r' b] & Er & Hr).
    simpl in Er. subst r'. apply filter_In in Hr.
    destruct Hr as [Hr Hb]. simpl in Hb. subst b.
    apply masked_rows_are_misleading in Hr. destruct Hr as [Hr Hne].
    exists r. split; [assumption|]. split; [reflexivity|].
    intros Ecls. unfold ne_str, eq_str in Hne. rewrite Ecls in Hne.
    unfold value_eqb in Hne. rewrite String.eqb_refl in Hne.
    discriminate. }
  assert (forall n, In n (label_ids (noteStatusUpdates out')) ->
            exists r q, In r noteStats /\ noteId r = n
                        /\ get classificationKey r
                           = Str noteSaysTweetIsNotMisleadingKey
                        /\ get internalNoteInterceptKey r = Num q
                        /\ (q < threshold)%Q) as H2.
  { unfold NMtoCRNH.score_notes in H'. returned H'. intros n Hn.
    rewrite with_status_ids in Hn. apply ids_filter_In in Hn.
    destruct Hn as (r & Hr & <- & Hb). apply andb_true_iff in Hb.
    destruct Hb as [Hlt Hcls]. apply eq_str_true in Hcls.
    destruct (get internalNoteInterceptKey r) as [|s|q|b] eqn:Eq;
      simpl in Hlt; try discriminate.
    exists r, q. repeat split; try assumption.
    unfold Qlt_bool in Hlt. apply negb_true_iff in Hlt.
    apply Qnot_le_lt. intros Hle. apply Qle_bool_iff in Hle.
    congruence. }
  split; [exact H1|]. split; [exact H2|].
  intros Hnd n Hn Hn'.
  destruct (H1 n Hn) as (r & Hr & En & Hne).
  destruct (H2 n Hn') as (r' & q & Hr' & En' & Hcls & _).
  assert (r = r') as E.
  { apply (same_key_same_row noteId noteStats); try assumption.
    now rewrite En, En'. }
  subst r'. contradiction.
Qed.

(** ** The notes of the updates and of the additional columns *)

Section SameNotes.

Variable c : Constants.
Variable get_top_two_tags_for_note : TopTwoTags.

Local Abbreviation score := (score_notes c get_top_two_tags_for_note).

(** X13.  The additional columns of a rule list every note the rule
    updates.  For every class but [NmrDueToMinStableCrhTime] they list
    exactly the updated notes, in the same order, so the engine's check
    that both name the same notes holds for every rule of these classes and
    for a [NmrDueToMinStableCrhTime] under its own identifier. *)
Theorem extras_list_the_updated_notes rule noteStats currentLabels out ac :
  score rule noteStats currentLabels = Ok out ->
  additionalColumns out = Some ac ->
  (forall n, In n (label_ids (noteStatusUpdates out)) ->
             In n (ids (rows ac)))
  /\ ((forall i d m, rule <> NmrDueToMinStableCrhTime i d m) ->
      label_ids (noteStatusUpdates out) = ids (rows ac))
  /\ ((forall i d m, rule <> NmrDueToMinStableCrhTime i d m)
      \/ get_rule_id rule = NMR_DUE_TO_MIN_STABLE_CRH_TIME ->
      same_notes rule out = true).
Proof.
  intros H Hac.
  assert ((forall i d m, rule <> NmrDueToMinStableCrhTime i d m) ->
          label_ids (noteStatusUpdates out) = ids (rows ac)) as Heq.
  { intros Hcls.
    destruct rule; unfold_rules H; returned H; simpl in Hac;
      inversion Hac; subst; clear Hac; simpl.
    - rewrite with_status_ids. apply nodup_fixed_point.
      unfold ids, groupby_list. rewrite !map_map. simpl. rewrite map_id.
      apply sort_keys_NoDup.
    - exfalso. now apply (Hcls ruleID dependencies
                            requiredStableCrhMinutesThreshold).
    - unfold label_ids, ids. now rewrite !map_map. }
  assert (forall n, In n (label_ids (noteStatusUpdates out)) ->
                    In n (ids (rows ac))) as Hsub.
  { destruct rule;
      try (intros n Hn; rewrite <- Heq; [assumption | discriminate]).
    simpl in H. destruct (score_notes_Ok _ _ _ _ _ H) as [Hu Hx].
    simpl in Hu, Hx. rewrite Hx in Hac. inversion Hac; subst; clear Hac.
    intros n Hn. rewrite Hu in Hn. simpl. unfold label_ids in Hn.
    unfold ids. rewrite map_map in *. simpl in *.
    apply in_map_iff in Hn. destruct Hn as (x & <- & Hx').
    apply filter_In in Hx'. destruct Hx' as [Hx' _].
    apply in_map_iff. now exists x. }
  split; [exact Hsub|]. split; [exact Heq|].
  intros Hor. unfold same_notes. rewrite Hac.
  destruct (RuleID_eqb (get_rule_id rule) NMR_DUE_TO_MIN_STABLE_CRH_TIME)
    eqn:Eid; [reflexivity|].
  destruct Hor as [Hcls|Hid].
  - rewrite (Heq Hcls). apply set_eqb_spec. tauto.
  - rewrite Hid in Eid. discriminate.
Qed.

End SameNotes.

(** ** Runs with a silent rule, and the default rule alone *)

Lemma matches_lookup {V} (v : Z -> V) (l : list Z) (k : Z) :
  NoDup l -> In k l ->
  filter (fun b : Z * V => k =? fst b) (map (fun n => (n, v n)) l)
  = [(k, v k)].
Proof.
  induction l as [|n l IH]; simpl; intros Hnd Hin; [destruct Hin|].
  inversion Hnd as [|? ? Hn Hl]; subst.
  destruct (Z.eqb_spec k n) as [E|E].
  - subst n. f_equal. apply filter_none. intros [m x] Hm. simpl.
    apply Z.eqb_neq. intros E. subst m. apply Hn.
    apply in_map_iff in Hm. destruct Hm as (m & Em & Hm).
    now inversion Em; subst.
  - apply IH; [assumption|]. destruct Hin as [Hin|Hin]; [|assumption].
    congruence.
Qed.

Lemma merge_inner_lookup {A B} (ka : A -> Z) (kb : B -> Z)
  (l : list A) (r : list B) (found : A -> B) :
  (forall a, In a l -> filter (fun b => ka a =? kb b) r = [found a]) ->
  merge_inner ka kb l r = map (fun a => (a, found a)) l.
Proof.
  unfold merge_inner. induction l as [|a l IH]; simpl; intros H;
    [reflexivity|].
  rewrite (H a) by (now left). simpl. f_equal.
  apply IH. intros x Hx. apply H. now right.
Qed.

Section SimpleRuns.

Variable c : Constants.
Variable get_top_two_tags_for_note : TopTwoTags.

Local Abbreviation step := (apply_rule c get_top_two_tags_for_note).
Local Abbreviation run := (apply_rules c get_top_two_tags_for_note).
Local Abbreviation score := (score_notes c get_top_two_tags_for_note).
Local Abbreviation engine :=
  (apply_scoring_rules c get_top_two_tags_for_note).

Lemma run_labels_unique rules st st' :
  run rules st = Ok st' ->
  NoDup (label_ids (noteLabels st)) -> NoDup (label_ids (noteLabels st')).
Proof.
  revert st. induction rules as [|r rs IH]; intros st H Hnd.
  - simpl in H. inversion H; subst. assumption.
  - apply apply_rules_cons in H. destruct H as (st1 & H1 & H2).
    apply (IH st1 H2). apply (step_labels_unique _ _ _ _ _ H1).
Qed.

(** X14.  A rule that runs and finds nothing to update (and is not an
    [InsufficientExplanation], which writes the top tags) leaves no trace:
    appended to a rules list, it changes neither whether the engine returns
    nor any cell of the table returned. *)
Theorem silent_rule_leaves_no_trace noteStats rules rule dec st st' out :
  run rules (init_engine noteStats) = Ok st ->
  step st rule = Ok st' ->
  score rule (engineStats st) (noteLabels st) = Ok out ->
  noteStatusUpdates out = [] ->
  additionalColumns out = None ->
  sets_top_tags rule = false ->
  engine noteStats (rules ++ [rule]) dec = engine noteStats rules dec.
Proof.
  intros Hrun Hstep Hs Hu Hac Htags.
  unfold apply_scoring_rules. rewrite apply_rules_app. unfold bind.
  rewrite Hrun. simpl. unfold bind. rewrite Hstep.
  destruct (apply_rule_Ok _ _ _ _ _ Hstep)
    as (_ & _ & out' & Hs' & _ & Est & El & Er & _ & Ec).
  rewrite Hs in Hs'. inversion Hs'; subst out'; clear Hs'.
  rewrite Hac in Ec. rewrite Hu in El, Er.
  rewrite (score_notes_labels _ _ _ _ _ _ Hs), app_nil_r in El.
  rewrite groupby_tail1_id in El.
  - simpl in Er. rewrite app_nil_r in Er.
    rewrite (score_notes_stats _ _ _ _ _ _ Hs Htags) in Est.
    unfold finalize. now rewrite Est, El, Er, Ec.
  - apply (run_labels_unique _ _ _ Hrun). constructor.
Qed.

(** X15.  The default rule alone, over a [noteStats] with one row per
    note: the engine returns the rows of [noteStats] in their order, each
    with the default status, the rule's display name as its only active
    rule and as the deciding rule when that column is requested, no
    additional column, and the boolean columns of that status. *)
Theorem default_rule_alone noteStats ruleID status dec :
  NoDup (ids noteStats) ->
  engine noteStats [DefaultRule ruleID [] status] dec
  = Ok (map (fun r =>
               mkScoredNote (noteId r) (cells r) status
                 (RuleID_get_name ruleID)
                 (if requested dec then Some (RuleID_get_name ruleID)
                  else None)
                 []
                 (String.eqb status currentlyRatedHelpful)
                 (String.eqb status currentlyRatedNotHelpful)
                 (String.eqb status needsMoreRatings))
            noteStats).
Proof.
  intros Hnd. unfold apply_scoring_rules. simpl.
  unfold apply_rule, bind, check_dependencies, same_notes. simpl.
  unfold DefaultRule.score_notes, get_name. simpl.
  rewrite (groupby_tail1_id (with_status status (ids noteStats)))
    by (now rewrite with_status_ids).
  unfold finalize. simpl.
  set (name := RuleID_get_name ruleID).
  set (decided := if requested dec then Some name else None).
  assert (condense dec
            (map (fun u : Z * string => (fst u, name))
                 (with_status status (ids noteStats)))
          = map (fun n => (n, (decided, name)))
                (sort_keys (ids noteStats))) as Econd.
  { unfold condense, groupby_list, with_status. rewrite !map_map. simpl.
    rewrite map_id. apply map_ext_in. intros k Hk.
    apply (proj1 (sort_keys_In _ _)) in Hk.
    replace (filter (fun x : Z * string => fst x =? k)
               (map (fun n => (n, name)) (ids noteStats)))
      with [(k, name)].
    - simpl. unfold decided. now destruct (requested dec).
    - symmetry. rewrite <- (matches_lookup (fun _ => name) _ k Hnd Hk).
      apply filter_ext. intros [m x]. simpl. apply Z.eqb_sym. }
  rewrite Econd.
  rewrite (proj2 (set_eqb_spec (ids noteStats)
                    (label_ids (with_status status (ids noteStats)))))
    by (intros n; now rewrite with_status_ids).
  rewrite (proj2 (set_eqb_spec (ids noteStats)
                    (map fst (map (fun n => (n, (decided, name)))
                                  (sort_keys (ids noteStats))))))
    by (intros n; rewrite map_map; simpl; rewrite map_id;
        now rewrite sort_keys_In).
  simpl.
  rewrite (merge_inner_lookup noteId fst noteStats _
             (fun r => (noteId r, status))).
  2: { intros r Hr. apply (matches_lookup (fun _ => status)); [assumption|].
       unfold ids. now apply in_map. }
  rewrite (merge_inner_lookup _ fst _ _
             (fun x : Row * (Z * string) =>
                (noteId (fst x), (decided, name)))).
  2: { intros x Hx. apply in_map_iff in Hx. destruct Hx as (r & <- & Hr).
       simpl. apply (matches_lookup (fun _ => (decided, name))).
       - apply sort_keys_NoDup.
       - apply sort_keys_In. unfold ids. now apply in_map. }
  rewrite !flat_map_concat_map, !map_map. simpl.
  rewrite <- flat_map_concat_map.
  assert (forall l : NoteStats,
            flat_map (fun r => [(r, (noteId r, status),
                                 (noteId r, (decided, name)),
                                 mkRow (noteId r) [])]) l
            = map (fun r => (r, (noteId r, status),
                             (noteId r, (decided, name)),
                             mkRow (noteId r) [])) l) as Eflat.
  { induction l as [|r l IH]; simpl; [reflexivity | now rewrite IH]. }
  rewrite Eflat, length_map, Nat.eqb_refl, map_map. reflexivity.
Qed.

End SimpleRuns.

Lemma explanation_nodup (c : Constants)
  (get_top_two_tags_for_note : TopTwoTags)
  (minRatingsToGetTag minTagsNeededForStatus : Z)
  (tagsConsidered : option (list string))
  (noteStats : NoteStats) (currentLabels : Labels) :
  NoDup (ids noteStats) -> NoDup (label_ids currentLabels) ->
  let tagged :=
    match tagsConsidered with
    | None =>
        let crh :=
          label_ids_where (fun s => String.eqb s currentlyRatedHelpful)
                          currentLabels in
        let topCrhTags :=
          get_top_two_tags_for_note
            (filter (fun r => mem (noteId r) crh) noteStats)
            minTagsNeededForStatus minRatingsToGetTag
            (helpfulTagsTiebreakOrder c) in
        let noteStats :=
          InsufficientExplanation.set_top_tags topCrhTags noteStats in
        let crnh :=
          label_ids_where (fun s => String.eqb s currentlyRatedNotHelpful)
                          currentLabels in
        let topCrnhTags :=
          get_top_two_tags_for_note
            (filter (fun r => mem (noteId r) crnh) noteStats)
            minRatingsToGetTag minTagsNeededForStatus
            (notHelpfulTagsTiebreakOrder c) in
        InsufficientExplanation.set_top_tags topCrnhTags noteStats
    | Some tags =>
        let topTags :=
          get_top_two_tags_for_note noteStats minRatingsToGetTag
            minTagsNeededForStatus tags in
        InsufficientExplanation.set_all_top_tags topTags noteStats
    end in
  nodupb
    (ids (filter
            (fun r => InsufficientExplanation.num_top_tags r
                      <? minTagsNeededForStatus)
            (merge_ids tagged
               (label_ids_where
                  (fun s => String.eqb s currentlyRatedHelpful
                            || String.eqb s currentlyRatedNotHelpful)
                  currentLabels))))
  = true.
Proof.
  intros Hns Hls tagged. apply nodupb_spec. apply NoDup_map_filter.
  apply NoDup_merge_ids; [|now apply NoDup_label_ids_where].
  unfold tagged. destruct tagsConsidered.
  - now rewrite set_all_top_tags_ids.
  - now rewrite !set_top_tags_ids.
Qed.

(** ** Rules and runs that return *)

Section Returns.

Variable c : Constants.
Variable get_top_two_tags_for_note : TopTwoTags.

Local Abbreviation step := (apply_rule c get_top_two_tags_for_note).
Local Abbreviation run := (apply_rules c get_top_two_tags_for_note).
Local Abbreviation score := (score_notes c get_top_two_tags_for_note).
Local Abbreviation engine :=
  (apply_scoring_rules c get_top_two_tags_for_note).

(** X16.  Over a [noteStats] and labels that list every NoteId once, the
    rules without an assertion of their own and the rules whose only
    assertion is that their updates hold no duplicate row ([FilterIncorrect],
    [FilterLowDiligence], [FilterLargeFactor], [InsufficientExplanation])
    return: that assertion cannot fire. *)
Theorem rules_return_on_unique_ids rule noteStats currentLabels :
  NoDup (ids noteStats) ->
  NoDup (label_ids currentLabels) ->
  asserts_only_uniqueness rule = true ->
  exists out, score rule noteStats currentLabels = Ok out.
Proof.
  intros Hns Hls Hrule.
  assert (forall (keep : Row -> bool) (p : string -> bool),
            nodupb (ids (filter keep
                           (merge_ids noteStats
                              (label_ids_where p currentLabels))))
            = true) as Hnd.
  { intros keep p. apply nodupb_spec. apply NoDup_map_filter.
    apply NoDup_merge_ids; [assumption|].
    now apply NoDup_label_ids_where. }
  destruct rule; simpl in Hrule; try discriminate; simpl;
    try (eexists; reflexivity).
  - unfold FilterIncorrect.score_notes, not_crnh_ids.
    rewrite Hnd. eexists. reflexivity.
  - unfold FilterLowDiligence.score_notes, not_crnh_ids.
    rewrite Hnd. eexists. reflexivity.
  - unfold FilterLargeFactor.score_notes.
    rewrite Hnd. eexists. reflexivity.
  - pose proof (explanation_nodup c get_top_two_tags_for_note
                  minRatingsToGetTag minTagsNeededForStatus tagsConsidered
                  noteStats currentLabels Hns Hls) as E.
    unfold InsufficientExplanation.score_notes. cbv zeta in E.
    rewrite E. eexists. reflexivity.
Qed.

Lemma step_labels_grow st rule st' n :
  step st rule = Ok st' ->
  In n (label_ids (noteLabels st)) -> In n (label_ids (noteLabels st')).
Proof.
  intros H Hn. destruct (apply_rule_Ok _ _ _ _ _ H)
    as (_ & _ & out & Hs & _ & _ & -> & _).
  rewrite (score_notes_labels _ _ _ _ _ _ Hs). unfold label_ids.
  rewrite groupby_tail1_keys, map_app. apply in_or_app. now left.
Qed.

Lemma run_labels_grow rules st st' n :
  run rules st = Ok st' ->
  In n (label_ids (noteLabels st)) -> In n (label_ids (noteLabels st')).
Proof.
  revert st. induction rules as [|r rs IH]; intros st H Hn.
  - simpl in H. inversion H; subst. assumption.
  - apply apply_rules_cons in H. destruct H as (st1 & H1 & H2).
    apply (IH st1 H2). apply (step_labels_grow _ _ _ _ H1 Hn).
Qed.

(** X17.  A rules list that starts with a [DefaultRule] cannot fail in the
    final assertions: over a [noteStats] with one row per note, when the
    loop over the rules runs to its end the engine returns, with one row
    per note in the order of [noteStats]. *)
Theorem default_first_always_returns noteStats ruleID dependencies status
  rest dec st :
  run (DefaultRule ruleID dependencies status :: rest)
      (init_engine noteStats) = Ok st ->
  NoDup (ids noteStats) ->
  Forall unique_keys rest ->
  exists out,
    engine noteStats (DefaultRule ruleID dependencies status :: rest) dec
    = Ok out
    /\ map sNoteId out = ids noteStats.
Proof.
  intros H Hnd Hk.
  pose proof (run_within _ _ _ _ _ H (init_within noteStats))
    as (Hl & Hr & Hc).
  assert (one_row_per_note (init_engine noteStats)) as Hinit
      by (repeat split; simpl; [assumption | constructor | constructor]).
  assert (Forall unique_keys
            (DefaultRule ruleID dependencies status :: rest)) as Hk'
      by (constructor; [exact I | assumption]).
  destruct (run_one_row_per_note _ _ _ _ _ H Hk' Hinit) as (_ & Hul & Huc).
  assert (ids (engineStats st) = ids noteStats) as E.
  { destruct (run_trace _ _ _ _ _ H) as (_ & _ & _ & E);
      [constructor | exact E]. }
  assert (forall n, In n (ids noteStats) ->
                    In n (label_ids (noteLabels st))) as Hcov.
  { intros n Hn. destruct (apply_rules_cons _ _ _ _ _ _ H)
      as (st1 & H1 & H2).
    apply (run_labels_grow _ _ _ _ H2).
    destruct (apply_rule_Ok _ _ _ _ _ H1)
      as (_ & _ & out & Hs & _ & _ & -> & _).
    simpl in Hs. unfold DefaultRule.score_notes in Hs.
    inversion Hs; subst out; clear Hs. simpl. unfold label_ids.
    rewrite groupby_tail1_keys.
    fold (label_ids (with_status status (ids noteStats))).
    now rewrite with_status_ids. }
  destruct (finalize_returns dec st Hul Huc) as (out & Hout);
    try assumption.
  { intros n. split; [|apply Hl]. rewrite E. apply Hcov. }
  exists out. unfold apply_scoring_rules, bind. rewrite H.
  split; [exact Hout|].
  rewrite (proj1 (finalize_in_order _ _ _ Hout)). exact E.
Qed.

End Returns.

(** ** The threshold filters *)

Lemma num_lt_Num (v : value) (t : Q) :
  num_lt v t = true <-> exists q, v = Num q /\ (q < t)%Q.
Proof.
  destruct v as [|s|q|b]; simpl;
    try (split; [discriminate | intros (q' & E & _); discriminate]).
  unfold Qlt_bool. rewrite negb_true_iff, <- not_true_iff_false.
  rewrite Qle_bool_iff. split.
  - intros H. exists q. split; [reflexivity|]. now apply Qnot_le_lt.
  - intros (q' & E & H). inversion E; subst. now apply Qlt_not_le.
Qed.

Lemma exceeds_in_size (v : value) (t : Q) :
  num_gt (vabs v) t = true
  <-> exists q, v = Num q /\ ((t < q)%Q \/ (q < - t)%Q).
Proof.
  rewrite num_gt_Num. split.
  - intros (a & E & H). destruct v as [|s|q|b]; simpl in E;
      try discriminate.
    inversion E; subst a. exists q. split; [reflexivity|].
    destruct (Qlt_le_dec t q) as [Hq|Hq]; [now left|]. right.
    destruct (Qlt_le_dec q (- t)) as [Hq'|Hq']; [assumption|].
    exfalso. apply (Qlt_not_le _ _ H). apply Qabs_Qle_condition. tauto.
  - intros (q & -> & H). exists (Qabs q). split; [reflexivity|].
    apply Qnot_le_lt. intros Hle. apply Qabs_Qle_condition in Hle.
    destruct Hle as [H1 H2]. destruct H as [H|H].
    + now apply (Qlt_not_le _ _ H).
    + now apply (Qlt_not_le _ _ H).
Qed.

Lemma candidates_In (keep : Row -> bool) (p : string -> bool)
  (noteStats : NoteStats) (currentLabels : Labels) (n : Z) :
  In n (ids (filter keep
               (merge_ids noteStats (label_ids_where p currentLabels))))
  <-> (exists s0, In (n, s0) currentLabels /\ p s0 = true)
      /\ exists r, In r noteStats /\ noteId r = n /\ keep r = true.
Proof.
  rewrite ids_filter_In. split.
  - intros (r & Hr & En & Hk). apply merge_ids_In in Hr.
    destruct Hr as [Hr Hc]. rewrite En in Hc.
    apply label_ids_where_In in Hc. split; [assumption|]. now exists r.
  - intros (Hc & r & Hr & En & Hk). exists r.
    split; [|tauto]. apply merge_ids_In. split; [assumption|].
    rewrite En. now apply label_ids_where_In.
Qed.

Lemma candidates_unique (keep : Row -> bool) (p : string -> bool)
  (noteStats : NoteStats) (currentLabels : Labels) :
  nodupb (ids (filter keep
                 (merge_ids noteStats (label_ids_where p currentLabels))))
  = false ->
  ~ (NoDup (ids noteStats) /\ NoDup (label_ids currentLabels)).
Proof.
  intros Hnd [Hns Hls]. apply not_true_iff_false in Hnd. apply Hnd.
  apply nodupb_spec. apply NoDup_map_filter.
  apply NoDup_merge_ids; [assumption|]. now apply NoDup_label_ids_where.
Qed.

Lemma not_crnh_test (currentLabels : Labels) (n : Z) :
  (exists s0, In (n, s0) currentLabels
              /\ negb (String.eqb s0 currentlyRatedNotHelpful) = true)
  <-> exists s0, In (n, s0) currentLabels
                 /\ s0 <> currentlyRatedNotHelpful.
Proof.
  split; intros (s0 & H & Hne); exists s0; (split; [assumption|]).
  - apply negb_true_iff in Hne. now apply String.eqb_neq.
  - apply negb_true_iff. now apply String.eqb_neq.
Qed.

Lemma is_crh_test (currentLabels : Labels) (n : Z) :
  (exists s0, In (n, s0) currentLabels
              /\ String.eqb s0 currentlyRatedHelpful = true)
  <-> In (n, currentlyRatedHelpful) currentLabels.
Proof.
  split.
  - intros (s0 & H & E). apply String.eqb_eq in E. now subst.
  - intros H. exists currentlyRatedHelpful.
    split; [assumption | apply String.eqb_refl].
Qed.

(** X18.  [FilterLargeFactor.score_notes] sets its status exactly on the
    notes that are CRH now and have a row whose factor exceeds the
    threshold in absolute value, whatever its sign; a missing factor never
    does.  It raises only an [AssertionError], and only when a NoteId is
    listed twice in [noteStats] or in the labels. *)
Theorem large_factor_selects (status : string) (factorThreshold : Q)
  (noteStats : NoteStats) (currentLabels : Labels) :
  match FilterLargeFactor.score_notes status factorThreshold noteStats
          currentLabels with
  | Ok out =>
      forall n s,
        In (n, s) (noteStatusUpdates out)
        <-> s = status
            /\ In (n, currentlyRatedHelpful) currentLabels
            /\ exists r q,
                In r noteStats /\ noteId r = n
                /\ get internalNoteFactor1Key r = Num q
                /\ ((factorThreshold < q)%Q \/ (q < - factorThreshold)%Q)
  | Raise e =>
      e = AssertionError
      /\ ~ (NoDup (ids noteStats) /\ NoDup (label_ids currentLabels))
  end.
Proof.
  unfold FilterLargeFactor.score_notes.
  destruct (nodupb _) eqn:Hnd; simpl.
  - intros n s. rewrite with_status_In, candidates_In, is_crh_test.
    split.
    + intros ((Hc & r & Hr & En & Hk) & ->). split; [reflexivity|].
      split; [assumption|]. apply exceeds_in_size in Hk.
      destruct Hk as (q & Eq & Hq). now exists r, q.
    + intros (-> & Hc & r & q & Hr & En & Eq & Hq).
      split; [|reflexivity]. split; [assumption|]. exists r.
      split; [assumption|]. split; [assumption|].
      apply exceeds_in_size. now exists q.
  - split; [reflexivity|]. now apply candidates_unique in Hnd.
Qed.

(** X19.  [ApplyTopicModelResult.score_notes] always returns, and sets NMR
    exactly on the notes that are CRH now and have a row of the rule's
    topic, marked confident, whose topic intercept is below its threshold
    or whose topic factor exceeds its threshold in absolute value. *)
Theorem topic_model_demotes (topic : string)
  (topicNMRInterceptThreshold topicNMRFactorThreshold : Q)
  (noteStats : NoteStats) (currentLabels : Labels) :
  exists out,
    ApplyTopicModelResult.score_notes topic topicNMRInterceptThreshold
      topicNMRFactorThreshold noteStats currentLabels = Ok out
    /\ forall n s,
        In (n, s) (noteStatusUpdates out)
        <-> s = needsMoreRatings
            /\ In (n, currentlyRatedHelpful) currentLabels
            /\ exists r,
                In r noteStats /\ noteId r = n
                /\ get topicNoteConfidentKey r = Bool true
                /\ get noteTopicKey r = Str topic
                /\ ((exists q, get topicNoteInterceptKey r = Num q
                               /\ (q < topicNMRInterceptThreshold)%Q)
                    \/ exists q,
                        get topicNoteFactor1Key r = Num q
                        /\ ((topicNMRFactorThreshold < q)%Q
                            \/ (q < - topicNMRFactorThreshold)%Q)).
Proof.
  eexists. split; [reflexivity|]. simpl. intros n s.
  rewrite with_status_In, merge_keys_In, label_ids_where_In, is_crh_test,
    ids_filter_In.
  assert (forall r,
            (num_lt (get topicNoteInterceptKey r)
                    topicNMRInterceptThreshold
             || num_gt (vabs (get topicNoteFactor1Key r))
                       topicNMRFactorThreshold)
            && truthy (get topicNoteConfidentKey r)
            && eq_str (get noteTopicKey r) topic = true
            <-> get topicNoteConfidentKey r = Bool true
                /\ get noteTopicKey r = Str topic
                /\ ((exists q, get topicNoteInterceptKey r = Num q
                               /\ (q < topicNMRInterceptThreshold)%Q)
                    \/ exists q,
                        get topicNoteFactor1Key r = Num q
                        /\ ((topicNMRFactorThreshold < q)%Q
                            \/ (q < - topicNMRFactorThreshold)%Q)))
    as Hrow.
  { intros r. rewrite !andb_true_iff, orb_true_iff, num_lt_Num,
      exceeds_in_size.
    assert (truthy (get topicNoteConfidentKey r) = true
            <-> get topicNoteConfidentKey r = Bool true) as ->.
    { destruct (get topicNoteConfidentKey r) as [|x|x|[|]]; simpl;
        split; intros H; try discriminate; reflexivity. }
    assert (eq_str (get noteTopicKey r) topic = true
            <-> get noteTopicKey r = Str topic) as ->.
    { split; [apply eq_str_true|]. intros ->. simpl.
      apply String.eqb_refl. }
    tauto. }
  split.
  - intros ((Hc & r & Hr & En & Hk) & ->). split; [reflexivity|].
    split; [assumption|]. exists r. apply Hrow in Hk. tauto.
  - intros (-> & Hc & r & Hr & En & Hk). split; [|reflexivity].
    split; [assumption|]. exists r. rewrite Hrow. tauto.
Qed.

(** X20.  [FilterIncorrect], [FilterLowDiligence] and [RejectLowIntercept]
    set their status exactly on the notes whose label is not CRNH and that
    have a row meeting the thresholds (at or above each of the three for
    [FilterIncorrect], strictly above for [FilterLowDiligence], strictly
    below for [RejectLowIntercept]); a missing cell meets no threshold.
    The first two raise only an [AssertionError], and only when a NoteId is
    listed twice; [RejectLowIntercept] always returns. *)
Theorem threshold_filters_select (status : string)
  (tagThreshold voteThreshold weightedTotalVotes : Q)
  (interceptThreshold firmRejectThreshold : Q)
  (noteStats : NoteStats) (currentLabels : Labels) :
  let candidate n :=
    exists s0, In (n, s0) currentLabels
               /\ s0 <> currentlyRatedNotHelpful in
  let duplicated :=
    ~ (NoDup (ids noteStats) /\ NoDup (label_ids currentLabels)) in
  match FilterIncorrect.score_notes status tagThreshold voteThreshold
          weightedTotalVotes noteStats currentLabels with
  | Ok out =>
      forall n s,
        In (n, s) (noteStatusUpdates out)
        <-> s = status /\ candidate n
            /\ exists r tags voters total,
                In r noteStats /\ noteId r = n
                /\ get "notHelpfulIncorrect_interval" r = Num tags
                /\ (tagThreshold <= tags)%Q
                /\ get "num_voters_interval" r = Num voters
                /\ (voteThreshold <= voters)%Q
                /\ get "tf_idf_incorrect_interval" r = Num total
                /\ (weightedTotalVotes <= total)%Q
  | Raise e => e = AssertionError /\ duplicated
  end
  /\ match FilterLowDiligence.score_notes status interceptThreshold
             noteStats currentLabels with
     | Ok out =>
         forall n s,
           In (n, s) (noteStatusUpdates out)
           <-> s = status /\ candidate n
               /\ exists r q,
                   In r noteStats /\ noteId r = n
                   /\ get lowDiligenceNoteInterceptKey r = Num q
                   /\ (interceptThreshold < q)%Q
     | Raise e => e = AssertionError /\ duplicated
     end
  /\ exists out,
      RejectLowIntercept.score_notes status firmRejectThreshold noteStats
        currentLabels = Ok out
      /\ forall n s,
          In (n, s) (noteStatusUpdates out)
          <-> s = status /\ candidate n
              /\ exists r q,
                  In r noteStats /\ noteId r = n
                  /\ get internalNoteInterceptKey r = Num q
                  /\ (q < firmRejectThreshold)%Q.
Proof.
  intros candidate duplicated. split; [|split].
  - unfold FilterIncorrect.score_notes, not_crnh_ids.
    destruct (nodupb _) eqn:Hnd; simpl.
    + intros n s. rewrite with_status_In, candidates_In, not_crnh_test.
      split.
      * intros ((Hc & r & Hr & En & Hk) & ->). split; [reflexivity|].
        split; [assumption|]. rewrite !andb_true_iff, !num_ge_Num in Hk.
        destruct Hk as (((a & Ea & Ha) & b & Eb & Hb) & d & Ed & Hd).
        exists r, a, b, d. tauto.
      * intros (-> & Hc & r & a & b & d & Hr & En & Ea & Ha & Eb & Hb
                & Ed & Hd).
        split; [|reflexivity]. split; [assumption|]. exists r.
        split; [assumption|]. split; [assumption|].
        rewrite !andb_true_iff, !num_ge_Num.
        split; [split|]; eexists; split; eassumption.
    + split; [reflexivity|]. now apply candidates_unique in Hnd.
  - unfold FilterLowDiligence.score_notes, not_crnh_ids.
    destruct (nodupb _) eqn:Hnd; simpl.
    + intros n s. rewrite with_status_In, candidates_In, not_crnh_test.
      split.
      * intros ((Hc & r & Hr & En & Hk) & ->). split; [reflexivity|].
        split; [assumption|]. apply num_gt_Num in Hk.
        destruct Hk as (q & Eq & Hq). now exists r, q.
      * intros (-> & Hc & r & q & Hr & En & Eq & Hq).
        split; [|reflexivity]. split; [assumption|]. exists r.
        split; [assumption|]. split; [assumption|].
        apply num_gt_Num. now exists q.
    + split; [reflexivity|]. now apply candidates_unique in Hnd.
  - eexists. split; [reflexivity|]. simpl. intros n s.
    unfold not_crnh_ids.
    rewrite with_status_In, candidates_In, not_crnh_test. split.
    + intros ((Hc & r & Hr & En & Hk) & ->). split; [reflexivity|].
      split; [assumption|]. apply num_lt_Num in Hk.
      destruct Hk as (q & Eq & Hq). now exists r, q.
    + intros (-> & Hc & r & q & Hr & En & Eq & Hq).
      split; [|reflexivity]. split; [assumption|]. exists r.
      split; [assumption|]. split; [assumption|].
      apply num_lt_Num. now exists q.
Qed.

(** ** The further properties on the scenarios *)

Lemma output_in_input_order_witness :
  map sNoteId [reject_row1; reject_row2] = ids reject_stats.
Proof.
  refine (proj1 (output_in_input_order tiny_constants
                   ExplanationTags.get_top_two_tags_for_note
                   reject_stats reject_rules (Some "decidedBy")
                   [reject_row1; reject_row2] _)).
  vm_compute. reflexivity.
Defined.


Lemma unlabelled_note_fails_witness :
  apply_scoring_rules tiny_constants
    ExplanationTags.get_top_two_tags_for_note reject_stats [] None
  = Raise AssertionError.
Proof.
  refine (unlabelled_note_fails tiny_constants
            ExplanationTags.get_top_two_tags_for_note reject_stats []
            None (init_engine reject_stats) 1 _ _ _).
  - reflexivity.
  - left. reflexivity.
  - intros [].
Defined.

Lemma spared_label_survives_witness :
  exists st',
    apply_rules tiny_constants ExplanationTags.get_top_two_tags_for_note
      reject_only crnh_state = Ok st'
    /\ In (1, currentlyRatedNotHelpful) (noteLabels st').
Proof.
  assert (exists st',
             apply_rules tiny_constants
               ExplanationTags.get_top_two_tags_for_note
               reject_only crnh_state = Ok st') as (st' & E)
      by (eexists; vm_compute; reflexivity).
  exists st'. split; [exact E|].
  apply (spared_label_survives tiny_constants
           ExplanationTags.get_top_two_tags_for_note
           reject_only crnh_state st' 1 currentlyRatedNotHelpful E).
  - apply nodupb_spec. reflexivity.
  - repeat constructor.
  - left. reflexivity.
Defined.

Lemma accumulators_name_input_notes_witness :
  exists st,
    apply_rules tiny_constants ExplanationTags.get_top_two_tags_for_note
      reject_rules (init_engine reject_stats) = Ok st
    /\ subsetb (ids (rows (noteColumns st))) (ids (engineStats st)) = true.
Proof.
  assert (exists st,
             apply_rules tiny_constants
               ExplanationTags.get_top_two_tags_for_note
               reject_rules (init_engine reject_stats) = Ok st)
    as (st & E) by (eexists; vm_compute; reflexivity).
  exists st. split; [exact E|].
  exact (proj2 (proj2 (accumulators_name_input_notes tiny_constants
                         ExplanationTags.get_top_two_tags_for_note
                         reject_stats reject_rules st E))).
Defined.

Lemma engine_returns_iff_covered_witness :
  exists out,
    apply_scoring_rules tiny_constants
      ExplanationTags.get_top_two_tags_for_note
      reject_stats reject_rules (Some "decidedBy") = Ok out.
Proof.
  refine (proj2 (engine_returns_iff_covered tiny_constants
                   ExplanationTags.get_top_two_tags_for_note
                   reject_stats reject_rules (Some "decidedBy") _ _ _ _) _).
  - vm_compute. reflexivity.
  - apply nodupb_spec. reflexivity.
  - repeat first [exact I | constructor].
  - intros n Hn. simpl in Hn.
    destruct Hn as [<-|[<-|[]]]; apply mem_In; reflexivity.
Defined.

Lemma drift_guard_locks_witness :
  exists st',
    apply_rule tiny_constants ExplanationTags.get_top_two_tags_for_note
      drift_state (drift_guard SCORING_DRIFT_GUARD [META_INITIAL_NMR])
    = Ok st'
    /\ In (5, currentlyRatedHelpful) (noteLabels st').
Proof.
  assert (exists st',
             apply_rule tiny_constants
               ExplanationTags.get_top_two_tags_for_note drift_state
               (drift_guard SCORING_DRIFT_GUARD [META_INITIAL_NMR])
             = Ok st') as (st' & E)
      by (eexists; vm_compute; reflexivity).
  exists st'. split; [exact E|].
  assert (NoDup [5]) as Hn by (constructor; [intros [] | constructor]).
  apply (proj1 (proj2 (drift_guard_locks tiny_constants
                         ExplanationTags.get_top_two_tags_for_note
                         drift_state SCORING_DRIFT_GUARD [META_INITIAL_NMR]
                         [(5, Some currentlyRatedHelpful)] st' E Hn Hn))).
  - left. reflexivity.
  - left. reflexivity.
Defined.

Lemma classification_splits_rules_witness :
  exists out out',
    RuleFromFunction.score_notes currentlyRatedHelpful every_row true
      classified_stats [] = Ok out
    /\ NMtoCRNH.score_notes currentlyRatedNotHelpful 0 classified_stats []
       = Ok out'
    /\ forall n, In n (label_ids (noteStatusUpdates out)) ->
                 ~ In n (label_ids (noteStatusUpdates out')).
Proof.
  assert (exists out,
             RuleFromFunction.score_notes currentlyRatedHelpful every_row
               true classified_stats [] = Ok out) as (out & E)
      by (eexists; vm_compute; reflexivity).
  assert (exists out',
             NMtoCRNH.score_notes currentlyRatedNotHelpful 0
               classified_stats [] = Ok out') as (out' & E')
      by (eexists; vm_compute; reflexivity).
  exists out, out'. split; [exact E|]. split; [exact E'|].
  apply (proj2 (proj2 (classification_splits_rules currentlyRatedHelpful
                         currentlyRatedNotHelpful every_row 0
                         classified_stats [] [] out out' E E'))).
  apply nodupb_spec. reflexivity.
Defined.

Lemma extras_list_the_updated_notes_witness :
  exists out ac,
    score_notes tiny_constants ExplanationTags.get_top_two_tags_for_note
      (drift_guard SCORING_DRIFT_GUARD [META_INITIAL_NMR])
      drift_stats [(5, needsMoreRatings)] = Ok out
    /\ additionalColumns out = Some ac
    /\ label_ids (noteStatusUpdates out) = ids (rows ac).
Proof.
  assert (exists out,
             score_notes tiny_constants
               ExplanationTags.get_top_two_tags_for_note
               (drift_guard SCORING_DRIFT_GUARD [META_INITIAL_NMR])
               drift_stats [(5, needsMoreRatings)] = Ok out) as (out & E)
      by (eexists; vm_compute; reflexivity).
  assert (exists ac, additionalColumns out = Some ac) as (ac & Eac).
  { vm_compute in E. inversion E; subst. eexists. reflexivity. }
  exists out, ac. split; [exact E|]. split; [exact Eac|].
  apply (proj1 (proj2 (extras_list_the_updated_notes tiny_constants
                         ExplanationTags.get_top_two_tags_for_note
                         (drift_guard SCORING_DRIFT_GUARD [META_INITIAL_NMR])
                         drift_stats [(5, needsMoreRatings)] out ac
                         E Eac))).
  intros i d m. discriminate.
Defined.

Lemma silent_rule_leaves_no_trace_witness :
  apply_scoring_rules tiny_constants
    ExplanationTags.get_top_two_tags_for_note reject_stats
    (reject_rules ++ [crh_rule]) (Some "decidedBy")
  = apply_scoring_rules tiny_constants
      ExplanationTags.get_top_two_tags_for_note reject_stats
      reject_rules (Some "decidedBy").
Proof.
  refine (silent_rule_leaves_no_trace tiny_constants
            ExplanationTags.get_top_two_tags_for_note reject_stats
            reject_rules crh_rule (Some "decidedBy") _ _ _ _ _ _ _ _ _).
  - vm_compute. reflexivity.
  - vm_compute. reflexivity.
  - vm_compute. reflexivity.
  - reflexivity.
  - reflexivity.
  - reflexivity.
Defined.

Lemma default_rule_alone_witness :
  apply_scoring_rules tiny_constants
    ExplanationTags.get_top_two_tags_for_note reject_stats
    [DefaultRule INITIAL_NMR [] needsMoreRatings] (Some "decidedBy")
  = Ok (map (fun r =>
               mkScoredNote (noteId r) (cells r) needsMoreRatings
                 "InitialNMR (v1.0)" (Some "InitialNMR (v1.0)") []
                 false false true)
            reject_stats).
Proof.
  refine (default_rule_alone tiny_constants
            ExplanationTags.get_top_two_tags_for_note reject_stats
            INITIAL_NMR needsMoreRatings (Some "decidedBy") _).
  apply nodupb_spec. reflexivity.
Defined.

Lemma rules_return_on_unique_ids_witness :
  exists out,
    score_notes tiny_constants ExplanationTags.get_top_two_tags_for_note
      (InsufficientExplanation INSUFFICIENT_EXPLANATION [] needsMoreRatings
         2 2 None)
      explanation_stats explanation_labels = Ok out.
Proof.
  refine (rules_return_on_unique_ids tiny_constants
            ExplanationTags.get_top_two_tags_for_note
            (InsufficientExplanation INSUFFICIENT_EXPLANATION []
               needsMoreRatings 2 2 None)
            explanation_stats explanation_labels _ _ _).
  - apply nodupb_spec. reflexivity.
  - apply nodupb_spec. reflexivity.
  - reflexivity.
Defined.

Lemma default_first_always_returns_witness :
  exists out,
    apply_scoring_rules tiny_constants
      ExplanationTags.get_top_two_tags_for_note reject_stats reject_rules
      (Some "decidedBy") = Ok out
    /\ map sNoteId out = ids reject_stats.
Proof.
  refine (default_first_always_returns tiny_constants
            ExplanationTags.get_top_two_tags_for_note reject_stats
            INITIAL_NMR [] needsMoreRatings
            [RejectLowIntercept LOW_INTERCEPT [INITIAL_NMR] firmReject
               (3 # 10)]
            (Some "decidedBy") _ _ _ _).
  - vm_compute. reflexivity.
  - apply nodupb_spec. reflexivity.
  - repeat first [exact I | constructor].
Defined.
